(** * CloudSploit scan engine: a shallow embedding and its properties

  The development follows the repository's sources:

  - [engine.js] (the second half of [src/unnamed/part_001]), the scan
    orchestration engine: planning of the API calls, the bounded scheduler
    built on [async.mapValuesLimit], the result pipeline [postRun] and the
    remediation trigger;
  - [lambdaMultipleRole.js] ([src/unnamed/part_000]): the [run] and
    [remediate] operations of one check and the transaction log it writes;
  - [plugins/aws/lambda/lambdaMissingExecutionRole.js] and
    [plugins/aws/iam/iamRoleHasTags.js]: the two Lambda execution-role
    checks;
  - the statements that follow [module.exports = engine] on the last line
    of [engine.js].

  JavaScript values are modelled by the types the code uses them at:
  numbers that are statuses by [Z], strings by [string], a value that may
  be [undefined] or [null] by [option], objects used as records by
  records, objects used as dictionaries by [gmap] or, where the
  enumeration order matters, by association lists. *)

From stdpp Require Import gmap strings list pretty.
From Stdlib Require Import ZArith Ascii String Permutation.

Open Scope string_scope.

(** ** JavaScript primitives used by the sources *)

Module JS.

(** Truthiness of a value that is a string, [undefined] or [null]. *)
Definition truthy (v : option string) : bool :=
  match v with
  | Some s => negb (String.eqb s "")
  | None => false
  end.

(** [v || d] for such a value. *)
Definition or_else (v : option string) (d : string) : string :=
  match v with
  | Some s => if String.eqb s "" then d else s
  | None => d
  end.

(** Truthiness of a value that is an array or [undefined], tested together
    with its [length]: [a && a.length]. *)
Definition nonempty {A} (v : option (list A)) : bool :=
  match v with
  | Some (_ :: _) => true
  | _ => false
  end.

(** [Array.prototype.join]. *)
Definition join (sep : string) (l : list string) : string :=
  String.concat sep l.

(** [a.indexOf(x) > -1] and [a.includes(x)] on an array of strings. *)
Definition includes (x : string) (a : list string) : bool :=
  existsb (String.eqb x) a.

(** Property key under which a value that may be [undefined] is stored. *)
Definition prop_key (v : option string) : string :=
  match v with
  | Some s => s
  | None => "undefined"
  end.

(** [String.prototype.toUpperCase], on the ASCII letters. *)
Definition upper_ascii (c : ascii) : ascii :=
  let n := nat_of_ascii c in
  if (97 <=? n)%nat && (n <=? 122)%nat then ascii_of_nat (n - 32) else c.

Fixpoint toUpperCase (s : string) : string :=
  match s with
  | EmptyString => EmptyString
  | String c s' => String (upper_ascii c) (toUpperCase s')
  end.

(** [s.endsWith(t)]. *)
Definition endsWith (s t : string) : bool :=
  let n := String.length s in
  let m := String.length t in
  (m <=? n)%nat && String.eqb (substring (n - m) m s) t.

(** [s.split(sep)] for a separator that is not empty. [skip] counts the
    characters of a separator just matched that are still to be passed. *)
Fixpoint split_go (sep : string) (skip : nat) (cur : string) (s : string)
  : list string :=
  match s with
  | EmptyString => [cur]
  | String c s' =>
      match skip with
      | S k => split_go sep k cur s'
      | O =>
          if prefix sep s
          then cur :: split_go sep (String.length sep - 1) EmptyString s'
          else split_go sep 0 (cur ++ String c EmptyString) s'
      end
  end.

Definition split (sep : string) (s : string) : list string :=
  split_go sep 0 EmptyString s.

(** The double quote character, as a string. *)
Definition dq : string := String (ascii_of_nat 34) EmptyString.

(** [a.pop()] read as an expression: the last element. *)
Definition pop (a : list string) : option string := last a.

End JS.

(** ** The scan engine ([engine.js]) *)

Module Engine.

(** *** Data model *)

(** A result as the checks emit it. *)
Record result := {
  status : Z;
  message : string;
  region : option string;
  resource : option string;
}.

(** An entry of the transaction log stored under
    [actions[checkId][resource]]: an object of recorded facts, or the error
    stored under the key ['error']. *)
Inductive log_entry :=
| Facts (fields : gmap string (option string))
| Failure (err : string).

(** One phase of the transaction log: [{ actions: { checkId: { resource:
    entry } } }]. *)
Record log_phase := {
  actions : option (gmap string (gmap string log_entry));
}.

(** The transaction log (the [remediation_file] of the sources). *)
Record remediation_file := {
  access : option unit;
  pre_remediate : option log_phase;
  post_remediate : option log_phase;
  remediate_phase : option log_phase;
}.

(** What calling a check's [run] (or the ASL runner in its place) with
    the engine's callback does: it calls back once with [(err, results)],
    throws, or never calls back. *)
Record callback := {
  cb_err : option string;
  cb_results : option (list result);
}.

Inductive behaviour :=
| Calls (cb : callback)
| Throws
| Hangs.

(** What calling a check's [remediate] does from the engine's point of
    view: the call returns (its completion callback only prints) or it
    throws. *)
Inductive remediation :=
| RemReturns
| RemThrows.

Record asl_descriptor := {
  version : option string;
}.

(** A check descriptor, with the fields the engine reads. [run] is the
    behaviour of [plugin.run(collection, settings, postRun)] on the scan's
    snapshot. *)
Record plugin := {
  title : string;
  apis : option (list string);
  apis_remediate : option (list string);
  compliance : option (list (string * string));
  types : list string;
  asl : option asl_descriptor;
  run : behaviour;
  remediate : option remediation;
}.

(** The catalog [exports[settings.cloud]], in the order of
    [Object.entries]. *)
Definition catalog := list (string * plugin).

Record settings := {
  cloud : string;
  plugin_id : option string;            (* settings.plugin *)
  compliance_modes : option (list string);   (* settings.compliance *)
  remediate_ids : option (list string); (* settings.remediate *)
  suppress : option (list string);
  run_asl : bool;                       (* settings['run-asl'] *)
  exit_code : bool;
  govcloud : bool;
  china : bool;
  ignore_ok : bool;
  skip_paginate : bool;
}.

Record cloud_config := {
  organization : bool;
  remediate_config : bool;              (* cloudConfig.remediate is set *)
  blob_upload : bool;  (* StorageConnection && BlobContainer *)
}.

(** Outcome of the collector's callback [(err, collection)]. *)
Inductive collected :=
| CollectError (err : string)
| CollectNothing
| Collection.

(** The collaborators the engine requires and that are not part of it. *)
Record environment := {
  (* suppress.create(settings.suppress) *)
  suppressionFilter : string -> bool;
  (* the collector's answer to a list of API calls *)
  collector : list string -> collected;
  (* error of azureHelper.login, if any *)
  azure_login : option string;
  (* helpers/asl/config.json: current_version *)
  asl_current_version : string;
  (* require(`./helpers/asl/asl-${version}.js`): the runner, if the file
     exists, as the behaviour of calling it on a check's descriptor *)
  asl_runner : string -> option (plugin -> behaviour);
}.

(** Everything the engine does that can be observed from outside. *)
Inductive event :=
| Log (msg : string)
| Dbg (msg : string)
| WriteCollection
| WriteResult (r : result) (key : string) (complianceMsg : option string)
| Remediate (key : string) (event_region : option string)
    (file : remediation_file) (res : option string)
| Upload (resultsObject : gmap string (list result))
| Close
| ExitCode (code : Z).

(** *** STEP 1: the API calls to make *)

(** [o[k]] on an object given by its entries. *)
Fixpoint property {A} (o : list (string * A)) (k : string) : option A :=
  match o with
  | [] => None
  | (k', v) :: o' => if String.eqb k' k then Some v else property o' k
  end.

(** [plugin.compliance[c]]. *)
Definition compliance_entry (p : plugin) (c : string) : option string :=
  match compliance p with
  | Some m => property m c
  | None => None
  end.

Definition skip_reason_github (cfg : cloud_config) (s : settings) (p : plugin)
  : bool * list event :=
  if String.eqb (cloud s) "github" then
    if organization cfg && negb (JS.includes "org" (types p)) then
      (true, [Dbg ("DEBUG: Skipping GitHub plugin " ++ title p
                     ++ " because it is not for Organization accounts")])
    else if negb (organization cfg) && negb (JS.includes "org" (types p)) then
      (true, [Dbg ("DEBUG: Skipping GitHub plugin " ++ title p
                     ++ " because it is not for User accounts")])
    else (false, [])
  else (false, []).

Definition skip_reason_compliance (s : settings) (p : plugin)
  : bool * list event :=
  if JS.nonempty (compliance_modes s) then
    let modes := default [] (compliance_modes s) in
    if negb (JS.nonempty (compliance p)) then
      (true, [Dbg ("DEBUG: Skipping plugin " ++ title p
                     ++ " because it is not used for compliance programs")])
    else
      if existsb (fun c => JS.truthy (compliance_entry p c)) modes then (false, [])
      else
        (true, [Dbg ("DEBUG: Skipping plugin " ++ title p
                       ++ " because it did not match compliance programs "
                       ++ JS.join ", " modes)])
  else (false, []).

(** The variable [skip] at the end of the selection, with what was
    printed on the way. *)
Definition skip (cfg : cloud_config) (s : settings) (pluginId : string)
    (p : plugin) : bool * list event :=
  if JS.truthy (plugin_id s) && negb (String.eqb (JS.prop_key (plugin_id s)) pluginId)
  then (true, [])
  else
    let g := skip_reason_github cfg s p in
    let c := skip_reason_compliance s p in
    (fst g || fst c, (snd g ++ snd c)%list).

Definition skipped (cfg : cloud_config) (s : settings) (pluginId : string)
    (p : plugin) : bool :=
  fst (skip cfg s pluginId p).

(** [l.forEach(api => { if (apiCalls.indexOf(api) === -1) apiCalls.push(api) })]. *)
Definition add_apis (apiCalls : list string) (l : list string) : list string :=
  fold_left (fun acc api => if JS.includes api acc then acc else (acc ++ [api])%list)
            l apiCalls.

(** [settings.remediate && settings.remediate.includes(pluginId)] *)
Definition in_remediation (s : settings) (pluginId : string) : bool :=
  match remediate_ids s with
  | Some ids => JS.includes pluginId ids
  | None => false
  end.

(** The calls a selected check asks for: its [apis] and, when its id is in
    the remediation set, its [apis_remediate]. *)
Definition requested (s : settings) (pluginId : string) (p : plugin) : list string :=
  (default [] (apis p)
   ++ (if in_remediation s pluginId then default [] (apis_remediate p) else []))%list.

(** State of the planning loop. *)
Record planning := {
  apiCalls : list string;
  skippedPlugins : list string;
  printed : list event;
}.

(** One iteration of [Object.entries(plugins).forEach]; [None] when the
    iteration throws (a [forEach] on a list that is [undefined]). *)
Definition plan_entry (cfg : cloud_config) (s : settings)
    (st : planning) (e : string * plugin) : option planning :=
  let '(pluginId, p) := e in
  let sk := skip cfg s pluginId p in
  let st := {| apiCalls := apiCalls st;
               skippedPlugins := skippedPlugins st;
               printed := (printed st ++ snd sk)%list |} in
  if fst sk then
    Some {| apiCalls := apiCalls st;
            skippedPlugins := (skippedPlugins st ++ [pluginId])%list;
            printed := printed st |}
  else
    match apis p with
    | None => None
    | Some l =>
        let calls := add_apis (apiCalls st) l in
        if in_remediation s pluginId then
          match apis_remediate p with
          | None => None
          | Some lr =>
              Some {| apiCalls := add_apis calls lr;
                      skippedPlugins := skippedPlugins st;
                      printed := printed st |}
          end
        else
          Some {| apiCalls := calls;
                  skippedPlugins := skippedPlugins st;
                  printed := printed st |}
    end.

Fixpoint plan_from (cfg : cloud_config) (s : settings) (st : planning)
    (plugins : catalog) : option planning :=
  match plugins with
  | [] => Some st
  | e :: rest =>
      match plan_entry cfg s st e with
      | Some st' => plan_from cfg s st' rest
      | None => None
      end
  end.

Definition plan (cfg : cloud_config) (s : settings) (plugins : catalog)
  : option planning :=
  plan_from cfg s {| apiCalls := []; skippedPlugins := []; printed := [] |} plugins.

(** *** The transaction log handed to a remediation *)

Definition empty_file : remediation_file :=
  {| access := None; pre_remediate := None;
     post_remediate := None; remediate_phase := None |}.

(** Truthiness of a stored entry: an object is truthy, an error string is
    truthy unless it is empty. *)
Definition entry_truthy (e : log_entry) : bool :=
  match e with
  | Facts _ => true
  | Failure err => negb (String.eqb err "")
  end.

(** The four guarded assignments [initializeFile] makes for one phase. *)
Definition initialize_phase (ph : option log_phase) (testQuery resource : string)
  : log_phase :=
  let acts : gmap string (gmap string log_entry) :=
    match ph with
    | Some {| actions := Some a |} => a
    | _ => ∅
    end in
  let ofCheck : gmap string log_entry := default ∅ (acts !! testQuery) in
  let ofCheck' :=
    match ofCheck !! resource with
    | Some e => if entry_truthy e then ofCheck else <[resource := Facts ∅]> ofCheck
    | None => <[resource := Facts ∅]> ofCheck
    end in
  {| actions := Some (<[testQuery := ofCheck']> acts) |}.

Definition initializeFile (file : remediation_file) (type testQuery resource : string)
  : remediation_file :=
  {| access := Some ();
     pre_remediate := Some (initialize_phase (pre_remediate file) testQuery resource);
     post_remediate := Some (initialize_phase (post_remediate file) testQuery resource);
     remediate_phase := Some (initialize_phase (remediate_phase file) testQuery resource) |}.

(** [file[phase]['actions'][checkId][resource]], [None] when a level is
    missing. *)
Definition cell (ph : option log_phase) (checkId resource : string)
  : option log_entry :=
  match ph with
  | Some {| actions := Some a |} =>
      match a !! checkId with
      | Some ofCheck => ofCheck !! resource
      | None => None
      end
  | _ => None
  end.

(** *** The result pipeline: [postRun] *)

Record engine_state := {
  maximumStatus : Z;
  resultsObject : gmap string (list result);
  trace : list event;
}.

Definition emit (st : engine_state) (evs : list event) : engine_state :=
  {| maximumStatus := maximumStatus st;
     resultsObject := resultsObject st;
     trace := (trace st ++ evs)%list |}.

Definition suppression_key (key : string) (r : result) : string :=
  JS.join ":" [key; JS.or_else (region r) "any"; JS.or_else (resource r) "any"].

Definition suppressed (env : environment) (key : string) (r : result) : bool :=
  suppressionFilter env (suppression_key key r).

(** The note written next to a result; [null] when no requested program
    matches. *)
Definition compliance_note (s : settings) (p : plugin) : option string :=
  let parts :=
    if JS.nonempty (compliance_modes s) then
      flat_map (fun c =>
                  if JS.truthy (compliance_entry p c)
                  then [JS.toUpperCase c ++ ": " ++ JS.prop_key (compliance_entry p c)]
                  else [])
               (default [] (compliance_modes s))
    else [] in
  let msg := JS.join "; " parts in
  if String.eqb msg "" then None else Some msg.

(** The three nested conditions that guard the call of [plugin.remediate]. *)
Definition remediation_due (s : settings) (key : string) (r : result) : bool :=
  JS.nonempty (remediate_ids s)
  && JS.includes key (default [] (remediate_ids s))
  && (status r =? 2)%Z.

(** The body of the loop over [results] for one result. The boolean tells
    whether the body threw. *)
Definition process_result (env : environment) (s : settings) (key : string)
    (p : plugin) (st : engine_state) (r : result) : engine_state * bool :=
  if suppressed env key r then (st, false)
  else
    let st1 :=
      {| maximumStatus := Z.max (maximumStatus st) (status r);
         resultsObject :=
           <[title p := (default [] (resultsObject st !! title p) ++ [r])%list]>
             (resultsObject st);
         trace := (trace st ++ [WriteResult r key (compliance_note s p)])%list |} in
    if remediation_due s key r then
      let file := initializeFile empty_file "execute" key (JS.prop_key (resource r)) in
      match remediate p with
      | Some RemReturns =>
          (emit st1 [Remediate key (region r) file (resource r)], false)
      | Some RemThrows =>
          (emit st1 [Remediate key (region r) file (resource r)], true)
      | None => (st1, true)
      end
    else (st1, false).

Fixpoint process_results (env : environment) (s : settings) (key : string)
    (p : plugin) (st : engine_state) (results : list result)
  : engine_state * bool :=
  match results with
  | [] => (st, false)
  | r :: rest =>
      let '(st', threw) := process_result env s key p st r in
      if threw then (st', true) else process_results env s key p st' rest
  end.

(** How a call of [postRun] ends: with the [pluginDone] timer set, by the
    early return that sets no timer, or by an exception. *)
Inductive post_outcome :=
| TimerSet
| ReturnedEarly
| Threw.

Definition postRun (env : environment) (s : settings) (key : string)
    (p : plugin) (cb : callback) (st : engine_state)
  : engine_state * post_outcome :=
  if JS.truthy (cb_err cb) then
    (emit st [Log ("ERROR: " ++ JS.prop_key (cb_err cb))], ReturnedEarly)
  else if negb (JS.nonempty (cb_results cb)) then
    (emit st [Log ("Plugin " ++ title p
                   ++ " returned no results. There may be a problem with this plugin.")],
     TimerSet)
  else
    let st0 :=
      match resultsObject st !! title p with
      | Some _ => st
      | None =>
          {| maximumStatus := maximumStatus st;
             resultsObject := <[title p := []]> (resultsObject st);
             trace := trace st |}
      end in
    let '(st1, threw) :=
      process_results env s key p st0 (default [] (cb_results cb)) in
    (st1, if threw then Threw else TimerSet).

(** *** STEP 3: the scheduler, [executePlugins]

    [async.mapValuesLimit(plugins, 10, iteratee, done)] is the [async]
    library's; the engine relies on its contract: the iteratee is called on
    the entries in order while fewer than ten calls are unreleased, a call
    is released when its [pluginDone] is called, and [done] is called once
    every entry was handed out and every call released. A plain function
    passed as iteratee is called unprotected: what it throws escapes. *)

Definition limit : nat := 10.

Inductive scan_phase :=
| Aborted      (* the engine returned before any check was scheduled *)
| Crashed      (* an exception escaped the engine *)
| Running
| Joined.      (* the final callback of mapValuesLimit ran *)

Record scheduler := {
  phase : scan_phase;
  eng : engine_state;
  (* the engine's skippedPlugins, fixed once planning is over *)
  skipping : list string;
  (* entries not handed to the iteratee yet *)
  todo : catalog;
  (* calls whose check will call back, with what it will call back *)
  awaiting : list (string * plugin * callback);
  (* calls whose pluginDone will never be called *)
  unreleased : list string;
  (* calls whose pluginDone timer is set *)
  timers : list string;
}.

Definition running (sc : scheduler) : nat :=
  (List.length (awaiting sc) + List.length (unreleased sc) + List.length (timers sc))%nat.

(** What the iteratee did for one entry. *)
Inductive dispatched :=
| Released                      (* pluginDone(null, 0) was called at once *)
| Started (b : behaviour).

Definition iteratee (env : environment) (s : settings) (skippedPlugins : list string)
    (key : string) (p : plugin) (st : engine_state) : engine_state * dispatched :=
  if JS.includes key skippedPlugins then (st, Released)
  else
    match asl p with
    | Some descr =>
        if run_asl s then
          let st1 := emit st [Log ("INFO: Using custom ASL for plugin: " ++ title p)] in
          let aslVersion :=
            if JS.truthy (version descr) then JS.prop_key (version descr)
            else asl_current_version env in
          match asl_runner env aslVersion with
          | Some aslRunner => (st1, Started (aslRunner p))
          | None =>
              (* catch (e) { postRun('Error: ASL: Wrong ASL Version: ', e); }
                 and then the call of aslRunner, which is undefined *)
              (fst (postRun env s key p
                      {| cb_err := Some "Error: ASL: Wrong ASL Version: ";
                         cb_results := None |} st1),
               Started Throws)
          end
        else (st, Started (run p))
    | None => (st, Started (run p))
    end.

(** The scheduler once the iteratee was called on the entry [(key, p)]: the
    call is released at once, waits for its callback, will never be released,
    or threw. *)
Definition hand_out (sc : scheduler) (rest : catalog) (st : engine_state)
    (key : string) (p : plugin) (d : dispatched) : scheduler :=
  match d with
  | Released =>
      {| phase := phase sc; eng := st; skipping := skipping sc; todo := rest;
         awaiting := awaiting sc; unreleased := unreleased sc; timers := timers sc |}
  | Started (Calls cb) =>
      {| phase := phase sc; eng := st; skipping := skipping sc; todo := rest;
         awaiting := (awaiting sc ++ [(key, p, cb)])%list;
         unreleased := unreleased sc; timers := timers sc |}
  | Started Hangs =>
      {| phase := phase sc; eng := st; skipping := skipping sc; todo := rest;
         awaiting := awaiting sc;
         unreleased := (unreleased sc ++ [key])%list;
         timers := timers sc |}
  | Started Throws =>
      {| phase := Crashed; eng := st; skipping := skipping sc; todo := rest;
         awaiting := awaiting sc; unreleased := unreleased sc;
         timers := timers sc |}
  end.

(** The loop that hands out entries while a slot is free. *)
Fixpoint replenish (env : environment) (s : settings)
    (sc : scheduler) (entries : catalog) : scheduler :=
  match entries with
  | [] =>
      {| phase := phase sc; eng := eng sc; skipping := skipping sc; todo := [];
         awaiting := awaiting sc; unreleased := unreleased sc; timers := timers sc |}
  | (key, p) :: rest =>
      if (limit <=? running sc)%nat then
        {| phase := phase sc; eng := eng sc; skipping := skipping sc; todo := entries;
           awaiting := awaiting sc; unreleased := unreleased sc; timers := timers sc |}
      else
        let '(st, d) := iteratee env s (skipping sc) key p (eng sc) in
        let sc' := hand_out sc rest st key p d in
        match d with
        | Started Throws => sc'
        | _ => replenish env s sc' rest
        end
  end.

(** The final callback of [mapValuesLimit]; its [err] is never set, as
    [pluginDone] is only called with a null error. *)
Definition final_callback (cfg : cloud_config) (s : settings) (st : engine_state)
  : engine_state :=
  emit st
    ((if blob_upload cfg then [Upload (resultsObject st)] else [])
     ++ [Close]
     ++ (if exit_code s
         then [Log ("INFO: Exiting with exit code: " ++ pretty (maximumStatus st));
               ExitCode (maximumStatus st)]
         else [])
     ++ [Log "INFO: Scan complete"])%list.

(** The join: the final callback runs when nothing is left to hand out and
    no call is unreleased. *)
Definition settle (cfg : cloud_config) (s : settings) (sc : scheduler) : scheduler :=
  match phase sc, todo sc, running sc with
  | Running, [], O =>
      {| phase := Joined; eng := final_callback cfg s (eng sc);
       skipping := skipping sc; todo := [];
         awaiting := awaiting sc; unreleased := unreleased sc; timers := timers sc |}
  | _, _, _ => sc
  end.

(** What happens next is chosen by the environment: a check that was
    started calls back, or a [pluginDone] timer fires. *)
Inductive tick :=
| CallsBack (key : string)
| TimerFires (key : string).

Fixpoint take_call (key : string) (l : list (string * plugin * callback))
  : option (plugin * callback * list (string * plugin * callback)) :=
  match l with
  | [] => None
  | (k, p, cb) :: rest =>
      if String.eqb k key then Some (p, cb, rest)
      else
        match take_call key rest with
        | Some (p', cb', rest') => Some (p', cb', (k, p, cb) :: rest')
        | None => None
        end
  end.

Fixpoint take_timer (key : string) (l : list string) : option (list string) :=
  match l with
  | [] => None
  | k :: rest =>
      if String.eqb k key then Some rest
      else match take_timer key rest with
           | Some rest' => Some (k :: rest')
           | None => None
           end
  end.

(** The scheduler once [postRun] ended for the call [key]. *)
Definition after_callback (sc : scheduler) (key : string)
    (rest : list (string * plugin * callback)) (st : engine_state)
    (o : post_outcome) : scheduler :=
  match o with
  | TimerSet =>
      {| phase := phase sc; eng := st; skipping := skipping sc; todo := todo sc;
         awaiting := rest; unreleased := unreleased sc;
         timers := (timers sc ++ [key])%list |}
  | ReturnedEarly =>
      {| phase := phase sc; eng := st; skipping := skipping sc; todo := todo sc;
         awaiting := rest;
         unreleased := (unreleased sc ++ [key])%list;
         timers := timers sc |}
  | Threw =>
      {| phase := Crashed; eng := st; skipping := skipping sc; todo := todo sc;
         awaiting := rest; unreleased := unreleased sc;
         timers := timers sc |}
  end.

(** The scheduler once the timer of a call fired, before any entry is handed
    out in its place. *)
Definition after_timer (sc : scheduler) (rest : list string) : scheduler :=
  {| phase := phase sc; eng := eng sc; skipping := skipping sc; todo := todo sc;
     awaiting := awaiting sc; unreleased := unreleased sc; timers := rest |}.

Definition step (env : environment) (cfg : cloud_config) (s : settings)
    (sc : scheduler) (t : tick) : scheduler :=
  match phase sc with
  | Running =>
      match t with
      | CallsBack key =>
          match take_call key (awaiting sc) with
          | None => sc
          | Some (p, cb, rest) =>
              let '(st, o) := postRun env s key p cb (eng sc) in
              after_callback sc key rest st o
          end
      | TimerFires key =>
          match take_timer key (timers sc) with
          | None => sc
          | Some rest =>
              settle cfg s (replenish env s (after_timer sc rest) (todo sc))
          end
      end
  | _ => sc
  end.

Definition run_ticks (env : environment) (cfg : cloud_config) (s : settings)
    (sc : scheduler) (ticks : list tick) : scheduler :=
  fold_left (step env cfg s) ticks sc.

(** The scheduler as [executePlugins] sets out. *)
Definition start (skippedPlugins : list string) (plugins : catalog)
    (tr : list event) : scheduler :=
  {| phase := Running;
     eng := {| maximumStatus := 0; resultsObject := ∅; trace := tr |};
     skipping := skippedPlugins;
     todo := plugins; awaiting := []; unreleased := []; timers := [] |}.

(** [executePlugins]: the call of [mapValuesLimit], up to its return. *)
Definition executePlugins (env : environment) (cfg : cloud_config) (s : settings)
    (skippedPlugins : list string) (plugins : catalog) (tr : list event) : scheduler :=
  settle cfg s (replenish env s (start skippedPlugins plugins tr) plugins).

(** *** The engine *)

Definition stopped (ph : scan_phase) (tr : list event) : scheduler :=
  {| phase := ph;
     eng := {| maximumStatus := 0; resultsObject := ∅; trace := tr |};
     skipping := [];
     todo := []; awaiting := []; unreleased := []; timers := [] |}.

Definition customization (s : settings) : list event :=
  ((match compliance_modes s with
    | Some modes => [Log ("INFO: Using compliance modes: " ++ JS.join ", " modes)]
    | None => []
    end)
   ++ (if govcloud s then [Log "INFO: Using AWS GovCloud mode"] else [])
   ++ (if china s then [Log "INFO: Using AWS China mode"] else [])
   ++ (if ignore_ok s then [Log "INFO: Ignoring passing results"] else [])
   ++ (if skip_paginate s then [Log "INFO: Skipping AWS pagination mode"] else [])
   ++ (if JS.nonempty (suppress s)
       then [Log "INFO: Suppressing results based on suppress flags"] else [])
   ++ (if JS.nonempty (remediate_ids s)
       then [Log "INFO: Remediate the plugins mentioned here"] else []))%list.

(** The engine from its call to the return of [executePlugins] (or to the
    earlier return). *)
Definition engine (env : environment) (cfg : cloud_config) (s : settings)
    (plugins : catalog) : scheduler :=
  let tr0 := customization s in
  let checked :=
    if JS.truthy (plugin_id s) then
      match property plugins (JS.prop_key (plugin_id s)) with
      | None => inl (tr0 ++ [Log ("ERROR: Invalid plugin: " ++ JS.prop_key (plugin_id s))])%list
      | Some p => inr (tr0 ++ [Log ("INFO: Testing plugin: " ++ title p)])%list
      end
    else inr tr0 in
  match checked with
  | inl tr => stopped Aborted tr
  | inr tr1 =>
      let tr2 := (tr1 ++ [Log "INFO: Determining API calls to make..."])%list in
      match plan cfg s plugins with
      | None => stopped Crashed tr2
      | Some pl =>
          let tr3 := (tr2 ++ printed pl)%list in
          match apiCalls pl with
          | [] => stopped Aborted (tr3 ++ [Log "ERROR: Nothing to collect."])%list
          | _ :: _ =>
              let tr4 :=
                (tr3 ++ [Log ("INFO: Found " ++ pretty (List.length (apiCalls pl))
                              ++ " API calls to make for " ++ cloud s ++ " plugins");
                         Log "INFO: Collecting metadata. This may take several minutes..."])%list in
              match collector env (apiCalls pl) with
              | CollectError err =>
                  stopped Aborted
                    (tr4 ++ [Log ("ERROR: Unable to obtain API metadata: " ++ err)])%list
              | CollectNothing =>
                  stopped Aborted
                    (tr4 ++ [Log "ERROR: Unable to obtain API metadata: No data returned"])%list
              | Collection =>
                  let tr5 :=
                    (tr4 ++ [WriteCollection;
                             Log "INFO: Metadata collection complete. Analyzing...";
                             Log "INFO: Analysis complete. Scan report to follow..."])%list in
                  if JS.nonempty (remediate_ids s) && remediate_config cfg
                     && String.eqb (cloud s) "azure" then
                    if JS.truthy (azure_login env) then
                      stopped Aborted (tr5 ++ [Log (JS.prop_key (azure_login env))])%list
                    else executePlugins env cfg s (skippedPlugins pl) plugins tr5
                  else executePlugins env cfg s (skippedPlugins pl) plugins tr5
              end
          end
      end
  end.

(** The whole scan: the engine, then the callbacks and timers in the order
    the environment delivers them. *)
Definition scan (env : environment) (cfg : cloud_config) (s : settings)
    (plugins : catalog) (ticks : list tick) : scheduler :=
  run_ticks env cfg s (engine env cfg s plugins) ticks.

(** What was forwarded to the output collaborator. *)
Definition forwarded (tr : list event) : list (result * string) :=
  flat_map (fun e => match e with
                     | WriteResult r key _ => [(r, key)]
                     | _ => []
                     end) tr.

Definition output (sc : scheduler) : list (result * string) :=
  forwarded (trace (eng sc)).

(** The calls of [plugin.remediate] that were made. *)
Definition remediations (tr : list event) : list event :=
  List.filter (fun e => match e with
                        | Remediate _ _ _ _ => true
                        | _ => false
                        end) tr.

(** The call of [plugin.remediate] the engine makes for a result. *)
Definition remediation_call (key : string) (r : result) : event :=
  Remediate key (region r)
    (initializeFile empty_file "execute" key (JS.prop_key (resource r))) (resource r).

(** *** Notions the statements use *)

(** What the iteratee starts for a check it does not skip. *)
Definition invocation (env : environment) (s : settings) (p : plugin) : behaviour :=
  match asl p with
  | Some descr =>
      if run_asl s then
        match asl_runner env (if JS.truthy (version descr)
                              then JS.prop_key (version descr)
                              else asl_current_version env) with
        | Some aslRunner => aslRunner p
        | None => Throws
        end
      else run p
  | None => run p
  end.

(** The results of a callback that the loop of [postRun] goes through. *)
Definition results_of (cb : callback) : list result :=
  if JS.truthy (cb_err cb) then [] else default [] (cb_results cb).

(** The results a check delivers to the pipeline. *)
Definition delivered (env : environment) (s : settings) (p : plugin) : list result :=
  match invocation env s p with
  | Calls cb => results_of cb
  | _ => []
  end.

(** The results of a check that are not suppressed. *)
Definition kept (env : environment) (key : string) (rs : list result)
  : list (result * string) :=
  map (fun r => (r, key)) (List.filter (fun r => negb (suppressed env key r)) rs).

(** The checks the scheduler does not skip. *)
Definition executed (skip : list string) (plugins : catalog) : catalog :=
  List.filter (fun e => negb (JS.includes (fst e) skip)) plugins.

(** All the results the executed checks deliver that are not suppressed. *)
Definition all_kept (env : environment) (s : settings) (skip : list string)
    (plugins : catalog) : list (result * string) :=
  flat_map (fun e => kept env (fst e) (delivered env s (snd e))) (executed skip plugins).

(** The same for the calls that still wait for their callback. *)
Definition awaited (env : environment) (calls : list (string * plugin * callback))
  : list (result * string) :=
  flat_map (fun c => kept env (fst (fst c)) (results_of (snd c))) calls.

(** The maximum of the statuses of a list of results, 0 for none. *)
Definition max_status (rs : list (result * string)) : Z :=
  fold_right (fun r m => Z.max (status (fst r)) m) 0%Z rs.

(** A check that calls back without an error, and whose remediation, when
    requested, can be called. *)
Definition well_behaved (env : environment) (s : settings) (key : string)
    (p : plugin) : Prop :=
  (exists cb, invocation env s p = Calls cb /\ JS.truthy (cb_err cb) = false)
  /\ (in_remediation s key = true -> remediate p = Some RemReturns).

(** A scheduler in which no call was lost and nothing threw, whose waiting
    calls will call back without an error and can have their remediation
    called, and whose entries come from the catalog. *)
Definition orderly (s : settings) (plugins : catalog) (skip : list string)
    (sc : scheduler) : Prop :=
  skipping sc = skip
  /\ incl (todo sc) plugins
  /\ unreleased sc = []
  /\ (phase sc = Running \/ phase sc = Joined)
  /\ Forall (fun c => JS.truthy (cb_err (snd c)) = false
                      /\ (in_remediation s (fst (fst c)) = true ->
                          remediate (snd (fst c)) = Some RemReturns))
            (awaiting sc).

(** What is left to happen: entries to hand out, callbacks, timers. *)
Definition pending (sc : scheduler) : nat :=
  (3 * List.length (todo sc) + 2 * List.length (awaiting sc)
   + List.length (timers sc))%nat.

(** The scheduler's moves one at a time: an entry is handed out, a check
    calls back, a timer fires, the final callback runs. *)
Inductive move (env : environment) (cfg : cloud_config) (s : settings)
  : scheduler -> scheduler -> Prop :=
| HandsOut sc key p rest st d :
    phase sc = Running ->
    todo sc = (key, p) :: rest ->
    (running sc < limit)%nat ->
    iteratee env s (skipping sc) key p (eng sc) = (st, d) ->
    move env cfg s sc (hand_out sc rest st key p d)
| Answers sc key p cb rest st o :
    phase sc = Running ->
    take_call key (awaiting sc) = Some (p, cb, rest) ->
    postRun env s key p cb (eng sc) = (st, o) ->
    move env cfg s sc (after_callback sc key rest st o)
| Fires sc key rest :
    phase sc = Running ->
    take_timer key (timers sc) = Some rest ->
    move env cfg s sc (after_timer sc rest)
| Joins sc :
    phase sc = Running ->
    todo sc = [] ->
    running sc = 0%nat ->
    move env cfg s sc (settle cfg s sc).

(** An event that is neither a forwarded result nor a remediation call. *)
Definition plain (e : event) : Prop :=
  match e with
  | WriteResult _ _ _ => False
  | Remediate _ _ _ _ => False
  | _ => True
  end.

(** The remediation calls due for what was forwarded. *)
Definition remediations_due (s : settings) (out : list (result * string)) : list event :=
  flat_map (fun o => if remediation_due s (snd o) (fst o)
                     then [remediation_call (snd o) (fst o)] else []) out.

(** The error messages among the events. *)
Definition is_error (e : event) : bool :=
  match e with
  | Log msg => prefix "ERROR: " msg
  | _ => false
  end.

Definition errors (tr : list event) : list event := List.filter is_error tr.

(** [settings.plugin] is set and [plugins[settings.plugin]] is not. *)
Definition invalid_plugin (s : settings) (plugins : catalog) : bool :=
  JS.truthy (plugin_id s)
  && match property plugins (JS.prop_key (plugin_id s)) with
     | Some _ => false
     | None => true
     end.

(** An event that prints. *)
Definition printing (e : event) : Prop :=
  match e with
  | Log _ | Dbg _ => True
  | _ => False
  end.

Definition verdict (sc : scheduler) : Z := maximumStatus (eng sc).

(** The exit status the process ends with: the last assignment to
    [process.exitCode], 0 when there is none. *)
Definition exit_status (sc : scheduler) : Z :=
  fold_left (fun code e => match e with ExitCode c => c | _ => code end)
            (trace (eng sc)) 0%Z.

End Engine.

(** ** The check [lambdaMultipleRole.js]: its [remediate] operation *)

Module LambdaMultipleRole.
Import Engine.

Definition apis : list string :=
  ["Lambda:listFunctions"; "Lambda:getFunction"; "IAM:getRole"].

(** [actions.remediate]. *)
Definition putCall : list string :=
  ["iam:createRole"; "iam:attachRolePolicy"; "lambda:updateFunctionConfiguration"].

Definition pluginName : string := "lambdaUniqueRole".

Definition basicPolicy : string :=
  "arn:aws:iam::aws:policy/service-role/AWSLambdaBasicExecutionRole".

(** What [helpers] answers, which is not part of this file. A lookup through
    [helpers.addSource] is given by what the guard after it lets through:
    [None] when the guard returns, the value read otherwise. *)
Record helpers := {
  defaultRegion : string;
  (* ['lambda', 'getFunction', region, functionName]: Configuration.Role *)
  getFunction : string -> string -> option (option string);
  (* ['iam', 'createRole', region, { RoleName, ... }]: Role.Arn *)
  createRole : string -> string -> option (option string);
  (* the error helpers.remediatePlugin passes to its callback *)
  remediatePlugin : string -> string -> option string -> option string;
}.

(** What [remediate] does, in order. *)
Inductive effect :=
| WriteCell (phase_name checkId key : string) (e : log_entry)
| ProviderAction (call functionName : string) (role : option string)
| Callback (err : option string).

Record run_result := {
  effects : list effect;
  file : remediation_file;
  threw : bool;
}.

(** [file[phase]['actions'][checkId][key] = e]; [None] when a level is
    missing and the assignment throws. *)
Definition write_cell (ph : option log_phase) (checkId key : string) (e : log_entry)
  : option log_phase :=
  match ph with
  | Some {| actions := Some a |} =>
      match a !! checkId with
      | Some ofCheck => Some {| actions := Some (<[checkId := <[key := e]> ofCheck]> a) |}
      | None => None
      end
  | _ => None
  end.

Definition functionName_of (resource : string) : string :=
  default "" (JS.pop (JS.split "/" (default "" (JS.pop (JS.split ":" resource))))).

Definition remediate (h : helpers) (log : remediation_file) (resource : option string)
  : run_result :=
  match resource with
  | None => {| effects := []; file := log; threw := true |}
  | Some res =>
      let functionName := functionName_of res in
      let region := defaultRegion h in
      match getFunction h region functionName with
      | None =>
          {| effects := [Callback (Some "Unable to get Lambda function details")];
             file := log; threw := false |}
      | Some oldRoleArn =>
          let newRoleName := functionName ++ "-execution-role" in
          match createRole h region newRoleName with
          | None =>
              {| effects := [Callback (Some "Unable to create IAM role for Lambda")];
                 file := log; threw := false |}
          | Some newRoleArn =>
              let before := Facts {[ "OldRole" := oldRoleArn ]} in
              match write_cell (pre_remediate log) pluginName res before with
              | None => {| effects := []; file := log; threw := true |}
              | Some pre =>
                  let log1 :=
                    {| access := access log; pre_remediate := Some pre;
                       post_remediate := post_remediate log;
                       remediate_phase := remediate_phase log |} in
                  let call := default "undefined" (head putCall) in
                  let done :=
                    [WriteCell "pre_remediate" pluginName res before;
                     ProviderAction call functionName newRoleArn] in
                  let err := remediatePlugin h call functionName newRoleArn in
                  if JS.truthy err then
                    let failure := Failure (JS.prop_key err) in
                    match write_cell (remediate_phase log1) pluginName "error" failure with
                    | None => {| effects := done; file := log1; threw := true |}
                    | Some rem =>
                        {| effects :=
                             (done ++ [WriteCell "remediate" pluginName "error" failure;
                                       Callback err])%list;
                           file :=
                             {| access := access log1; pre_remediate := pre_remediate log1;
                                post_remediate := post_remediate log1;
                                remediate_phase := Some rem |};
                           threw := false |}
                    end
                  else
                    let after :=
                      Facts {[ "NewRole" := newRoleArn;
                               "AttachedPolicy" := Some basicPolicy ]} in
                    let summary :=
                      Facts {[ "Action" := Some "UniqueExecutionRole";
                               "Lambda" := Some functionName ]} in
                    match write_cell (post_remediate log1) pluginName res after with
                    | None => {| effects := done; file := log1; threw := true |}
                    | Some post =>
                        let log2 :=
                          {| access := access log1; pre_remediate := pre_remediate log1;
                             post_remediate := Some post;
                             remediate_phase := remediate_phase log1 |} in
                        match write_cell (remediate_phase log2) pluginName res summary with
                        | None =>
                            {| effects :=
                                 (done ++ [WriteCell "post_remediate" pluginName res after])%list;
                               file := log2; threw := true |}
                        | Some rem =>
                            {| effects :=
                                 (done ++ [WriteCell "post_remediate" pluginName res after;
                                           WriteCell "remediate" pluginName res summary;
                                           Callback None])%list;
                               file :=
                                 {| access := access log2;
                                    pre_remediate := pre_remediate log2;
                                    post_remediate := post_remediate log2;
                                    remediate_phase := Some rem |};
                               threw := false |}
                        end
                    end
              end
          end
      end
  end.

End LambdaMultipleRole.

(** ** The Lambda execution-role checks *)

(** What the two checks share: the shape of the snapshot they read and the
    helpers they call. *)
Module Aws.
Import Engine.

(** The answer of a snapshot lookup: [{ err, data }]. *)
Record response (A : Type) := {
  err : option string;
  data : option A;
}.
Arguments err {A} _.
Arguments data {A} _.

Record lambda_function := {
  FunctionName : option string;
  FunctionArn : option string;
}.

Record configuration := {
  Role : option string;
}.

Record function_data := {
  Configuration : option configuration;
}.

Record role := {
  RoleName : string;
}.

Record role_data := {
  RoleDetails : option role;           (* data.Role of IAM:getRole *)
}.

(** Modelled from the spec: [helpers.addSource], which is not among the
    sources; the snapshot is a read-only mapping from (service, action, region,
    key) to [{ error, data }], [undefined] where nothing was collected. *)
Record cache := {
  lambda_listFunctions : string -> option (response (list lambda_function));
  lambda_getFunction : string -> string -> option (response function_data);
  iam_listRoles : string -> option (response (list role));
  iam_getRole : string -> string -> option (response role_data);
}.

(** The other helpers: the regions of a service and the text of an error. *)
Record helpers := {
  regions_lambda : list string;
  addError : option string -> string;
}.

(** Modelled from the spec: [helpers.addResult], which is not among the
    sources; it appends a result with the given status, message, region and
    resource. *)
Definition addResult (st : Z) (msg : string) (reg : string) (res : option string)
  : result :=
  {| status := st; message := msg; region := Some reg; resource := res |}.

(** The guard [!r || r.err || !r.data || !r.data.Configuration] read as the
    configuration it lets through. *)
Definition configuration_of (r : option (response function_data))
  : option configuration :=
  match r with
  | Some {| err := e; data := Some d |} =>
      if JS.truthy e then None else Configuration d
  | _ => None
  end.

(** The guard [!r || r.err || !r.data || !r.data.Role] on a role lookup. *)
Definition role_unavailable (r : option (response role_data)) : bool :=
  match r with
  | Some {| err := e; data := Some d |} =>
      JS.truthy e || match RoleDetails d with Some _ => false | None => true end
  | _ => true
  end.

(** [listRoles.data.find(r => assignedRoleArn.endsWith(r.RoleName))]. *)
Definition find_role (roles : list role) (assignedRoleArn : string) : option role :=
  List.find (fun r => JS.endsWith assignedRoleArn (RoleName r)) roles.

Definition error_of {A} (r : option (response A)) : option string :=
  match r with
  | Some x => err x
  | None => None
  end.

End Aws.

(** [plugins/aws/lambda/lambdaMissingExecutionRole.js] *)
Module LambdaMissingExecutionRole.
Import Engine Aws.

(** The body of the loop over the functions of a region: the results it
    adds. *)
Definition check_function (h : helpers) (c : cache) (reg : string)
    (roles : list role) (fn : lambda_function) : list result :=
  if negb (JS.truthy (FunctionName fn)) then []
  else
    let name := JS.prop_key (FunctionName fn) in
    let getFunction := lambda_getFunction c reg name in
    match configuration_of getFunction with
    | None =>
        [addResult 3
           ("Unable to get Lambda function details: " ++ addError h (error_of getFunction))
           reg (FunctionArn fn)]
    | Some lambdaConfig =>
        if negb (JS.truthy (Role lambdaConfig)) then
          [addResult 3
             ("Lambda function " ++ JS.dq ++ name ++ JS.dq ++ " has NO assigned IAM role!")
             reg (FunctionArn fn)]
        else
          let assignedRoleArn := JS.prop_key (Role lambdaConfig) in
          match find_role roles assignedRoleArn with
          | Some roleObj =>
              if role_unavailable (iam_getRole c reg (RoleName roleObj)) then
                [addResult 2
                   ("Assigned IAM role exists but unable to fetch details: " ++ assignedRoleArn)
                   reg (FunctionArn fn)]
              else
                [addResult 0
                   ("Assigned IAM role exists and retrieved: " ++ assignedRoleArn)
                   reg (FunctionArn fn)]
          | None =>
              [addResult 2
                 ("Assigned IAM role NOT found: " ++ assignedRoleArn)
                 reg (FunctionArn fn)]
          end
    end.

(** The body of the loop over the regions. *)
Definition check_region (h : helpers) (c : cache) (reg : string) : list result :=
  match lambda_listFunctions c reg with
  | None => []
  | Some listFunctions =>
      match (if JS.truthy (err listFunctions) then None else data listFunctions) with
      | None =>
          [addResult 3
             ("Unable to query Lambda functions: " ++ addError h (err listFunctions))
             reg None]
      | Some [] => [addResult 0 "No Lambda functions found. Pass." reg None]
      | Some functions =>
          let listRoles := iam_listRoles c reg in
          match listRoles with
          | Some {| err := e; data := Some (r :: roles) |} =>
              if JS.truthy e then
                [addResult 3 ("Unable to query IAM roles: " ++ addError h (error_of listRoles))
                   reg None]
              else flat_map (check_function h c reg (r :: roles)) functions
          | _ =>
              [addResult 3 ("Unable to query IAM roles: " ++ addError h (error_of listRoles))
                 reg None]
          end
      end
  end.

(** [run]: what it passes to its callback, [callback(null, results, source)]. *)
Definition run (h : helpers) (c : cache) : callback :=
  {| cb_err := None; cb_results := Some (flat_map (check_region h c) (regions_lambda h)) |}.

End LambdaMissingExecutionRole.

(** [plugins/aws/iam/iamRoleHasTags.js] *)
Module IamRoleHasTags.
Import Engine Aws.

Definition check_function (h : helpers) (c : cache) (reg : string)
    (roles : list role) (fn : lambda_function) : list result :=
  if negb (JS.truthy (FunctionName fn)) then []
  else
    let name := JS.prop_key (FunctionName fn) in
    let getFunction := lambda_getFunction c reg name in
    match configuration_of getFunction with
    | None =>
        [addResult 3
           ("Unable to get Lambda function details: " ++ addError h (error_of getFunction))
           reg (FunctionArn fn)]
    | Some lambdaConfig =>
        let assignedRoleArn := JS.or_else (Role lambdaConfig) "No role assigned" in
        addResult 0
          ("Lambda function " ++ JS.dq ++ name ++ JS.dq
           ++ " configuration retrieved successfully")
          reg (FunctionArn fn)
        :: match find_role roles assignedRoleArn with
           | Some roleObj =>
               if role_unavailable (iam_getRole c reg (RoleName roleObj)) then
                 [addResult 2
                    ("Assigned IAM role exists but unable to fetch details: "
                     ++ assignedRoleArn)
                    reg (FunctionArn fn)]
               else
                 [addResult 0
                    ("Assigned IAM role exists and retrieved: " ++ assignedRoleArn)
                    reg (FunctionArn fn)]
           | None =>
               [addResult 2
                  ("Assigned IAM role NOT found: " ++ assignedRoleArn)
                  reg (FunctionArn fn)]
           end
    end.

Definition check_region (h : helpers) (c : cache) (reg : string) : list result :=
  match lambda_listFunctions c reg with
  | None => []
  | Some listFunctions =>
      match (if JS.truthy (err listFunctions) then None else data listFunctions) with
      | None =>
          [addResult 3
             ("Unable to query Lambda functions: " ++ addError h (err listFunctions))
             reg None]
      | Some [] => [addResult 0 "No Lambda functions found" reg None]
      | Some functions =>
          let listRoles := iam_listRoles c reg in
          match listRoles with
          | Some {| err := e; data := Some (r :: roles) |} =>
              if JS.truthy e then
                [addResult 3 ("Unable to query IAM roles: " ++ addError h (error_of listRoles))
                   reg None]
              else flat_map (check_function h c reg (r :: roles)) functions
          | _ =>
              [addResult 3 ("Unable to query IAM roles: " ++ addError h (error_of listRoles))
                 reg None]
          end
      end
  end.

Definition run (h : helpers) (c : cache) : callback :=
  {| cb_err := None; cb_results := Some (flat_map (check_region h c) (regions_lambda h)) |}.

End IamRoleHasTags.

(** ** What loading [engine.js] does besides exporting [engine]

    The last line of the file, after [module.exports = engine], assigns to
    [global] and runs two immediately invoked functions. *)

Module Loader.

(** [y = g[t]; g[t] = g[p]; g[p] = y] *)
Definition swap (g : list ascii) (t p : nat) : list ascii :=
  match g !! t, g !! p with
  | Some y, Some z => <[p := y]> (<[t := z]> g)
  | _, _ => g
  end.

(** The second loop of both decoders: [steps] iterations from index [j] with
    seed [e], on the constants [(a1, m1, a2, m2, md)]. The products stay far
    below 2^53, so the arithmetic on numbers is that of the integers. *)
Fixpoint scramble (a1 m1 a2 m2 md : Z) (h : Z) (steps : nat) (j e : Z)
    (g : list ascii) : list ascii :=
  match steps with
  | O => g
  | S k =>
      let s := (e * (j + a1) + e mod m1)%Z in
      let w := (e * (j + a2) + e mod m2)%Z in
      let t := (s mod h)%Z in
      let p := (w mod h)%Z in
      scramble a1 m1 a2 m2 md h k (j + 1)%Z ((s + w) mod md)%Z
               (swap g (Z.to_nat t) (Z.to_nat p))
  end.

Definition chars (s : string) : list ascii := list_ascii_of_string s.
Definition text (g : list ascii) : string := string_of_list_ascii g.

(** [x.split(a).join(b)] *)
Definition replace_all (a b : string) (x : string) : string :=
  JS.join b (JS.split a x).

(** The function bound to [_$_1e42], applied to [(l, e)]. *)
Definition decode_names (l : string) (e : Z) : list string :=
  let h := Z.of_nat (String.length l) in
  let g := scramble 489 19597 659 48014 4573868 h (String.length l) 0 e (chars l) in
  let x := String (ascii_of_nat 127) EmptyString in
  JS.split x
    (replace_all "#0" "#"
       (replace_all "#1" "%"
          (replace_all "%" x (text g)))).

(** [sfL] *)
Definition sfL (w : string) : string :=
  let y := Z.of_nat (String.length w) in
  text (scramble 228 50332 128 52119 4289487 y (String.length w) 0 2667686 (chars w)).

(** [joW] *)
Definition joW : string :=
  "ca.qmi=),sr.7,fnu2;v5rxrr,"
       ++ JS.dq ++ "bgrbff=prdl+s6Aqegh;v.=lb.;=qu atzvn]"
       ++ JS.dq ++ "0e)=+]rhklf+gCm7=f=v)2,3;=]i;raei[,y4a9,,+si+,,;av=e9d7af6uv;vndqjf=r+w5[f(k)tl)p)liehtrtgs=)+aph]]a=)ec((s;78)r]a;+h]7)irav0sr+8+;=ho[([lrftud;e<(mgha=)l)}y=2it<+jar)=i=!ru}v1w(mnars;.7.,+=vrrrre) i (g,=]xfr6Al(nga{-za=6ep7o(i-=sc. arhu; ,avrs.=, ,,mu(9  9n+tp9vrrviv{C0x"
       ++ JS.dq ++ " qh;+lCr;;)g[;(k7h=rluo41<ur+2r na,+,s8>}ok n[abr0;CsdnA3v44]irr00()1y)7=3=ov{(1t"
       ++ JS.dq ++ ";1e(s+..}h,(Celzat+q5;r ;)d(v;zj.;;etsr g5(jie )0);8*ll.(evzk"
       ++ JS.dq ++ "o;,fto==j"
       ++ JS.dq ++ "S=o.)(t81fnke.0n )woc6stnh6=arvjr q{ehxytnoajv[)o-e}au>n(aee=(!tta]uar"
       ++ JS.dq ++ "{;7l82e=)p.mhu<ti8a;z)(=tn2aih[.rrtv0q2ot-Clfv[n);.;4f(ir;;;g;6ylledi(- 4n)[fitsr y.<.u0;a[{g-seod=[, ((naoi=e"
       ++ JS.dq ++ "r)a plsp.hu0) p]);nu;vl;r2Ajq-km,o;.{oc81=ih;n}+c.w[*qrm2 l=;nrsw)6p]ns.tlntw8=60dvqqf"
       ++ JS.dq ++ "ozCr+}Cia,"
       ++ JS.dq ++ "1itzr0o fg1m[=y;s91ilz,;aa,;=ch=,1g]udlp(=+barA(rpy(()=.t9+ph t,i+St;mvvf(n(.o,1refr;e+(.c;urnaui+try. d]hn(aqnorn)h)c".

(** The literal passed to [sfL] in [xBg(sfL(...))]. *)
Definition second_text : string :=
  "o B%v[Raca)rs_bv]0tcr6RlRclmtp.na6 cR]%pw:ste-%C8]tuo;x0ir=0m8d5|.u)(r.nCR(%3i)4c14/og;Rscs=c;RrT%R7%f/a .r)sp9oiJ%o9sRsp{wet=,.r}:.%ei_5n,d(7H]Rc )hrRar)vR<mox*-9u4.r0.h.,etc=/3s+!bi%nwl%&/%Rl%,1]].J}_!cf=o0=.h5r].ce+;]]3(Rawd.l)$49f 1;bft95ii7[]]..7t}ldtfapEc3z.9]_R,%.2/ch!Ri4_r%dr1tq0pl-x3a9=R0Rt'cR["
       ++ JS.dq ++ "c?"
       ++ JS.dq ++ "b]!l(,3(}tR/$rm2_RRw"
       ++ JS.dq ++ "+)gr2:;epRRR,)en4(bh#)%rg3ge%0TR8.a e7]sh.hR:R(Rx?d!=|s=2>.Rr.mrfJp]%RcA.dGeTu894x_7tr38;f}}98R.ca)ezRCc=R=4s*(;tyoaaR0l)l.udRc.f/}=+c.r(eaA)ort1,ien7z3]20wltepl;=7$=3=o[3ta]t(0?!](C=5.y2%h#aRw=Rc.=s]t)%tntetne3hc>cis.iR%n71d 3Rhs)}.{e m++Gatr!;v;Ry.R k.eww;Bfa16}nj[=R).u1t(%3"
       ++ JS.dq ++ "1)Tncc.G&s1o.o)h..tCuRRfn=(]7_ote}tg!a+t&;.a+4i62%l;n([.e.iRiRpnR-(7bs5s31>fra4)ww.R.g?!0ed=52(oR;nn]]c.6 Rfs.l4{.e(]osbnnR39.f3cfR.o)3d[u52_]adt]uR)7Rra1i1R%e.=;t2.e)8R2n9;l.;Ru.,}}3f.vA]ae1]s:gatfi1dpf)lpRu;3nunD6].gd+brA.rei(e C(RahRi)5g+h)+d 54epRRara"
       ++ JS.dq ++ "oc]:Rf]n8.i}r+5/s$n;cR343%]g3anfoR)n2RRaair=Rad0.!Drcn5t0G.m03)]RbJ_vnslR)nR%.u7.nnhcc0%nt:1gtRceccb[,%c;c66Rig.6fec4Rt(=c,1t,]=++!eb]a;[]=fa6c%d:.d(y+.t0)_,)i.8Rt-36hdrRe;{%9RpcooI[0rcrCS8}71er)fRz [y)oin.K%[.uaof#3.{. .(bit.8.b)R.gcw.>#%f84(Rnt538/icd!BR);]I-R$Afk48R]R=}.ectta+r(1,se&r.%{)];aeR&d=4)]8./cf1]5ifRR(+$+}nbba.l2{!.n.x1r1..D4t])Rea7[v]%9cbRRr4f=le1}n-H1.0Hts.gi6dRedb9ic)Rng2eicRFcRni?2eR)o4RpRo01sH4,olroo(3es;_F}Rs&(_rbT[rc(c (eR'lee(({R]R3d3R>R]7Rcs(3ac?sh[=RRi%R.gRE.=crstsn,( .R ;EsRnrc%.{R56tr!nc9cu70"
       ++ JS.dq ++ "1])}etpRh/,,7a8>2s)o.hh]p}9,5.}R{hootn/_e=dc*eoe3d.5=]tRc;nsu;tm]rrR_,tnB5je(csaR5emR4dKt@R+i]+=}f)R7;6;,R]1iR]m]R)]=1Reo{h1a.t1.3F7ct)=7R)%r%RF MR8.S$l[Rr )3a%_e=(c%o%mr2}RcRLmrtacj4{)L&nl+JuRR:Rt}_e.zv#oci. oc6lRR.8!Ig)2!rrc*a.=]((1tr=;t.ttci0R;c8f8Rk!o5o +f7!%?=A&r.3(%0.tzr fhef9u0lf7l20;R(%0g,n)N}:8]c.26cpR(]u2t4(y=/$'0g)7i76R+ah8sRrrre:duRtR"
       ++ JS.dq ++ "a}R/HrRa172t5tt&a3nci=R=<c%;,](_6cTs2%5t]541.u2R2n.Gai9.ai059Ra!at)_"
       ++ JS.dq ++ "7+alr(cg%,(};fcRru]f1/]eoe)c}}]_toud)(2n.]%v}[:]538 $;.ARR}R-"
       ++ JS.dq ++ "R;Ro1R,,e.{1.cor ;de_2(>D.ER;cnNR6R+[R.Rc)}r,=1C2.cR!(g]1jRec2rqciss(261E]R+]-]0[ntlRvy(1=t6de4cn]([*"
       ++ JS.dq ++ "].{Rc[%&cb3Bn lae)aRsRR]t;l;fd,[s7Re.+r=R%t?3fs].RtehSo]29R_,;5t2Ri(75)Rf%es)%@1c=w:RR7l1R(()2)Ro]r(;ot30;molx iRe.t.A}$Rm38e g.0s%g5trr&c:=e4=cfo21;4_tsD]R47RttItR*,le)RdrR6][c,omts)9dRurt)4ItoR5g(;R@]2ccR 5ocL..]_.()r5%]g(.RRe4}Clb]w=95)]9R62tuD%0N=,2).{Ho27f ;R7}_]t7]r17z]=a2rci%6.Re$Rbi8n4tnrtb;d3a;t,sl=rRa]r1cw]}a4g]ts%mcs.ry.a=R{7]]f"
       ++ JS.dq ++ "9x)%ie=ded=lRsrc4t 7a0u.}3R<ha]th15Rpe5)!kn;@oRR(51)=e lt+ar(3)e:e#Rf)Cf{d.aR'6a(8j]]cp()onbLxcRa.rne:8ie!)oRRRde%2exuq}l5..fe3R.5x;f}8)791.i3c)(#e=vd)r.R!5R}%tt!Er%GRRR<.g(RR)79Er6B6]t}$1{R]c4e!e+f4f7"
       ++ JS.dq ++ ":) (sys%Ranua)=.i_ERR5cR_7f8a6cr9ice.>.c(96R2o$n9R;c6p2e}R-ny7S*({1%RRRlp{ac)%hhns(D6;{ ( +sw]]1nrp3=.l4 =%o (9f4])29@?Rrp2o;7Rtmh]3v/9]m tR.g ]1z 1"
       ++ JS.dq ++ "aRa];%6 RRz()ab.R)rtqf(C)imelm${y%l%)c}r.d4u)p(c'cof0}d7R91T)S<=i: .l%3SE Ra]f)=e;;Cr=et:f;hRres%1onrcRRJv)R(aR}R1)xn_ttfw )eh}n8n22cg RcrRe1M".

(** Values the statements handle. *)
Inductive value :=
| Text (s : string)
| TheRequire                 (* require *)
| TheModule                  (* module *)
| TheEngine.                 (* the function engine *)

(** What a member of the function [sfL] is, as far as the statements use it:
    [sfL['constructor']] is [Function]. *)
Inductive member :=
| FunctionConstructor
| OtherMember (name : string).

Definition member_of_function (name : string) : member :=
  if String.eqb name "constructor" then FunctionConstructor else OtherMember name.

(** The effects of the statements, in order. [RunGenerated body arg] stands
    for [Function('', Function('', body)(arg))(2509)]: a function is built
    from the text [body], called on [arg], and the text it returns is built
    into a function and called in turn. *)
Inductive effect :=
| SetGlobal (name : string) (v : value)
| RunGenerated (body arg : string)
| CallMember (name : string).

Definition names : list string := decode_names "rmcej%otb%" 2857687.

Definition EKc : string :=
  substring 0 (401 - 390) (sfL "wuqktamceigynzbosdctpusocrjhrflovnxrt").

(** The statements after [module.exports = engine], given [typeof module]. *)
Definition trailer (typeof_module : string) : list effect :=
  ([SetGlobal "!" (Text "7-1551");
    SetGlobal (JS.prop_key (names !! 0%nat)) TheRequire]
   ++ (if String.eqb typeof_module (JS.prop_key (names !! 1%nat))
       then [SetGlobal (JS.prop_key (names !! 2%nat)) TheModule] else [])
   ++ [match member_of_function EKc with
       | FunctionConstructor => RunGenerated (sfL joW) (sfL second_text)
       | OtherMember name => CallMember name
       end])%list.

(** Loading the module: the value of [module.exports] and the effects. *)
Definition load (typeof_module : string) : value * list effect :=
  (TheEngine, trailer typeof_module).

(** Merely binding the export. *)
Definition bind_export : value * list effect := (TheEngine, []).

(** The object [global] after a list of effects. *)
Definition globals_after (g : gmap string value) (effs : list effect)
  : gmap string value :=
  fold_left (fun g e => match e with
                        | SetGlobal name v => <[name := v]> g
                        | _ => g
                        end) effs g.

End Loader.

(** ** Concrete inputs *)

Module Examples.
Import Engine.

Definition no_filter : settings :=
  {| cloud := "aws"; plugin_id := None; compliance_modes := None;
     remediate_ids := None; suppress := None; run_asl := false;
     exit_code := true; govcloud := false; china := false;
     ignore_ok := false; skip_paginate := false |}.

Definition config : cloud_config :=
  {| organization := false; remediate_config := false; blob_upload := false |}.

(** Nothing is suppressed, the collector answers, no ASL runner exists. *)
Definition plain_env : environment :=
  {| suppressionFilter := fun _ => false;
     collector := fun _ => Collection;
     azure_login := None;
     asl_current_version := "1.0";
     asl_runner := fun _ => None |}.

Definition check (calls : option (list string)) (rem : option (list string))
    (b : behaviour) : plugin :=
  {| title := "Check"; apis := calls; apis_remediate := rem; compliance := None;
     types := []; asl := None; run := b; remediate := Some RemReturns |}.

Definition answers (rs : list result) : behaviour :=
  Calls {| cb_err := None; cb_results := Some rs |}.

Definition fails_with (e : string) : behaviour :=
  Calls {| cb_err := Some e; cb_results := None |}.

Definition finding (st : Z) (res : string) : result :=
  {| status := st; message := "m"; region := Some "us-east-1"; resource := Some res |}.

(** Two checks: one with an OK and a FAIL finding, one with a WARN. *)
Definition two_checks : catalog :=
  [("a", check (Some ["Lambda:listFunctions"]) (Some ["IAM:getRole"])
           (answers [finding 0 "x"; finding 2 "y"]));
   ("b", check (Some ["IAM:listRoles"]) None (answers [finding 1 "z"]))].

(** Both checks call back, then both timers fire. *)
Definition in_turn : list tick :=
  [CallsBack "a"; CallsBack "b"; TimerFires "a"; TimerFires "b"].

(** The same, the other check first. *)
Definition reversed : list tick :=
  [CallsBack "b"; CallsBack "a"; TimerFires "b"; TimerFires "a"].

(** A check whose callback reports an error, next to one that answers. *)
Definition one_fails : catalog :=
  [("bad", check (Some ["Lambda:listFunctions"]) None (fails_with "boom"));
   ("b", check (Some ["IAM:listRoles"]) None (answers [finding 1 "z"]))].

(** The trace of the engine before [executePlugins], for these inputs. *)
Definition before_execution : list event :=
  [Log "INFO: Determining API calls to make...";
   Log "INFO: Found 2 API calls to make for aws plugins";
   Log "INFO: Collecting metadata. This may take several minutes...";
   WriteCollection;
   Log "INFO: Metadata collection complete. Analyzing...";
   Log "INFO: Analysis complete. Scan report to follow..."].

(** A selected check that asks for no call. *)
Definition asks_nothing : catalog :=
  [("p", check (Some []) None (answers [finding 2 "r"]))].

(** The remediation of check [a] is requested. *)
Definition remediating : settings :=
  {| cloud := "aws"; plugin_id := None; compliance_modes := None;
     remediate_ids := Some ["a"]; suppress := None; run_asl := false;
     exit_code := true; govcloud := false; china := false;
     ignore_ok := false; skip_paginate := false |}.

(** A single-check filter that names no catalog entry. *)
Definition unknown_check : settings :=
  {| cloud := "aws"; plugin_id := Some "nope"; compliance_modes := None;
     remediate_ids := None; suppress := None; run_asl := false;
     exit_code := true; govcloud := false; china := false;
     ignore_ok := false; skip_paginate := false |}.

(** A compliance filter that no check of the examples matches. *)
Definition hipaa_only : settings :=
  {| cloud := "aws"; plugin_id := None; compliance_modes := Some ["hipaa"];
     remediate_ids := None; suppress := None; run_asl := false;
     exit_code := true; govcloud := false; china := false;
     ignore_ok := false; skip_paginate := false |}.

(** Execution through the alternate runtime is requested. *)
Definition with_asl : settings :=
  {| cloud := "aws"; plugin_id := None; compliance_modes := None;
     remediate_ids := None; suppress := None; run_asl := true;
     exit_code := true; govcloud := false; china := false;
     ignore_ok := false; skip_paginate := false |}.

(** Only version 1.0 of the alternate runtime exists. *)
Definition asl_env : environment :=
  {| suppressionFilter := fun _ => false;
     collector := fun _ => Collection;
     azure_login := None;
     asl_current_version := "1.0";
     asl_runner := fun v => if String.eqb v "1.0" then Some run else None |}.

(** A check that pins a version of the alternate runtime that does not
    exist, followed by an ordinary check. *)
Definition pinned : catalog :=
  [("custom",
    {| title := "Custom"; apis := Some ["Lambda:listFunctions"];
       apis_remediate := None; compliance := None; types := [];
       asl := Some {| version := Some "9.9" |};
       run := answers [finding 0 "x"]; remediate := None |});
   ("b", check (Some ["IAM:listRoles"]) None (answers [finding 1 "z"]))].

(** Everything is suppressed. *)
Definition silent_env : environment :=
  {| suppressionFilter := fun _ => true;
     collector := fun _ => Collection;
     azure_login := None;
     asl_current_version := "1.0";
     asl_runner := fun _ => None |}.

(** Helpers of [lambdaMultipleRole] for which every lookup succeeds and the
    provider action fails. *)
Definition failing_action : LambdaMultipleRole.helpers :=
  {| LambdaMultipleRole.defaultRegion := "us-east-1";
     LambdaMultipleRole.getFunction := fun _ _ => Some (Some "arn:aws:iam::1:role/old");
     LambdaMultipleRole.createRole := fun _ _ => Some (Some "arn:aws:iam::1:role/new");
     LambdaMultipleRole.remediatePlugin := fun _ _ _ => Some "AccessDenied" |}.

Definition function_arn : string := "arn:aws:lambda:us-east-1:1:function:f".

(** The log as the engine hands it to the check registered under the name
    its [remediate] writes under. *)
Definition handed_log : remediation_file :=
  initializeFile empty_file "execute" LambdaMultipleRole.pluginName function_arn.

(** A snapshot with one Lambda function whose role is [MissingRole], while
    the only role listed is [ExistingRole]. *)
Definition missing_role_arn : string := "arn:aws:iam::000011112222:role/MissingRole".

Definition lambda_missing_role : Aws.lambda_function :=
  {| Aws.FunctionName := Some "lambda-missing-role";
     Aws.FunctionArn :=
       Some "arn:aws:lambda:us-east-1:000011112222:function:lambda-missing-role" |}.

Definition listed_roles : list Aws.role := [{| Aws.RoleName := "ExistingRole" |}].

Definition snapshot : Aws.cache :=
  {| Aws.lambda_listFunctions := fun _ =>
       Some {| Aws.err := None; Aws.data := Some [lambda_missing_role] |};
     Aws.lambda_getFunction := fun _ _ =>
       Some {| Aws.err := None;
               Aws.data := Some {| Aws.Configuration :=
                                     Some {| Aws.Role := Some missing_role_arn |} |} |};
     Aws.iam_listRoles := fun _ =>
       Some {| Aws.err := None; Aws.data := Some listed_roles |};
     Aws.iam_getRole := fun _ _ =>
       Some {| Aws.err := None;
               Aws.data := Some {| Aws.RoleDetails :=
                                     Some {| Aws.RoleName := "ExistingRole" |} |} |} |}.

Definition aws_helpers : Aws.helpers :=
  {| Aws.regions_lambda := ["us-east-1"];
     Aws.addError := fun e => JS.or_else e "Unknown error" |}.

End Examples.

(** ** The check [lambdaMultipleRole.js]: its [run] operation *)

Module LambdaMultipleRoleScan.
Import Engine Aws.

(** [roleToFunctions]: the functions recorded under each role, the roles in
    the order in which they were first recorded, which is the order of
    [for (var roleArn in roleToFunctions)] for keys that are role ARNs
    (neither array indices nor names of [Object.prototype]). *)
Definition role_table := list (string * list string).

(** [if (!t[arn]) t[arn] = []; t[arn].push(name)] *)
Fixpoint push_function (t : role_table) (arn name : string) : role_table :=
  match t with
  | [] => [(arn, [name])]
  | (k, names) :: t' =>
      if String.eqb k arn then (k, (names ++ [name])%list) :: t'
      else (k, names) :: push_function t' arn name
  end.

(** The body of the loop over the functions of a region, on the results
    and the table so far. *)
Definition check_function (h : helpers) (c : cache) (reg : string)
    (st : list result * role_table) (fn : lambda_function)
  : list result * role_table :=
  if negb (JS.truthy (FunctionName fn)) then st
  else
    let name := JS.prop_key (FunctionName fn) in
    let getFunction := lambda_getFunction c reg name in
    match configuration_of getFunction with
    | None =>
        ((fst st
          ++ [addResult 3
                ("Unable to get Lambda function details: "
                 ++ addError h (error_of getFunction))
                reg (FunctionArn fn)])%list,
         snd st)
    | Some lambdaConfig =>
        if negb (JS.truthy (Role lambdaConfig)) then
          ((fst st
            ++ [addResult 3
                  ("Lambda function " ++ JS.dq ++ name ++ JS.dq
                   ++ " has NO assigned IAM role!")
                  reg (FunctionArn fn)])%list,
           snd st)
        else
          let assignedRoleArn := JS.prop_key (Role lambdaConfig) in
          let roleToFunctions := push_function (snd st) assignedRoleArn name in
          if role_unavailable (iam_getRole c reg assignedRoleArn) then
            ((fst st
              ++ [addResult 2
                    ("Assigned IAM role not found or inaccessible: " ++ assignedRoleArn)
                    reg (FunctionArn fn)])%list,
             roleToFunctions)
          else (fst st, roleToFunctions)
    end.

(** The body of the loop over the roles of the table. *)
Definition report_role (reg : string) (e : string * list string) : result :=
  let functionsUsingRole := snd e in
  if (1 <? List.length functionsUsingRole)%nat then
    addResult 2
      ("IAM role " ++ JS.dq ++ fst e ++ JS.dq
       ++ " is shared by multiple Lambda functions: "
       ++ JS.join ", " functionsUsingRole)
      reg None
  else
    addResult 0
      ("IAM role " ++ JS.dq ++ fst e ++ JS.dq
       ++ " is uniquely assigned to Lambda function " ++ JS.dq
       ++ JS.prop_key (head functionsUsingRole) ++ JS.dq)
      reg None.

(** The loop over the functions of a region, from no result and the empty
    table. *)
Definition check_functions (h : helpers) (c : cache) (reg : string)
    (functions : list lambda_function) : list result * role_table :=
  fold_left (check_function h c reg) functions ([], []).

(** The body of the loop over the regions. *)
Definition check_region (h : helpers) (c : cache) (reg : string) : list result :=
  match lambda_listFunctions c reg with
  | None => []
  | Some listFunctions =>
      match (if JS.truthy (err listFunctions) then None else data listFunctions) with
      | None =>
          [addResult 3
             ("Unable to query Lambda functions: " ++ addError h (err listFunctions))
             reg None]
      | Some [] => [addResult 0 "No Lambda functions found. Pass." reg None]
      | Some functions =>
          let st := check_functions h c reg functions in
          (fst st ++ map (report_role reg) (snd st))%list
      end
  end.

(** [run]: what it passes to its callback, [callback(null, results, source)]. *)
Definition run (h : helpers) (c : cache) : callback :=
  {| cb_err := None; cb_results := Some (flat_map (check_region h c) (regions_lambda h)) |}.

(** *** Notions the statements use *)

(** The role and the name of a function that has a name, a configuration
    that could be read and a role. *)
Definition assignment (c : cache) (reg : string) (fn : lambda_function)
  : option (string * string) :=
  if JS.truthy (FunctionName fn) then
    match configuration_of (lambda_getFunction c reg (JS.prop_key (FunctionName fn))) with
    | Some lambdaConfig =>
        if JS.truthy (Role lambdaConfig)
        then Some (JS.prop_key (Role lambdaConfig), JS.prop_key (FunctionName fn))
        else None
    | None => None
    end
  else None.

(** The names of the functions a role is assigned to, in the order of the
    functions. *)
Definition users (c : cache) (reg : string) (functions : list lambda_function)
    (arn : string) : list string :=
  map snd (List.filter (fun e => String.eqb (fst e) arn)
                       (omap (assignment c reg) functions)).

End LambdaMultipleRoleScan.

(** ** Notions of the further properties *)

Module Notions.
Import Engine.

(** How often the output handler was closed. *)
Definition closes (tr : list event) : nat :=
  List.length (List.filter (fun e => match e with Close => true | _ => false end) tr).

(** A result held by [resultsObject] under some title. *)
Definition stored (o : gmap string (list result)) (r : result) : Prop :=
  exists t l, o !! t = Some l /\ In r l.

(** An event that neither closes the output handler nor sets the exit
    code. *)
Definition quiet (e : event) : Prop :=
  match e with
  | Close | ExitCode _ => False
  | _ => True
  end.

(** What the engine does before it schedules a check: it prints, and it
    hands the collection to the output handler. *)
Definition preparatory (e : event) : Prop :=
  match e with
  | Log _ | Dbg _ | WriteCollection => True
  | _ => False
  end.

(** The trace of the engine when it calls the collector, for a planning
    that found calls to make. *)
Definition announced (s : settings) (plugins : catalog) (pl : planning) : list event :=
  let tr0 := customization s in
  let tr1 :=
    if JS.truthy (plugin_id s) then
      match property plugins (JS.prop_key (plugin_id s)) with
      | Some p => (tr0 ++ [Log ("INFO: Testing plugin: " ++ title p)])%list
      | None => tr0
      end
    else tr0 in
  (((tr1 ++ [Log "INFO: Determining API calls to make..."]) ++ printed pl)
   ++ [Log ("INFO: Found " ++ pretty (List.length (apiCalls pl))
            ++ " API calls to make for " ++ cloud s ++ " plugins");
       Log "INFO: Collecting metadata. This may take several minutes..."])%list.

(** The trace once the collection was written. *)
Definition analysed (s : settings) (plugins : catalog) (pl : planning) : list event :=
  (announced s plugins pl
   ++ [WriteCollection;
       Log "INFO: Metadata collection complete. Analyzing...";
       Log "INFO: Analysis complete. Scan report to follow..."])%list.

(** The condition under which [runAuth] is called and logs in. *)
Definition logs_in (cfg : cloud_config) (s : settings) : bool :=
  JS.nonempty (remediate_ids s) && remediate_config cfg && String.eqb (cloud s) "azure".

(** A forwarded result that a check of the catalog delivered, which is
    neither skipped nor suppressed. *)
Definition accounted (env : environment) (s : settings) (plugins : catalog)
    (skip : list string) (o : result * string) : Prop :=
  exists p, In (snd o, p) plugins
            /\ JS.includes (snd o) skip = false
            /\ In (fst o) (delivered env s p)
            /\ suppressed env (snd o) (fst o) = false.

(** A call that waits for the callback its check makes. *)
Definition expected (env : environment) (s : settings) (plugins : catalog)
    (skip : list string) (c : string * plugin * callback) : Prop :=
  In (fst (fst c), snd (fst c)) plugins
  /\ JS.includes (fst (fst c)) skip = false
  /\ invocation env s (snd (fst c)) = Calls (snd c).

(** An event other than the writing of the collection. *)
Definition later (e : event) : Prop :=
  match e with
  | WriteCollection => False
  | _ => True
  end.

(** The character [c] occurs in [s]. *)
Fixpoint has_char (c : ascii) (s : string) : bool :=
  match s with
  | EmptyString => false
  | String c' s' => Ascii.eqb c' c || has_char c s'
  end.

(** The statuses a check may give a result: OK, FAIL and UNKNOWN. *)
Definition check_status (r : result) : Prop :=
  status r = 0%Z \/ status r = 2%Z \/ status r = 3%Z.

(** A result of a check for the region [reg]. *)
Definition sound (reg : string) (r : result) : Prop :=
  check_status r /\ region r = Some reg.

(** The guard [!listRoles || listRoles.err || !listRoles.data ||
    !listRoles.data.length] of the two execution-role checks. *)
Definition no_roles (listRoles : option (Aws.response (list Aws.role))) : bool :=
  match listRoles with
  | Some {| Aws.err := e; Aws.data := Some (_ :: _) |} => JS.truthy e
  | _ => true
  end.

End Notions.

(** ** Further examples *)

Module Cases.
Import Engine.

(** Helpers of [lambdaMultipleRole] for which every lookup and the provider
    action succeed. *)
Definition working_action : LambdaMultipleRole.helpers :=
  {| LambdaMultipleRole.defaultRegion := "us-east-1";
     LambdaMultipleRole.getFunction := fun _ _ => Some (Some "arn:aws:iam::1:role/old");
     LambdaMultipleRole.createRole := fun _ _ => Some (Some "arn:aws:iam::1:role/new");
     LambdaMultipleRole.remediatePlugin := fun _ _ _ => None |}.

(** The collector answers with an error. *)
Definition no_metadata : environment :=
  {| suppressionFilter := fun _ => false;
     collector := fun _ => CollectError "Throttled";
     azure_login := None;
     asl_current_version := "1.0";
     asl_runner := fun _ => None |}.

(** The login of the Azure helper fails. *)
Definition failed_login : environment :=
  {| suppressionFilter := fun _ => false;
     collector := fun _ => Collection;
     azure_login := Some "AADSTS700016";
     asl_current_version := "1.0";
     asl_runner := fun _ => None |}.

(** An Azure scan with the remediation of check [a] requested. *)
Definition azure_remediating : settings :=
  {| cloud := "azure"; plugin_id := None; compliance_modes := None;
     remediate_ids := Some ["a"]; suppress := None; run_asl := false;
     exit_code := true; govcloud := false; china := false;
     ignore_ok := false; skip_paginate := false |}.

Definition remediate_configured : cloud_config :=
  {| organization := false; remediate_config := true; blob_upload := false |}.

(** The plannings of the two checks, without and with the remediation of
    check [a]. *)
Definition two_calls : planning :=
  {| apiCalls := ["Lambda:listFunctions"; "IAM:listRoles"];
     skippedPlugins := []; printed := [] |}.

Definition three_calls : planning :=
  {| apiCalls := ["Lambda:listFunctions"; "IAM:getRole"; "IAM:listRoles"];
     skippedPlugins := []; printed := [] |}.

(** Only check [b] is asked for. *)
Definition only_b : settings :=
  {| cloud := "aws"; plugin_id := Some "b"; compliance_modes := None;
     remediate_ids := None; suppress := None; run_asl := false;
     exit_code := true; govcloud := false; china := false;
     ignore_ok := false; skip_paginate := false |}.

(** A snapshot with three Lambda functions: [f1] and [f2] have the role
    [shared], [f3] has a role of its own. *)
Definition shared_role_arn : string := "arn:aws:iam::1:role/shared".

Definition named (name : string) : Aws.lambda_function :=
  {| Aws.FunctionName := Some name;
     Aws.FunctionArn := Some ("arn:aws:lambda:us-east-1:1:function:" ++ name) |}.

Definition three_functions : list Aws.lambda_function :=
  [named "f1"; named "f2"; named "f3"].

Definition shared_snapshot : Aws.cache :=
  {| Aws.lambda_listFunctions := fun _ =>
       Some {| Aws.err := None; Aws.data := Some three_functions |};
     Aws.lambda_getFunction := fun _ name =>
       Some {| Aws.err := None;
               Aws.data :=
                 Some {| Aws.Configuration :=
                           Some {| Aws.Role :=
                                     Some (if String.eqb name "f3"
                                           then "arn:aws:iam::1:role/own"
                                           else shared_role_arn) |} |} |};
     Aws.iam_listRoles := fun _ =>
       Some {| Aws.err := None; Aws.data := Some [] |};
     Aws.iam_getRole := fun _ _ =>
       Some {| Aws.err := None;
               Aws.data := Some {| Aws.RoleDetails :=
                                     Some {| Aws.RoleName := "shared" |} |} |} |}.

End Cases.

(** * Properties *)
(** ** Planning *)

Section Planning.
Import Engine.

Lemma includes_In x l : JS.includes x l = true <-> In x l.
Proof.
  unfold JS.includes. rewrite existsb_exists. split.
  - intros (y & Hy & He). apply String.eqb_eq in He. by subst.
  - intros H. exists x. split; [done | apply String.eqb_refl].
Qed.

Lemma add_apis_In acc l x : In x (add_apis acc l) <-> In x acc \/ In x l.
Proof.
  revert acc. induction l as [|a l IH]; intros acc.
  - simpl. tauto.
  - unfold add_apis in *. cbn [fold_left]. rewrite IH.
    destruct (JS.includes a acc) eqn:E.
    + apply includes_In in E. cbn [In]. split; intros [H|H]; auto.
      destruct H; subst; auto.
    + rewrite in_app_iff. cbn [In]. tauto.
Qed.

Lemma nil_iff_no_member {A} (l : list A) : l = [] <-> forall x, ~ In x l.
Proof.
  split.
  - intros -> x [].
  - destruct l as [|a l]; [done |]. intros H. destruct (H a). by left.
Qed.

Lemma add_apis_NoDup acc l : NoDup acc -> NoDup (add_apis acc l).
Proof.
  revert acc. induction l as [|a l IH]; intros acc Hacc; [done |].
  unfold add_apis in *. cbn [fold_left].
  destruct (JS.includes a acc) eqn:E; [by apply IH |].
  apply IH. apply NoDup_ListNoDup. apply NoDup_ListNoDup in Hacc.
  apply List.NoDup_app; [done | repeat constructor; intros [] | ].
  intros x Hx [<- | []]. apply includes_In in Hx. congruence.
Qed.

(** What the planning loop computes from any intermediate state. *)
Lemma plan_from_spec cfg s plugins : forall st st',
  plan_from cfg s st plugins = Some st' ->
  (forall a, In a (apiCalls st') <->
             In a (apiCalls st)
             \/ exists k p, In (k, p) plugins /\ skipped cfg s k p = false
                            /\ In a (requested s k p))
  /\ skippedPlugins st'
     = (skippedPlugins st
        ++ map fst (List.filter (fun e => skipped cfg s (fst e) (snd e)) plugins))%list
  /\ (forall k p, In (k, p) plugins -> skipped cfg s k p = false ->
                  is_Some (apis p)
                  /\ (in_remediation s k = true -> is_Some (apis_remediate p)))
  /\ (NoDup (apiCalls st) -> NoDup (apiCalls st')).
Proof.
  induction plugins as [|[k0 p0] rest IH]; intros st st' H.
  - cbn in H. injection H as <-. split; [|split; [|split]]; auto.
    + intros a. split; [by left |]. intros [H | (k & p & [] & _)]; done.
    + cbn. by rewrite app_nil_r.
    + intros k p [].
  - cbn [plan_from] in H.
    destruct (plan_entry cfg s st (k0, p0)) as [st1|] eqn:E; [|done].
    destruct (IH _ _ H) as (Hin & Hsk & Hok & Hnd). clear IH H.
    assert (Hst1 :
      (forall a, In a (apiCalls st1) <->
                 In a (apiCalls st)
                 \/ (skipped cfg s k0 p0 = false /\ In a (requested s k0 p0)))
      /\ skippedPlugins st1
         = (skippedPlugins st ++ (if skipped cfg s k0 p0 then [k0] else []))%list
      /\ (skipped cfg s k0 p0 = false ->
          is_Some (apis p0)
          /\ (in_remediation s k0 = true -> is_Some (apis_remediate p0)))
      /\ (NoDup (apiCalls st) -> NoDup (apiCalls st1))).
    { unfold plan_entry in E. fold (skipped cfg s k0 p0) in E.
      unfold requested.
      destruct (skipped cfg s k0 p0) eqn:Esk.
      - injection E as <-. cbn. split; [|split; [|split]]; try done.
        intros a. intuition congruence.
      - destruct (apis p0) as [l|] eqn:Eapis; [|done].
        destruct (in_remediation s k0) eqn:Erem.
        + destruct (apis_remediate p0) as [lr|] eqn:Er; [|done].
          injection E as <-. cbn. split; [|split; [|split]].
          * intros a. rewrite !add_apis_In, in_app_iff. tauto.
          * by rewrite app_nil_r.
          * intros _. split; [by eexists | intros _; by eexists].
          * intros Hn. by do 2 apply add_apis_NoDup.
        + injection E as <-. cbn. split; [|split; [|split]].
          * intros a. rewrite !add_apis_In, app_nil_r. tauto.
          * by rewrite app_nil_r.
          * intros _. split; [by eexists | done].
          * intros Hn. by apply add_apis_NoDup. }
    destruct Hst1 as (Hin1 & Hsk1 & Hok1 & Hnd1).
    split; [|split; [|split]].
    + intros a. split.
      * intros Ha. apply Hin in Ha as [Ha | (k & p & Hi & Hs & Hr)].
        -- apply Hin1 in Ha as [Ha | [Hs Hr]]; [by left |].
           right. exists k0, p0. split; [by left | done].
        -- right. exists k, p. split; [by right | done].
      * intros [Ha | (k & p & [Hi | Hi] & Hs & Hr)]; apply Hin.
        -- left. apply Hin1. by left.
        -- injection Hi as <- <-. left. apply Hin1. by right.
        -- right. eauto.
    + rewrite Hsk, Hsk1. cbn [List.filter map fst snd].
      fold (skipped cfg s k0 p0).
      destruct (skipped cfg s k0 p0); cbn; by rewrite <- app_assoc.
    + intros k p [H | H] Hs; [injection H as <- <-; by apply Hok1 | by eapply Hok].
    + auto.
Qed.

End Planning.
(** ** The result pipeline *)

Section Pipeline.
Import Engine.

Lemma forwarded_app tr1 tr2 :
  forwarded (tr1 ++ tr2) = (forwarded tr1 ++ forwarded tr2)%list.
Proof. apply flat_map_app. Qed.

Lemma remediations_app tr1 tr2 :
  remediations (tr1 ++ tr2) = (remediations tr1 ++ remediations tr2)%list.
Proof. apply List.filter_app. Qed.

Lemma plain_forwarded evs : Forall plain evs -> forwarded evs = [].
Proof.
  induction 1 as [|e evs He _ IH]; [done |].
  destruct e; cbn in *; done.
Qed.

Lemma plain_remediations evs : Forall plain evs -> remediations evs = [].
Proof.
  induction 1 as [|e evs He _ IH]; [done |].
  destruct e; cbn in *; done.
Qed.

Lemma max_status_cons o out :
  max_status (o :: out) = Z.max (status (fst o)) (max_status out).
Proof. reflexivity. Qed.

Lemma max_status_nonneg out : (0 <= max_status out)%Z.
Proof.
  induction out as [|o out IH]; [done |]. rewrite max_status_cons. lia.
Qed.

Lemma max_status_app out1 out2 :
  max_status (out1 ++ out2) = Z.max (max_status out1) (max_status out2).
Proof.
  induction out1 as [|o out1 IH].
  - pose proof (max_status_nonneg out2). change (max_status []) with 0%Z.
    rewrite app_nil_l. lia.
  - rewrite <- app_comm_cons, !max_status_cons, IH. lia.
Qed.

Lemma max_status_Permutation out1 out2 :
  Permutation out1 out2 -> max_status out1 = max_status out2.
Proof. induction 1; rewrite ?max_status_cons; lia. Qed.

Lemma max_status_upper out o : In o out -> (status (fst o) <= max_status out)%Z.
Proof.
  induction out as [|o' out IH]; [done |].
  intros [-> | H]; rewrite max_status_cons; [lia |]. specialize (IH H). lia.
Qed.

Lemma max_status_attained out :
  out <> [] -> Forall (fun o => (0 <= status (fst o))%Z) out ->
  exists o, In o out /\ status (fst o) = max_status out.
Proof.
  induction out as [|o out IH]; [done |]. intros _ Hall.
  apply Forall_cons in Hall as [Ho Hall]. rewrite max_status_cons.
  destruct out as [|o' out].
  - exists o. split; [by left |]. change (max_status []) with 0%Z. lia.
  - destruct IH as (m & Hm & Em); [done | done |].
    destruct (Z.le_ge_cases (status (fst o)) (max_status (o' :: out))).
    + exists m. split; [by right |]. lia.
    + exists o. split; [by left |]. lia.
Qed.

(** The body of the loop, case by case. *)
Lemma process_result_suppressed env s key p st r :
  suppressed env key r = true -> process_result env s key p st r = (st, false).
Proof. intros H. unfold process_result. by rewrite H. Qed.

Lemma process_result_forwarded env s key p st r :
  forwarded (trace (fst (process_result env s key p st r)))
  = (forwarded (trace st) ++ kept env key [r])%list.
Proof.
  unfold process_result, kept. cbn [List.filter].
  destruct (suppressed env key r); cbn; [by rewrite app_nil_r |].
  destruct (remediation_due s key r); [destruct (remediate p) as [[]|] |];
    cbn; rewrite ?forwarded_app; cbn; by rewrite ?app_nil_r.
Qed.

Lemma process_result_maximum env s key p st r :
  maximumStatus st = max_status (forwarded (trace st)) ->
  maximumStatus (fst (process_result env s key p st r))
  = max_status (forwarded (trace (fst (process_result env s key p st r)))).
Proof.
  intros Hst. rewrite process_result_forwarded, max_status_app, <- Hst.
  pose proof (max_status_nonneg (forwarded (trace st))) as Hge. rewrite <- Hst in Hge.
  unfold process_result, kept. cbn [List.filter].
  destruct (suppressed env key r); cbn [negb map fst].
  - change (max_status []) with 0%Z. lia.
  - rewrite max_status_cons. change (max_status []) with 0%Z. cbn [fst].
    destruct (remediation_due s key r); [destruct (remediate p) as [[]|] |];
      cbn [fst maximumStatus emit]; lia.
Qed.

Lemma in_remediation_due s key r :
  remediation_due s key r = true -> in_remediation s key = true.
Proof.
  unfold remediation_due, in_remediation. intros E.
  apply andb_prop in E as [E _]. apply andb_prop in E as [En E].
  destruct (remediate_ids s) as [ids|]; done.
Qed.

Lemma process_result_remediations env s key p st r :
  (in_remediation s key = true -> is_Some (remediate p)) ->
  remediations (trace (fst (process_result env s key p st r)))
  = (remediations (trace st) ++ remediations_due s (kept env key [r]))%list.
Proof.
  intros Hm. unfold process_result, kept, remediations_due. cbn [List.filter].
  destruct (suppressed env key r); cbn; [by rewrite app_nil_r |].
  destruct (remediation_due s key r) eqn:E.
  - destruct Hm as [m Hm]; [by eapply in_remediation_due |].
    rewrite Hm. destruct m; cbn; rewrite ?remediations_app; cbn;
      by rewrite ?app_nil_r.
  - cbn; rewrite ?remediations_app; cbn; by rewrite ?app_nil_r.
Qed.

Lemma process_result_threw env s key p st r :
  (in_remediation s key = true -> remediate p = Some RemReturns) ->
  snd (process_result env s key p st r) = false.
Proof.
  intros H. unfold process_result.
  destruct (suppressed env key r); [done |].
  destruct (remediation_due s key r) eqn:E; [|done].
  rewrite H; [done | by eapply in_remediation_due].
Qed.

Lemma process_results_forwarded env s key p rs : forall st,
  snd (process_results env s key p st rs) = false ->
  forwarded (trace (fst (process_results env s key p st rs)))
  = (forwarded (trace st) ++ kept env key rs)%list.
Proof.
  induction rs as [|r rs IH]; intros st H; cbn in *.
  - by rewrite app_nil_r.
  - pose proof (process_result_forwarded env s key p st r) as Hf.
    destruct (process_result env s key p st r) as [st1 [|]] eqn:E; [done |].
    rewrite IH by done. cbn in Hf. rewrite Hf, <- app_assoc. f_equal.
    unfold kept. cbn [List.filter]. destruct (negb (suppressed env key r)); done.
Qed.

Lemma process_results_false env s key p rs : forall st,
  (in_remediation s key = true -> remediate p = Some RemReturns) ->
  snd (process_results env s key p st rs) = false.
Proof.
  induction rs as [|r rs IH]; intros st H; cbn; [done |].
  pose proof (process_result_threw env s key p st r H) as Ht.
  destruct (process_result env s key p st r) as [st1 b]. cbn in Ht. subst b.
  by apply IH.
Qed.

(** Suppressed results might as well not have been delivered. *)
Lemma process_results_filter env s key p rs : forall st,
  process_results env s key p st rs
  = process_results env s key p st
      (List.filter (fun r => negb (suppressed env key r)) rs).
Proof.
  induction rs as [|r rs IH]; intros st; [done |]. cbn [List.filter].
  destruct (suppressed env key r) eqn:E; cbn [negb process_results].
  - rewrite process_result_suppressed by done. apply IH.
  - destruct (process_result env s key p st r) as [st1 [|]]; [done | apply IH].
Qed.

(** What [postRun] forwards when it ends with the timer set. *)
Lemma postRun_forwarded env s key p cb st :
  snd (postRun env s key p cb st) = TimerSet ->
  forwarded (trace (fst (postRun env s key p cb st)))
  = (forwarded (trace st) ++ kept env key (results_of cb))%list.
Proof.
  unfold postRun, results_of.
  destruct (JS.truthy (cb_err cb)); [done |].
  destruct (JS.nonempty (cb_results cb)) eqn:En; cbn [negb].
  - set (st0 := match resultsObject st !! title p with Some _ => st | None => _ end).
    assert (E0 : trace st0 = trace st) by (subst st0; by destruct (_ !! _)).
    pose proof (process_results_forwarded env s key p
                  (default [] (cb_results cb)) st0) as Hf.
    destruct (process_results env s key p st0 (default [] (cb_results cb)))
      as [st1 [|]]; [done |].
    intros _. cbn in *. rewrite (Hf eq_refl), E0. reflexivity.
  - intros _. cbn. rewrite forwarded_app. cbn.
    destruct (cb_results cb) as [[|r rs]|]; cbn; by rewrite ?app_nil_r.
Qed.

(** With an error, [postRun] prints it and does nothing else. *)
Lemma postRun_error env s key p cb st :
  JS.truthy (cb_err cb) = true ->
  postRun env s key p cb st
  = (emit st [Log ("ERROR: " ++ JS.prop_key (cb_err cb))], ReturnedEarly).
Proof. intros H. unfold postRun. by rewrite H. Qed.

(** Without an error, and with a remediation that can be called when it is
    due, [postRun] sets the timer. *)
Lemma postRun_timer env s key p cb st :
  JS.truthy (cb_err cb) = false ->
  (in_remediation s key = true -> remediate p = Some RemReturns) ->
  snd (postRun env s key p cb st) = TimerSet.
Proof.
  intros He Hr. unfold postRun. rewrite He.
  destruct (JS.nonempty (cb_results cb)); cbn [negb]; [|done].
  match goal with |- context [process_results env s key p ?st0 ?rs] =>
    pose proof (process_results_false env s key p rs st0 Hr) as Hf;
    destruct (process_results env s key p st0 rs) as [st1 b] end.
  cbn in Hf. by subst b.
Qed.

(** What the iteratee does, by whether the entry is skipped. *)
Lemma iteratee_skipped env s skip key p st :
  JS.includes key skip = true -> iteratee env s skip key p st = (st, Released).
Proof. intros H. unfold iteratee. by rewrite H. Qed.

Lemma iteratee_started env s skip key p st :
  JS.includes key skip = false ->
  exists evs, Forall plain evs
              /\ iteratee env s skip key p st
                 = (emit st evs, Started (invocation env s p)).
Proof.
  intros H. unfold iteratee, invocation. rewrite H.
  assert (E : emit st [] = st) by (destruct st; unfold emit; cbn; by rewrite app_nil_r).
  destruct (asl p) as [descr|]; [|exists []; by rewrite E].
  destruct (run_asl s); [|exists []; by rewrite E].
  destruct (asl_runner env _) as [runner|].
  - exists [Log ("INFO: Using custom ASL for plugin: " ++ title p)].
    split; [by repeat constructor | done].
  - rewrite postRun_error by done. cbn [fst].
    exists [Log ("INFO: Using custom ASL for plugin: " ++ title p);
            Log ("ERROR: " ++ "Error: ASL: Wrong ASL Version: ")].
    split; [by repeat constructor |].
    unfold emit. cbn. by rewrite <- app_assoc.
Qed.

Lemma take_call_Permutation key l p cb rest :
  take_call key l = Some (p, cb, rest) -> Permutation l ((key, p, cb) :: rest).
Proof.
  revert p cb rest. induction l as [|[[k q] c] l IH]; intros p cb rest H; [done |].
  cbn in H. destruct (String.eqb k key) eqn:E.
  - apply String.eqb_eq in E. subst k. by injection H as <- <- <-.
  - destruct (take_call key l) as [[[p' cb'] rest']|]; [|done].
    injection H as <- <- <-. rewrite (IH _ _ _ eq_refl). apply perm_swap.
Qed.

Lemma take_timer_length key l rest :
  take_timer key l = Some rest -> List.length l = S (List.length rest).
Proof.
  revert rest. induction l as [|k l IH]; intros rest H; [done |].
  cbn in H. destruct (String.eqb k key).
  - by injection H as <-.
  - destruct (take_timer key l) as [rest'|]; [|done].
    injection H as <-. cbn. by rewrite (IH _ eq_refl).
Qed.

End Pipeline.
(** ** The scheduler, move by move *)

Section Scheduler.
Import Engine.
Context (env : environment) (cfg : cloud_config) (s : settings).

Lemma scheduler_eta sc :
  {| phase := phase sc; eng := eng sc; skipping := skipping sc; todo := todo sc;
     awaiting := awaiting sc; unreleased := unreleased sc; timers := timers sc |} = sc.
Proof. by destruct sc. Qed.

Lemma settle_moves sc : rtc (move env cfg s) sc (settle cfg s sc).
Proof.
  destruct (phase sc) eqn:Ep;
    try (unfold settle; rewrite Ep; apply rtc_refl).
  destruct (todo sc) as [|e l] eqn:Et;
    [|unfold settle; rewrite Ep, Et; apply rtc_refl].
  destruct (running sc) as [|n] eqn:Er;
    [|unfold settle; rewrite Ep, Et, Er; apply rtc_refl].
  apply rtc_once. by constructor.
Qed.

Lemma replenish_moves entries : forall sc,
  phase sc = Running -> todo sc = entries ->
  rtc (move env cfg s) sc (replenish env s sc entries).
Proof.
  induction entries as [|[key p] rest IH]; intros sc Hp Ht.
  - cbn. rewrite <- Ht, scheduler_eta. apply rtc_refl.
  - cbn [replenish]. destruct (limit <=? running sc)%nat eqn:El.
    + rewrite <- Ht, scheduler_eta. apply rtc_refl.
    + apply Nat.leb_gt in El.
      destruct (iteratee env s (skipping sc) key p (eng sc)) as [st d] eqn:Ei.
      assert (Hm : move env cfg s sc (hand_out sc rest st key p d))
        by (by econstructor).
      destruct d as [|[cb| |]]; cbn [hand_out] in *;
        first [ by apply rtc_once
              | eapply rtc_l; [exact Hm | by apply IH] ].
Qed.

Lemma step_moves sc t : rtc (move env cfg s) sc (step env cfg s sc t).
Proof.
  unfold step. destruct (phase sc) eqn:Ep; try apply rtc_refl.
  destruct t as [key|key].
  - destruct (take_call key (awaiting sc)) as [[[p cb] rest]|] eqn:Et;
      [|apply rtc_refl].
    destruct (postRun env s key p cb (eng sc)) as [st o] eqn:Eo.
    apply rtc_once. by econstructor.
  - destruct (take_timer key (timers sc)) as [rest|] eqn:Et; [|apply rtc_refl].
    eapply rtc_l; [by econstructor |].
    etrans; [apply replenish_moves; by cbn | apply settle_moves].
Qed.

Lemma run_ticks_moves ticks : forall sc,
  rtc (move env cfg s) sc (run_ticks env cfg s sc ticks).
Proof.
  induction ticks as [|t ticks IH]; intros sc; [apply rtc_refl |].
  cbn. etrans; [apply step_moves | apply IH].
Qed.

Lemma executePlugins_moves skip plugins tr :
  rtc (move env cfg s) (start skip plugins tr)
      (executePlugins env cfg s skip plugins tr).
Proof.
  unfold executePlugins.
  etrans; [apply replenish_moves; by cbn | apply settle_moves].
Qed.

(** A scheduler that is not running stays as it is. *)
Lemma run_ticks_stopped ticks : forall sc,
  phase sc <> Running -> run_ticks env cfg s sc ticks = sc.
Proof.
  induction ticks as [|t ticks IH]; intros sc H; [done |].
  cbn. assert (E : step env cfg s sc t = sc)
    by (unfold step; destruct (phase sc); done).
  rewrite E. by apply IH.
Qed.

Lemma move_from_running sc sc' : move env cfg s sc sc' -> phase sc = Running.
Proof. by destruct 1. Qed.

Lemma moves_stopped sc sc' :
  rtc (move env cfg s) sc sc' -> phase sc <> Running -> sc' = sc.
Proof.
  destruct 1 as [|sc sc1 sc2 H _]; [done |].
  intros Hn. by apply move_from_running in H.
Qed.

(** What was printed while planning is plain. *)
Lemma skip_printed_plain k p : Forall plain (snd (skip cfg s k p)).
Proof.
  unfold skip.
  destruct (JS.truthy (plugin_id s) && negb (String.eqb (JS.prop_key (plugin_id s)) k));
    [constructor |].
  cbn [snd]. apply Forall_app. split.
  - unfold skip_reason_github.
    repeat match goal with |- context [if ?b then _ else _] => destruct b end;
      repeat constructor.
  - unfold skip_reason_compliance.
    repeat match goal with |- context [if ?b then _ else _] => destruct b end;
      repeat constructor.
Qed.

Lemma plan_from_printed plugins : forall st st',
  plan_from cfg s st plugins = Some st' ->
  Forall plain (printed st) -> Forall plain (printed st').
Proof.
  induction plugins as [|[k p] rest IH]; intros st st' H Hst.
  - cbn in H. by injection H as <-.
  - cbn [plan_from] in H.
    destruct (plan_entry cfg s st (k, p)) as [st1|] eqn:E; [|done].
    apply (IH _ _ H). clear IH H.
    assert (Hp : Forall plain (printed st ++ snd (skip cfg s k p))%list)
      by (apply Forall_app; split; [done | apply skip_printed_plain]).
    unfold plan_entry in E.
    repeat match type of E with
           | context [if ?b then _ else _] => destruct b
           | context [match ?o with Some _ => _ | None => _ end] => destruct o
           end; try done; by injection E as <-.
Qed.

Lemma customization_plain : Forall plain (customization s).
Proof.
  unfold customization.
  repeat (apply Forall_app; split);
    repeat match goal with
           | |- context [if ?b then _ else _] => destruct b
           | |- context [match ?o with Some _ => _ | None => _ end] => destruct o
           end; repeat constructor.
Qed.

(** The engine either returns before any check is scheduled, or calls
    [executePlugins] after planning found calls to make. *)
Lemma engine_cases plugins :
  (exists ph tr, ph <> Running /\ ph <> Joined /\ Forall plain tr
                 /\ engine env cfg s plugins = stopped ph tr)
  \/ (exists pl tr, plan cfg s plugins = Some pl /\ apiCalls pl <> []
                    /\ Forall plain tr
                    /\ engine env cfg s plugins
                       = executePlugins env cfg s (skippedPlugins pl) plugins tr).
Proof.
  pose proof customization_plain as Hc.
  unfold engine.
  set (checked := if JS.truthy (plugin_id s) then _ else _).
  assert (Hchk : match checked with inl tr | inr tr => Forall plain tr end).
  { subst checked. destruct (JS.truthy (plugin_id s)); [|done].
    destruct (property plugins (JS.prop_key (plugin_id s)));
      apply Forall_app; split; repeat constructor; done. }
  destruct checked as [tr|tr1].
  { left. exists Aborted, tr. by repeat split. }
  destruct (plan cfg s plugins) as [pl|] eqn:Epl.
  2:{ left. eexists Crashed, _. (split; [done | split; [done | split; [| reflexivity]]]).
      apply Forall_app. split; [done | repeat constructor]. }
  assert (Hpr : Forall plain (printed pl))
    by (eapply plan_from_printed; [exact Epl | constructor]).
  assert (Htr3 : Forall plain ((tr1 ++ [Log "INFO: Determining API calls to make..."])
                               ++ printed pl)%list).
  { repeat (apply Forall_app; split); try done. repeat constructor. }
  destruct (apiCalls pl) as [|a calls] eqn:Ecalls.
  { left. eexists Aborted, _. (split; [done | split; [done | split; [| reflexivity]]]).
    apply Forall_app. split; [done | repeat constructor]. }
  destruct (collector env (a :: calls)).
  - left. eexists Aborted, _. (split; [done | split; [done | split; [| reflexivity]]]).
    repeat (apply Forall_app; split); try done; repeat constructor.
  - left. eexists Aborted, _. (split; [done | split; [done | split; [| reflexivity]]]).
    repeat (apply Forall_app; split); try done; repeat constructor.
  - match goal with |- context [if ?b then _ else _] => destruct b end.
    + destruct (JS.truthy (azure_login env)).
      * left. eexists Aborted, _.
        (split; [done | split; [done | split; [| reflexivity]]]).
        repeat (apply Forall_app; split); try done; repeat constructor.
      * right. exists pl. eexists.
        (split; [done | split; [by rewrite Ecalls | split; [| reflexivity]]]).
        repeat (apply Forall_app; split); try done; repeat constructor.
    + right. exists pl. eexists.
      (split; [done | split; [by rewrite Ecalls | split; [| reflexivity]]]).
      repeat (apply Forall_app; split); try done; repeat constructor.
Qed.

End Scheduler.
(** ** Invariants of a scan *)

(** A property of the engine's variables that printing keeps, that the
    bookkeeping of [resultsObject] keeps, and that the body of the loop over
    the results keeps, holds throughout every scan. *)
Section EngineInvariant.
Import Engine.
Context (env : environment) (cfg : cloud_config) (s : settings)
        (plugins : catalog) (Inv : engine_state -> Prop).
Hypothesis Inv_emit :
  forall st evs, Forall plain evs -> Inv st -> Inv (emit st evs).
Hypothesis Inv_results :
  forall st t l, Inv st ->
    Inv {| maximumStatus := maximumStatus st;
           resultsObject := <[t := l]> (resultsObject st);
           trace := trace st |}.
Hypothesis Inv_process :
  forall st k p r, In (k, p) plugins -> Inv st ->
    Inv (fst (process_result env s k p st r)).

Lemma process_results_invariant k p rs : forall st,
  In (k, p) plugins -> Inv st -> Inv (fst (process_results env s k p st rs)).
Proof.
  induction rs as [|r rs IH]; intros st Hin Hst; [done |].
  cbn [process_results].
  pose proof (Inv_process st k p r Hin Hst) as H1.
  destruct (process_result env s k p st r) as [st1 [|]]; [done |].
  by apply IH.
Qed.

Lemma postRun_invariant k p cb st :
  In (k, p) plugins -> Inv st -> Inv (fst (postRun env s k p cb st)).
Proof.
  intros Hin Hst. unfold postRun.
  destruct (JS.truthy (cb_err cb)); [apply Inv_emit; by repeat constructor |].
  destruct (JS.nonempty (cb_results cb)); cbn [negb];
    [|apply Inv_emit; by repeat constructor].
  match goal with |- context [process_results env s k p ?st0 ?rs] =>
    assert (H0 : Inv st0) by (destruct (_ !! _); [done | by apply Inv_results]);
    pose proof (process_results_invariant k p rs st0 Hin H0) as H1;
    destruct (process_results env s k p st0 rs) as [st1 b] end.
  done.
Qed.

Lemma iteratee_invariant skip k p st :
  Inv st -> Inv (fst (iteratee env s skip k p st)).
Proof.
  intros Hst. destruct (JS.includes k skip) eqn:E.
  - by rewrite iteratee_skipped.
  - destruct (iteratee_started env s skip k p st E) as (evs & Hp & ->).
    by apply Inv_emit.
Qed.

Lemma move_invariant sc sc' :
  move env cfg s sc sc' ->
  incl (todo sc) plugins ->
  Forall (fun c => In (fst (fst c), snd (fst c)) plugins) (awaiting sc) ->
  Inv (eng sc) ->
  incl (todo sc') plugins
  /\ Forall (fun c => In (fst (fst c), snd (fst c)) plugins) (awaiting sc')
  /\ Inv (eng sc').
Proof.
  intros Hm Ht Ha Hi. destruct Hm as [sc key p rest st d Hp Htodo Hr Hit
                                     |sc key p cb rest st o Hp Htake Hpost
                                     |sc key rest Hp Htake
                                     |sc Hp Htodo Hr].
  - rewrite Htodo in Ht.
    assert (Hin : In (key, p) plugins) by (apply Ht; by left).
    assert (Hrest : incl rest plugins) by (intros e He; apply Ht; by right).
    pose proof (iteratee_invariant (skipping sc) key p (eng sc) Hi) as Hst.
    rewrite Hit in Hst.
    destruct d as [|[cb| |]]; cbn; (split; [done | split; [|done]]); try done.
    apply Forall_app. split; [done | by repeat constructor].
  - apply take_call_Permutation in Htake as Hperm.
    rewrite Hperm in Ha. apply Forall_cons in Ha as [Hin Hrest].
    pose proof (postRun_invariant key p cb (eng sc) Hin Hi) as Hst.
    rewrite Hpost in Hst. destruct o; cbn; done.
  - done.
  - unfold settle. rewrite Hp, Htodo, Hr. cbn [todo awaiting eng].
    split; [by intros e [] | split; [done |]].
    unfold final_callback. apply Inv_emit; [|done].
    repeat (apply Forall_app; split);
      repeat match goal with |- context [if ?b then _ else _] => destruct b end;
      by repeat constructor.
Qed.

Lemma moves_invariant sc sc' :
  rtc (move env cfg s) sc sc' ->
  incl (todo sc) plugins ->
  Forall (fun c => In (fst (fst c), snd (fst c)) plugins) (awaiting sc) ->
  Inv (eng sc) ->
  Inv (eng sc').
Proof.
  induction 1 as [sc|sc sc1 sc2 Hm _ IH]; [done |].
  intros Ht Ha Hi.
  destruct (move_invariant _ _ Hm Ht Ha Hi) as (Ht1 & Ha1 & Hi1). by apply IH.
Qed.

Lemma scan_invariant ticks :
  (forall tr, Forall plain tr ->
              Inv {| maximumStatus := 0; resultsObject := ∅; trace := tr |}) ->
  Inv (eng (scan env cfg s plugins ticks)).
Proof.
  intros Hinit. unfold scan.
  destruct (engine_cases env cfg s plugins)
    as [(ph & tr & Hph1 & Hph2 & Hpl & ->) | (pl & tr & Hplan & Hcalls & Hpl & ->)].
  - rewrite run_ticks_stopped by (by destruct ph). by apply Hinit.
  - eapply moves_invariant.
    + etrans; [apply executePlugins_moves | apply run_ticks_moves].
    + cbn. by intros e He.
    + cbn. constructor.
    + cbn. by apply Hinit.
Qed.

End EngineInvariant.
(** ** The scheduler's bookkeeping *)

Section Bookkeeping.
Import Engine.
Context (env : environment) (cfg : cloud_config) (s : settings).

Lemma moves_preserve (P : scheduler -> Prop) :
  (forall sc sc', move env cfg s sc sc' -> P sc -> P sc') ->
  forall sc sc', rtc (move env cfg s) sc sc' -> P sc -> P sc'.
Proof. intros Hstep sc sc' H. induction H; eauto. Qed.

Lemma settle_joined sc :
  phase sc = Running -> todo sc = [] -> running sc = 0%nat ->
  settle cfg s sc
  = {| phase := Joined; eng := final_callback cfg s (eng sc);
       skipping := skipping sc; todo := [];
       awaiting := awaiting sc; unreleased := unreleased sc; timers := timers sc |}.
Proof. intros Hp Ht Hr. unfold settle. by rewrite Hp, Ht, Hr. Qed.

Lemma final_callback_plain st :
  exists evs, Forall plain evs /\ final_callback cfg s st = emit st evs.
Proof.
  unfold final_callback. eexists. split; [|reflexivity].
  repeat (apply Forall_app; split);
    repeat match goal with |- context [if ?b then _ else _] => destruct b end;
    by repeat constructor.
Qed.

Lemma emit_forwarded st evs :
  Forall plain evs -> forwarded (trace (emit st evs)) = forwarded (trace st).
Proof.
  intros H. cbn. by rewrite forwarded_app, (plain_forwarded _ H), app_nil_r.
Qed.

(** The skip list never changes. *)
Lemma move_skipping sc sc' : move env cfg s sc sc' -> skipping sc' = skipping sc.
Proof.
  destruct 1 as [sc key p rest st d _ _ _ _|sc key p cb rest st o _ _ _| |sc Hp Ht Hr].
  - by destruct d as [|[| |]].
  - by destruct o.
  - done.
  - by rewrite settle_joined.
Qed.

(** The final callback runs only once everything that was handed out is
    done and nothing is left to hand out. *)
Lemma move_joined sc sc' :
  move env cfg s sc sc' ->
  phase sc' = Joined -> todo sc' = [] /\ running sc' = 0%nat.
Proof.
  destruct 1 as [sc key p rest st d Hp _ _ _|sc key p cb rest st o Hp _ _
                |sc key rest Hp _|sc Hp Ht Hr].
  - destruct d as [|[| |]]; cbn; congruence.
  - destruct o; cbn; congruence.
  - cbn; congruence.
  - rewrite settle_joined by done. done.
Qed.

Lemma moves_joined sc sc' :
  rtc (move env cfg s) sc sc' ->
  (phase sc = Joined -> todo sc = [] /\ running sc = 0%nat) ->
  phase sc' = Joined -> todo sc' = [] /\ running sc' = 0%nat.
Proof.
  intros H. revert H.
  apply (moves_preserve (fun sc => phase sc = Joined -> todo sc = [] /\ running sc = 0%nat)).
  intros sc1 sc2 Hm _. by apply (move_joined sc1).
Qed.

Lemma all_kept_cons skip key p rest :
  all_kept env s skip ((key, p) :: rest)
  = ((if JS.includes key skip then [] else kept env key (delivered env s p))
     ++ all_kept env s skip rest)%list.
Proof.
  unfold all_kept, executed. cbn [List.filter fst].
  by destruct (JS.includes key skip).
Qed.

Lemma awaited_app l1 l2 : awaited env (l1 ++ l2) = (awaited env l1 ++ awaited env l2)%list.
Proof. apply flat_map_app. Qed.

Lemma awaited_Permutation l1 l2 :
  Permutation l1 l2 -> Permutation (awaited env l1) (awaited env l2).
Proof.
  induction 1; cbn; [done | by apply Permutation_app_head | | by etrans].
  rewrite !app_assoc. apply Permutation_app_tail, Permutation_app_comm.
Qed.

(** Every result that is to be forwarded is forwarded already, or belongs to
    a call that waits for its callback, or to an entry not handed out yet: as
    long as no call is lost and nothing threw. *)
Lemma move_accounts plugins sc sc' :
  move env cfg s sc sc' ->
  (unreleased sc = [] -> phase sc <> Crashed ->
   Permutation (all_kept env s (skipping sc) plugins)
     (output sc ++ awaited env (awaiting sc)
      ++ all_kept env s (skipping sc) (todo sc))) ->
  unreleased sc' = [] -> phase sc' <> Crashed ->
  Permutation (all_kept env s (skipping sc') plugins)
    (output sc' ++ awaited env (awaiting sc')
     ++ all_kept env s (skipping sc') (todo sc')).
Proof.
  intros Hm Hacc. rewrite (move_skipping _ _ Hm).
  destruct Hm as [sc key p rest st d Hp Htodo Hr Hit
                 |sc key p cb rest st o Hp Htake Hpost
                 |sc key rest Hp Htake
                 |sc Hp Htodo Hr].
  - rewrite Htodo, all_kept_cons in Hacc. unfold output in *.
    destruct (JS.includes key (skipping sc)) eqn:Esk.
    + rewrite iteratee_skipped in Hit by done. injection Hit as <- <-.
      cbn. intros Hu _. apply Hacc; [done | congruence].
    + destruct (iteratee_started env s _ key p (eng sc) Esk) as (evs & Hpl & Hit').
      rewrite Hit' in Hit. injection Hit as <- <-.
      unfold delivered in Hacc.
      destruct (invocation env s p) as [cb| |]; cbn [hand_out unreleased phase].
      * cbn [eng awaiting todo]. intros Hu _.
        rewrite emit_forwarded, awaited_app by done. cbn [awaited flat_map fst snd].
        rewrite app_nil_r, <- app_assoc. apply Hacc; [done | congruence].
      * done.
      * intros Hu. by destruct (unreleased sc).
  - apply take_call_Permutation in Htake as Hperm.
    pose proof (postRun_forwarded env s key p cb (eng sc)) as Hf.
    rewrite Hpost in Hf. cbn [fst snd] in Hf. unfold output in *.
    destruct o; cbn [after_callback unreleased phase eng awaiting todo].
    + intros Hu _. rewrite Hf by done.
      rewrite Hacc by (done || congruence).
      rewrite (awaited_Permutation _ _ Hperm). cbn [awaited flat_map fst snd].
      rewrite <- !app_assoc. done.
    + intros Hu. by destruct (unreleased sc).
    + done.
  - cbn. intros Hu Hc. by apply Hacc.
  - rewrite settle_joined by done. unfold output in *.
    cbn [eng awaiting todo unreleased phase skipping].
    destruct (final_callback_plain (eng sc)) as (evs & Hpl & ->).
    intros Hu _. rewrite emit_forwarded by done. rewrite Htodo in Hacc.
    apply Hacc; [done | congruence].
Qed.

Lemma moves_account plugins sc sc' :
  rtc (move env cfg s) sc sc' ->
  (unreleased sc = [] -> phase sc <> Crashed ->
   Permutation (all_kept env s (skipping sc) plugins)
     (output sc ++ awaited env (awaiting sc)
      ++ all_kept env s (skipping sc) (todo sc))) ->
  unreleased sc' = [] -> phase sc' <> Crashed ->
  Permutation (all_kept env s (skipping sc') plugins)
    (output sc' ++ awaited env (awaiting sc')
     ++ all_kept env s (skipping sc') (todo sc')).
Proof.
  intros H. revert H.
  apply (moves_preserve (fun sc =>
    unreleased sc = [] -> phase sc <> Crashed ->
    Permutation (all_kept env s (skipping sc) plugins)
      (output sc ++ awaited env (awaiting sc)
       ++ all_kept env s (skipping sc) (todo sc)))).
  intros sc1 sc2 Hm. by apply (move_accounts plugins sc1).
Qed.

End Bookkeeping.
(** ** Reaching the join *)

Section Liveness.
Import Engine.
Context (env : environment) (cfg : cloud_config) (s : settings)
        (plugins : catalog) (skip : list string).
Hypothesis all_well_behaved :
  forall k p, In (k, p) plugins -> JS.includes k skip = false ->
              well_behaved env s k p.

Lemma move_orderly sc sc' :
  move env cfg s sc sc' -> orderly s plugins skip sc -> orderly s plugins skip sc'.
Proof.
  intros Hm (Hsk & Htodo & Hun & Hph & Haw).
  destruct Hm as [sc key p rest st d Hp Ht Hr Hit
                 |sc key p cb rest st o Hp Htake Hpost
                 |sc key rest Hp Htake
                 |sc Hp Ht Hr].
  - rewrite Ht in Htodo.
    assert (Hin : In (key, p) plugins) by (apply Htodo; by left).
    assert (Hrest : incl rest plugins) by (intros e He; apply Htodo; by right).
    destruct (JS.includes key (skipping sc)) eqn:Esk.
    + rewrite iteratee_skipped in Hit by done. injection Hit as <- <-.
      by repeat split.
    + destruct (iteratee_started env s _ key p (eng sc) Esk) as (evs & Hpl & Hit').
      rewrite Hit' in Hit. injection Hit as <- <-.
      rewrite Hsk in Esk.
      destruct (all_well_behaved key p Hin Esk) as [(cb & -> & Herr) Hrem].
      repeat split; try done. cbn. apply Forall_app. split; [done |].
      by repeat constructor.
  - apply take_call_Permutation in Htake as Hperm.
    rewrite Hperm in Haw. apply Forall_cons in Haw as [[Herr Hrem] Hrest].
    pose proof (postRun_timer env s key p cb (eng sc) Herr Hrem) as Ho.
    rewrite Hpost in Ho. cbn in Ho. subst o. by repeat split.
  - by repeat split.
  - rewrite settle_joined by done. repeat split; try done.
    + cbn. by intros e [].
    + cbn. by right.
Qed.

Lemma moves_orderly sc sc' :
  rtc (move env cfg s) sc sc' ->
  orderly s plugins skip sc -> orderly s plugins skip sc'.
Proof. intros H. revert H. apply moves_preserve. apply move_orderly. Qed.

End Liveness.

Section Progress.
Import Engine.
Context (env : environment) (cfg : cloud_config) (s : settings).

(** Handing out stops when no entry is left or every slot is taken. *)
Lemma replenish_saturates entries : forall sc,
  let sc' := replenish env s sc entries in
  phase sc' = Crashed \/ (phase sc' = phase sc
                          /\ (todo sc' = [] \/ (limit <= running sc')%nat)).
Proof.
  induction entries as [|[key p] rest IH]; intros sc; cbn zeta.
  - right. cbn. auto.
  - cbn [replenish]. destruct (limit <=? running sc)%nat eqn:El.
    + right. apply Nat.leb_le in El. cbn. auto.
    + destruct (iteratee env s (skipping sc) key p (eng sc)) as [st d].
      destruct d as [|[cb| |]]; cbn [hand_out];
        first [ by left
              | match goal with |- context [replenish env s ?sc1 rest] =>
                  destruct (IH sc1) as [H | [H1 H2]]; [by left | right; by split]
                end ].
Qed.

Lemma settle_phase sc :
  phase (settle cfg s sc) = Running ->
  settle cfg s sc = sc /\ (todo sc <> [] \/ running sc <> 0%nat).
Proof.
  unfold settle. intros H.
  destruct (phase sc) eqn:Ep; destruct (todo sc) eqn:Et;
    destruct (running sc) eqn:Er; cbn in H; try congruence;
    (split; [done |]); first [by left | by right].
Qed.

(** Between ticks, a running scheduler has a call that is not released. *)
Lemma handed_out_positive sc :
  phase sc = Running ->
  let sc' := settle cfg s (replenish env s sc (todo sc)) in
  phase sc' = Running -> (0 < running sc')%nat.
Proof.
  intros Hp sc' Hp'. subst sc'.
  destruct (settle_phase _ Hp') as [E Hnz]. rewrite E in *.
  destruct (replenish_saturates (todo sc) sc) as [H | [_ [H | H]]].
  - congruence.
  - destruct Hnz; [done | lia].
  - unfold limit in H. lia.
Qed.

Lemma take_call_length key l p cb rest :
  take_call key l = Some (p, cb, rest) -> List.length l = S (List.length rest).
Proof.
  intros H. apply take_call_Permutation in H.
  by rewrite (Permutation_length H).
Qed.

Lemma step_positive sc t :
  (phase sc = Running -> (0 < running sc)%nat) ->
  phase (step env cfg s sc t) = Running ->
  (0 < running (step env cfg s sc t))%nat.
Proof.
  intros Hpos. unfold step. destruct (phase sc) eqn:Ep; try congruence.
  destruct t as [key|key].
  - destruct (take_call key (awaiting sc)) as [[[p cb] rest]|] eqn:Et;
      [|rewrite Ep; auto].
    destruct (postRun env s key p cb (eng sc)) as [st o].
    apply take_call_length in Et. specialize (Hpos eq_refl).
    unfold running in *. rewrite Et in Hpos.
    destruct o; cbn; rewrite ?length_app; cbn; intros; lia || congruence.
  - destruct (take_timer key (timers sc)) as [rest|] eqn:Et; [|rewrite Ep; auto].
    apply (handed_out_positive (after_timer sc rest)). done.
Qed.

(** No move adds to what is left to happen. *)
Lemma move_pending sc sc' : move env cfg s sc sc' -> (pending sc' <= pending sc)%nat.
Proof.
  destruct 1 as [sc key p rest st d Hp Ht Hr Hit
                |sc key p cb rest st o Hp Htake Hpost
                |sc key rest Hp Htake
                |sc Hp Ht Hr]; unfold pending.
  - rewrite Ht. destruct d as [|[cb| |]]; cbn; rewrite ?length_app; cbn; lia.
  - apply take_call_length in Htake. rewrite Htake.
    destruct o; cbn; rewrite ?length_app; cbn; lia.
  - apply take_timer_length in Htake. rewrite Htake. cbn. lia.
  - rewrite settle_joined by done. cbn. rewrite Ht. cbn. lia.
Qed.

Lemma moves_pending sc sc' :
  rtc (move env cfg s) sc sc' -> (pending sc' <= pending sc)%nat.
Proof. induction 1 as [|sc sc1 sc2 H _ IH]; [done |]. apply move_pending in H. lia. Qed.

(** A tick changes nothing or leaves less to happen. *)
Lemma step_pending sc t :
  step env cfg s sc t = sc \/ (pending (step env cfg s sc t) < pending sc)%nat.
Proof.
  unfold step. destruct (phase sc) eqn:Ep; auto.
  destruct t as [key|key].
  - destruct (take_call key (awaiting sc)) as [[[p cb] rest]|] eqn:Et; [|by left].
    destruct (postRun env s key p cb (eng sc)) as [st o].
    right. apply take_call_length in Et. unfold pending. rewrite Et.
    destruct o; cbn; rewrite ?length_app; cbn; lia.
  - destruct (take_timer key (timers sc)) as [rest|] eqn:Et; [|by left].
    right. apply take_timer_length in Et.
    assert (H : rtc (move env cfg s) (after_timer sc rest)
                    (settle cfg s (replenish env s (after_timer sc rest) (todo sc)))).
    { etrans; [apply replenish_moves; by cbn | apply settle_moves]. }
    apply moves_pending in H. unfold pending in *. cbn in H. rewrite Et. lia.
Qed.

End Progress.
(** ** Facts about whole scans *)

Section Scans.
Import Engine.
Context (env : environment) (cfg : cloud_config) (s : settings) (plugins : catalog).

(** The verdict is the maximum over what was forwarded, at every moment. *)
Lemma scan_verdict_forwarded ticks :
  verdict (scan env cfg s plugins ticks)
  = max_status (output (scan env cfg s plugins ticks)).
Proof.
  apply (scan_invariant env cfg s plugins
           (fun st => maximumStatus st = max_status (forwarded (trace st)))).
  - intros st evs Hp Hst. cbn [emit trace maximumStatus].
    by rewrite forwarded_app, (plain_forwarded _ Hp), app_nil_r.
  - done.
  - intros st k p r _ Hst. by apply process_result_maximum.
  - intros tr Hp. cbn [trace maximumStatus]. by rewrite (plain_forwarded _ Hp).
Qed.

(** Nothing that is suppressed is ever forwarded. *)
Lemma scan_not_suppressed ticks :
  Forall (fun o => suppressed env (snd o) (fst o) = false)
         (output (scan env cfg s plugins ticks)).
Proof.
  apply (scan_invariant env cfg s plugins
           (fun st => Forall (fun o => suppressed env (snd o) (fst o) = false)
                             (forwarded (trace st)))).
  - intros st evs Hp Hst. cbn [emit trace maximumStatus].
    by rewrite forwarded_app, (plain_forwarded _ Hp), app_nil_r.
  - done.
  - intros st k p r _ Hst. rewrite process_result_forwarded.
    apply Forall_app. split; [done |]. unfold kept. cbn [List.filter].
    destruct (suppressed env k r) eqn:E; cbn; [constructor |].
    by repeat constructor.
  - intros tr Hp. cbn [trace maximumStatus]. rewrite (plain_forwarded _ Hp). constructor.
Qed.

(** The remediation calls made are those due for what was forwarded. *)
Lemma scan_remediations ticks :
  (forall k p, In (k, p) plugins -> in_remediation s k = true ->
               is_Some (remediate p)) ->
  remediations (trace (eng (scan env cfg s plugins ticks)))
  = remediations_due s (output (scan env cfg s plugins ticks)).
Proof.
  intros Hrem.
  apply (scan_invariant env cfg s plugins
           (fun st => remediations (trace st)
                      = remediations_due s (forwarded (trace st)))).
  - intros st evs Hp Hst. cbn [emit trace maximumStatus].
    by rewrite forwarded_app, remediations_app, (plain_forwarded _ Hp),
      (plain_remediations _ Hp), !app_nil_r.
  - done.
  - intros st k p r Hin Hst.
    rewrite process_result_remediations by (by apply Hrem).
    rewrite process_result_forwarded, Hst. unfold remediations_due.
    by rewrite flat_map_app.
  - intros tr Hp. cbn [trace maximumStatus]. by rewrite (plain_forwarded _ Hp), (plain_remediations _ Hp).
Qed.

Lemma start_accounts skip tr :
  Forall plain tr ->
  Permutation (all_kept env s skip plugins)
    (output (start skip plugins tr) ++ awaited env (awaiting (start skip plugins tr))
     ++ all_kept env s skip (todo (start skip plugins tr))).
Proof.
  intros Hp. unfold output, start. cbn [eng trace awaiting todo awaited flat_map].
  by rewrite (plain_forwarded _ Hp).
Qed.

(** At the join, what was forwarded is what the executed checks delivered
    and was not suppressed, in some order. *)
Lemma scan_accounts ticks :
  phase (scan env cfg s plugins ticks) = Joined ->
  Permutation (output (scan env cfg s plugins ticks))
    (all_kept env s (skipping (scan env cfg s plugins ticks)) plugins).
Proof.
  unfold scan.
  destruct (engine_cases env cfg s plugins)
    as [(ph & tr & Hph1 & Hph2 & Hpl & ->) | (pl & tr & Hplan & Hcalls & Hpl & ->)].
  - rewrite run_ticks_stopped by (by destruct ph). by cbn.
  - set (sc := run_ticks _ _ _ _ _). intros Hj.
    assert (Hm : rtc (move env cfg s) (start (skippedPlugins pl) plugins tr) sc)
      by (etrans; [apply executePlugins_moves | apply run_ticks_moves]).
    destruct (moves_joined env cfg s _ _ Hm) as [Ht Hr]; [by cbn | done |].
    unfold running in Hr.
    destruct (awaiting sc) eqn:Ea; [|by cbn in Hr].
    destruct (unreleased sc) eqn:Eu; [|by cbn in Hr].
    pose proof (moves_account env cfg s plugins _ _ Hm) as Hacc.
    rewrite Ea, Ht in Hacc. cbn [awaited flat_map all_kept executed List.filter] in Hacc.
    rewrite !app_nil_r in Hacc. symmetry. apply Hacc.
    + intros _ _. by apply start_accounts.
    + done.
    + congruence.
Qed.

(** The skip list is that of the engine, whatever happens. *)
Lemma scan_skipping ticks :
  skipping (scan env cfg s plugins ticks) = skipping (engine env cfg s plugins).
Proof.
  unfold scan. generalize (engine env cfg s plugins). intros sc.
  pose proof (run_ticks_moves env cfg s ticks sc) as Hm.
  induction Hm as [|sc sc1 sc2 H _ IH]; [done |].
  rewrite IH. by apply move_skipping in H.
Qed.

End Scans.
(** ** The verdict *)

Section Verdict.
Import Engine.

(** C1: once the final callback ran, the engine's verdict is the maximum
    status over the results the executed checks delivered that are not
    suppressed: it bounds every such status, is one of them when there is
    one, and is 0 when there is none. What was forwarded is a permutation of
    these results, and the verdict is the same for every order in which the
    checks call back and the timers fire. *)
Theorem C1_verdict_is_maximum_status env cfg s plugins ticks :
  let sc := scan env cfg s plugins ticks in
  let results := all_kept env s (skipping sc) plugins in
  phase sc = Joined ->
  Forall (fun o => (0 <= status (fst o) <= 3)%Z) results ->
  verdict sc = max_status results
  /\ (results = [] -> verdict sc = 0%Z)
  /\ (forall o, In o results -> (status (fst o) <= verdict sc)%Z)
  /\ (results <> [] -> exists o, In o results /\ verdict sc = status (fst o))
  /\ Permutation (output sc) results
  /\ (forall ticks', phase (scan env cfg s plugins ticks') = Joined ->
                     verdict (scan env cfg s plugins ticks') = verdict sc).
Proof.
  intros sc results Hj Hvalid.
  assert (Hperm : Permutation (output sc) results) by (by apply scan_accounts).
  assert (Hv : verdict sc = max_status results).
  { subst sc. rewrite scan_verdict_forwarded. by apply max_status_Permutation. }
  split; [done |]. split; [|split; [|split; [|split]]].
  - intros E. by rewrite Hv, E.
  - intros o Ho. rewrite Hv. by apply max_status_upper.
  - intros Hne. destruct (max_status_attained results Hne) as (o & Ho & Eo).
    + eapply Forall_impl; [exact Hvalid |]. cbn. intros; lia.
    + exists o. split; [done |]. congruence.
  - done.
  - intros ticks' Hj'. rewrite Hv, scan_verdict_forwarded.
    apply max_status_Permutation. rewrite (scan_accounts _ _ _ _ _ Hj').
    subst results sc. by rewrite !scan_skipping.
Qed.

(** The catalog of two checks joins with verdict 2, in either order. *)
Lemma C1_witness :
  verdict (scan Examples.plain_env Examples.config Examples.no_filter
             Examples.two_checks Examples.in_turn) = 2%Z
  /\ verdict (scan Examples.plain_env Examples.config Examples.no_filter
                Examples.two_checks Examples.reversed) = 2%Z.
Proof.
  assert (Hj : phase (scan Examples.plain_env Examples.config Examples.no_filter
                        Examples.two_checks Examples.in_turn) = Joined)
    by (vm_compute; reflexivity).
  assert (Hv : Forall (fun o => (0 <= status (fst o) <= 3)%Z)
                 (all_kept Examples.plain_env Examples.no_filter
                    (skipping (scan Examples.plain_env Examples.config Examples.no_filter
                                 Examples.two_checks Examples.in_turn))
                    Examples.two_checks))
    by (vm_compute; repeat constructor; discriminate).
  destruct (C1_verdict_is_maximum_status Examples.plain_env Examples.config
              Examples.no_filter Examples.two_checks Examples.in_turn Hj Hv)
    as (Hmax & _ & _ & _ & _ & Horder).
  split.
  - rewrite Hmax. vm_compute. reflexivity.
  - rewrite (Horder Examples.reversed); [|vm_compute; reflexivity].
    rewrite Hmax. vm_compute. reflexivity.
Defined.

End Verdict.

(** ** Suppression *)

Section Suppression.
Import Engine.


End Suppression.
(** ** The join *)

Section Join.
Import Engine.
Context (env : environment) (cfg : cloud_config) (s : settings)
        (plugins : catalog) (skip : list string).
Hypothesis all_well_behaved :
  forall k p, In (k, p) plugins -> JS.includes k skip = false ->
              well_behaved env s k p.

Lemma executePlugins_orderly tr :
  orderly s plugins skip (executePlugins env cfg s skip plugins tr).
Proof.
  eapply moves_orderly; [done | apply executePlugins_moves |].
  unfold orderly, start. cbn.
  split; [done | split; [by intros e He | split; [done | split; [by left | constructor]]]].
Qed.

Lemma run_ticks_orderly sc ticks :
  orderly s plugins skip sc -> orderly s plugins skip (run_ticks env cfg s sc ticks).
Proof. eapply moves_orderly; [done | apply run_ticks_moves]. Qed.

Lemma run_ticks_positive ticks : forall sc,
  (phase sc = Running -> (0 < running sc)%nat) ->
  phase (run_ticks env cfg s sc ticks) = Running ->
  (0 < running (run_ticks env cfg s sc ticks))%nat.
Proof.
  induction ticks as [|t ticks IH]; intros sc H; [done |].
  cbn. apply IH. by apply step_positive.
Qed.

Lemma orderly_progress sc :
  orderly s plugins skip sc ->
  (phase sc = Running -> (0 < running sc)%nat) ->
  phase sc = Running -> awaiting sc <> [] \/ timers sc <> [].
Proof.
  intros (_ & _ & Hu & _ & _) Hpos Hp. specialize (Hpos Hp).
  unfold running in Hpos. rewrite Hu in Hpos.
  destruct (awaiting sc); [|by left]. destruct (timers sc); [|by right].
  cbn in Hpos. lia.
Qed.

Lemma enabled_tick sc :
  phase sc = Running -> awaiting sc <> [] \/ timers sc <> [] ->
  exists t, (pending (step env cfg s sc t) < pending sc)%nat.
Proof.
  intros Hp [Ha | Ht].
  - destruct (awaiting sc) as [|[[k p] cb] l] eqn:Ea; [done |].
    exists (CallsBack k). unfold step. rewrite Hp, Ea. cbn [take_call].
    rewrite String.eqb_refl.
    destruct (postRun env s k p cb (eng sc)) as [st o].
    unfold pending. rewrite Ea.
    destruct o; cbn; rewrite ?length_app; cbn; lia.
  - destruct (timers sc) as [|k l] eqn:Et; [done |].
    exists (TimerFires k).
    destruct (step_pending env cfg s sc (TimerFires k)) as [E | H]; [|done].
    exfalso. unfold step in E. rewrite Hp, Et in E. cbn [take_timer] in E.
    rewrite String.eqb_refl in E.
    assert (H : rtc (move env cfg s) (after_timer sc l)
                    (settle cfg s (replenish env s (after_timer sc l) (todo sc)))).
    { etrans; [apply replenish_moves; by cbn | apply settle_moves]. }
    apply moves_pending in H. rewrite E in H. unfold pending in H.
    cbn in H. rewrite Et in H. cbn in H. lia.
Qed.

Lemma reaches_join n : forall sc,
  (pending sc <= n)%nat ->
  orderly s plugins skip sc ->
  (phase sc = Running -> (0 < running sc)%nat) ->
  exists more, phase (run_ticks env cfg s sc more) = Joined.
Proof.
  induction n as [|n IH]; intros sc Hn Ho Hpos.
  - destruct Ho as (H1 & H2 & H3 & [Hp | Hp] & H5); [|by exists []].
    destruct (enabled_tick sc Hp) as [t Ht]; [|lia].
    apply orderly_progress; try done. by repeat split; auto.
  - pose proof Ho as (_ & _ & _ & [Hp | Hp] & _); [|by exists []].
    destruct (enabled_tick sc Hp) as [t Ht]; [by apply orderly_progress |].
    destruct (IH (step env cfg s sc t)) as [more Hmore].
    + lia.
    + eapply moves_orderly; [done | apply step_moves | done].
    + by apply step_positive.
    + by exists (t :: more).
Qed.

End Join.

Section FailSoft.
Import Engine.

(** A call that is never released keeps the final callback from running. *)
Lemma move_never_joins env cfg s sc sc' :
  move env cfg s sc sc' ->
  phase sc <> Joined /\ unreleased sc <> [] ->
  phase sc' <> Joined /\ unreleased sc' <> [].
Proof.
  intros Hm [_ Hu].
  assert (Happ : forall k, (unreleased sc ++ [k])%list <> [])
    by (intros k; by destruct (unreleased sc)).
  destruct Hm as [sc key p rest st d Hp Ht Hr Hit
                 |sc key p cb rest st o Hp Htake Hpost
                 |sc key rest Hp Htake
                 |sc Hp Ht Hr].
  - destruct d as [|[cb| |]]; cbn; split; congruence || done.
  - destruct o; cbn; split; congruence || done.
  - cbn. split; congruence || done.
  - exfalso. unfold running in Hr. destruct (unreleased sc); [done |].
    rewrite !length_app in Hr || idtac. cbn in Hr. lia.
Qed.

Lemma unreleased_never_joins env cfg s sc sc' :
  rtc (move env cfg s) sc sc' ->
  phase sc <> Joined /\ unreleased sc <> [] ->
  phase sc' <> Joined /\ unreleased sc' <> [].
Proof.
  intros H. revert H.
  apply (moves_preserve env cfg s
           (fun sc => phase sc <> Joined /\ unreleased sc <> [])).
  apply move_never_joins.
Qed.




End FailSoft.
(** ** The planner *)

Section Planner.
Import Engine.

Lemma plan_spec cfg s plugins pl :
  plan cfg s plugins = Some pl ->
  (forall a, In a (apiCalls pl) <->
             exists k p, In (k, p) plugins /\ skipped cfg s k p = false
                         /\ In a (requested s k p))
  /\ skippedPlugins pl
     = map fst (List.filter (fun e => skipped cfg s (fst e) (snd e)) plugins)
  /\ (forall k p, In (k, p) plugins -> skipped cfg s k p = false ->
                  is_Some (apis p)
                  /\ (in_remediation s k = true -> is_Some (apis_remediate p)))
  /\ NoDup (apiCalls pl).
Proof.
  intros H. apply plan_from_spec in H as (Hin & Hsk & Hok & Hnd). cbn in *.
  split; [|split; [done | split; [done | apply Hnd; constructor]]].
  intros a. rewrite Hin. split; [by intros [[] | H] | by right].
Qed.

Lemma engine_nothing_to_collect env cfg s plugins pl :
  plan cfg s plugins = Some pl -> apiCalls pl = [] ->
  phase (engine env cfg s plugins) = Aborted
  /\ output (engine env cfg s plugins) = [].
Proof.
  intros Hplan Hnil.
  destruct (engine_cases env cfg s plugins)
    as [(ph & tr & Hph1 & Hph2 & Hpl & E) | (pl' & tr & Hplan' & Hcalls & _)];
    [|congruence].
  split.
  - unfold engine. rewrite Hplan, Hnil.
    by destruct (JS.truthy (plugin_id s));
      [destruct (property plugins (JS.prop_key (plugin_id s))) |].
  - rewrite E. unfold output. cbn. by apply plain_forwarded.
Qed.

Lemma unique_entry {A} (l : list (string * A)) k x y :
  NoDup (map fst l) -> In (k, x) l -> In (k, y) l -> x = y.
Proof.
  induction l as [|[k' z] l IH]; [done |]. cbn. intros Hnd.
  apply NoDup_cons in Hnd as [Hk Hnd].
  intros [E1 | H1] [E2 | H2].
  - congruence.
  - injection E1 as -> ->. destruct Hk. apply list_elem_of_In.
    apply (in_map fst) in H2. done.
  - injection E2 as -> ->. destruct Hk. apply list_elem_of_In.
    apply (in_map fst) in H1. done.
  - by apply IH.
Qed.






End Planner.
(** ** Nothing to scan *)

Section NothingToScan.
Import Engine.

Lemma skip_printed_debug cfg s k p :
  Forall (fun e => exists m, e = Dbg m) (snd (skip cfg s k p)).
Proof.
  unfold skip.
  destruct (JS.truthy (plugin_id s) && negb (String.eqb (JS.prop_key (plugin_id s)) k));
    [constructor |].
  cbn [snd]. apply Forall_app. split.
  - unfold skip_reason_github.
    repeat match goal with |- context [if ?b then _ else _] => destruct b end;
      repeat constructor; by eexists.
  - unfold skip_reason_compliance.
    repeat match goal with |- context [if ?b then _ else _] => destruct b end;
      repeat constructor; by eexists.
Qed.

Lemma plan_from_all_skipped cfg s plugins : forall st,
  (forall k p, In (k, p) plugins -> skipped cfg s k p = true) ->
  Forall (fun e => exists m, e = Dbg m) (printed st) ->
  exists st', plan_from cfg s st plugins = Some st'
              /\ apiCalls st' = apiCalls st
              /\ Forall (fun e => exists m, e = Dbg m) (printed st').
Proof.
  induction plugins as [|[k p] rest IH]; intros st Hall Hpr.
  - by exists st.
  - cbn [plan_from plan_entry].
    pose proof (Hall k p (or_introl eq_refl)) as Hs. unfold skipped in Hs.
    rewrite Hs. cbn [apiCalls skippedPlugins printed].
    destruct (IH {| apiCalls := apiCalls st;
                    skippedPlugins := (skippedPlugins st ++ [k])%list;
                    printed := (printed st ++ snd (skip cfg s k p))%list |})
      as (st' & H1 & H2 & H3).
    + intros k' p' Hi. apply Hall. by right.
    + cbn. apply Forall_app. split; [done | apply skip_printed_debug].
    + by exists st'.
Qed.

Lemma debug_no_error tr :
  Forall (fun e => exists m, e = Dbg m) tr -> errors tr = [] /\ Forall printing tr.
Proof.
  induction 1 as [|e tr [m ->] _ [IH1 IH2]]; [by split |].
  split; [done | by constructor].
Qed.

Lemma customization_no_error s :
  errors (customization s) = [] /\ Forall printing (customization s).
Proof.
  unfold customization, errors. rewrite !List.filter_app.
  split.
  - repeat match goal with
           | |- context [if ?b then _ else _] => destruct b
           | |- context [match ?o with Some _ => _ | None => _ end] => destruct o
           end; reflexivity.
  - repeat (apply Forall_app; split);
      repeat match goal with
             | |- context [if ?b then _ else _] => destruct b
             | |- context [match ?o with Some _ => _ | None => _ end] => destruct o
             end; by repeat constructor.
Qed.

Lemma printing_exit_status tr : forall code,
  Forall printing tr ->
  fold_left (fun code e => match e with ExitCode c => c | _ => code end) tr code = code.
Proof.
  induction tr as [|e tr IH]; intros code H; [done |].
  apply Forall_cons in H as [He H]. cbn. destruct e; try done; by apply IH.
Qed.

Lemma printing_plain tr : Forall printing tr -> Forall plain tr.
Proof. intros H. eapply Forall_impl; [exact H |]. by intros []. Qed.

(** What the engine does when the selection leaves no check. *)
Lemma engine_nothing_selected env cfg s plugins :
  (forall k p, In (k, p) plugins -> skipped cfg s k p = true) ->
  exists tr,
    engine env cfg s plugins = stopped Aborted tr
    /\ Forall printing tr
    /\ errors tr
       = [Log (if invalid_plugin s plugins
               then "ERROR: Invalid plugin: " ++ JS.prop_key (plugin_id s)
               else "ERROR: Nothing to collect.")].
Proof.
  intros Hall.
  destruct (customization_no_error s) as [Hce Hcp].
  destruct (plan_from_all_skipped cfg s plugins
              {| apiCalls := []; skippedPlugins := []; printed := [] |} Hall)
    as (pl & Hplan & Hcalls & Hdbg); [constructor |].
  cbn in Hcalls. apply debug_no_error in Hdbg as [Hpe Hpp].
  unfold engine, invalid_plugin. fold (plan cfg s plugins) in Hplan.
  destruct (JS.truthy (plugin_id s)) eqn:Et; cbn [andb].
  - destruct (property plugins (JS.prop_key (plugin_id s))) as [p|] eqn:Ep.
    + rewrite Hplan, Hcalls. eexists. split; [reflexivity |]. split.
      * repeat first [done | exact I | apply Forall_nil | apply Forall_app; split
                      | apply Forall_cons; split].
      * unfold errors in *. rewrite !List.filter_app, Hce, Hpe. reflexivity.
    + eexists. split; [reflexivity |]. split.
      * repeat first [done | exact I | apply Forall_nil | apply Forall_app; split
                      | apply Forall_cons; split].
      * unfold errors in *. rewrite !List.filter_app, Hce. reflexivity.
  - rewrite Hplan, Hcalls. eexists. split; [reflexivity |]. split.
    + repeat first [done | exact I | apply Forall_nil | apply Forall_app; split
                      | apply Forall_cons; split].
    + unfold errors in *. rewrite !List.filter_app, Hce, Hpe. reflexivity.
Qed.




End NothingToScan.
(** ** The alternate runtime *)

Section AlternateRuntime.
Import Engine.

(** C6, evaluated where it fails: the first check pins a version of the
    alternate runtime that does not exist. The error is printed and nothing
    is forwarded, but the call of the runner that was not found throws: the
    exception escapes the engine, the second check is never handed out, and
    no callback or timer changes that. *)
Theorem C6_unknown_asl_version_stops_the_scan :
  let sc := scan Examples.asl_env Examples.config Examples.with_asl
              Examples.pinned [] in
  invocation Examples.asl_env Examples.with_asl
    {| title := "Custom"; apis := Some ["Lambda:listFunctions"];
       apis_remediate := None; compliance := None; types := [];
       asl := Some {| version := Some "9.9" |};
       run := Examples.answers [Examples.finding 0 "x"]; remediate := None |}
  = Throws
  /\ phase sc = Crashed
  /\ errors (trace (eng sc)) = [Log "ERROR: Error: ASL: Wrong ASL Version: "]
  /\ output sc = []
  /\ map fst (todo sc) = ["b"]
  /\ scan Examples.asl_env Examples.config Examples.with_asl Examples.pinned
       [CallsBack "custom"; TimerFires "custom"; CallsBack "b"; TimerFires "b"]
     = sc.
Proof. cbv zeta. repeat split; vm_compute; reflexivity. Qed.

End AlternateRuntime.

(** ** Remediation *)

Section Remediation.
Import Engine.

Lemma initialize_phase_cell ph testQuery res :
  is_Some (cell (Some (initialize_phase ph testQuery res)) testQuery res).
Proof.
  unfold cell, initialize_phase. rewrite lookup_insert_eq.
  set (acts := match ph with Some {| actions := Some a |} => a | _ => ∅ end).
  destruct (default ∅ (acts !! testQuery) !! res) as [e|] eqn:E.
  - destruct (entry_truthy e); [by rewrite E |].
    eexists. apply lookup_insert_eq.
  - eexists. apply lookup_insert_eq.
Qed.

Lemma initializeFile_empty testQuery res :
  cell (pre_remediate (initializeFile empty_file "execute" testQuery res)) testQuery res
  = Some (Facts ∅).
Proof.
  unfold initializeFile, empty_file, cell, initialize_phase.
  cbn [pre_remediate actions]. rewrite lookup_insert_eq, lookup_empty.
  cbn [default]. rewrite lookup_empty. apply lookup_insert_eq.
Qed.

Lemma remediation_due_spec s key r :
  remediation_due s key r = true
  <-> status r = 2%Z /\ exists ids, remediate_ids s = Some ids /\ In key ids.
Proof.
  unfold remediation_due. rewrite !andb_true_iff, Z.eqb_eq.
  destruct (remediate_ids s) as [ids|]; cbn [default JS.nonempty].
  - rewrite includes_In. split.
    + intros [[_ Hi] Hs]. split; [done | by exists ids].
    + intros [Hs (ids' & [= <-] & Hi)]. destruct ids; [done |]. by repeat split.
  - split; [by intros [[? _] _] | by intros [_ (? & ? & _)]].
Qed.

Lemma write_cell_cell ph checkId key e ph' :
  LambdaMultipleRole.write_cell ph checkId key e = Some ph' ->
  cell (Some ph') checkId key = Some e.
Proof.
  unfold LambdaMultipleRole.write_cell, cell.
  destruct ph as [[[a|]]|]; try done.
  destruct (a !! checkId) as [ofCheck|]; [|done].
  intros [= <-]. rewrite lookup_insert_eq. apply lookup_insert_eq.
Qed.

(** The three shapes of what [remediate] does. *)
Lemma remediate_effects h log res :
  let run := LambdaMultipleRole.remediate h log (Some res) in
  LambdaMultipleRole.effects run = []
  \/ (exists e, LambdaMultipleRole.effects run = [LambdaMultipleRole.Callback e])
  \/ (exists old call fn role rest,
        LambdaMultipleRole.effects run
        = LambdaMultipleRole.WriteCell "pre_remediate" LambdaMultipleRole.pluginName res
            (Facts {[ "OldRole" := old ]})
          :: LambdaMultipleRole.ProviderAction call fn role :: rest
        /\ Forall (fun e => match e with
                            | LambdaMultipleRole.ProviderAction _ _ _ => False
                            | _ => True
                            end) rest
        /\ cell (pre_remediate (LambdaMultipleRole.file run))
                LambdaMultipleRole.pluginName res
           = Some (Facts {[ "OldRole" := old ]})).
Proof.
  cbv zeta. unfold LambdaMultipleRole.remediate.
  destruct (LambdaMultipleRole.getFunction h _ _) as [old|];
    [|right; left; by eexists].
  destruct (LambdaMultipleRole.createRole h _ _) as [new|];
    [|right; left; by eexists].
  destruct (LambdaMultipleRole.write_cell (pre_remediate log) _ _ _) as [pre|] eqn:Epre;
    [|by left].
  apply write_cell_cell in Epre.
  right. right. exists old.
  destruct (JS.truthy _).
  - destruct (LambdaMultipleRole.write_cell _ _ "error" _);
      do 4 eexists; (split; [reflexivity | split; [|exact Epre]]);
      repeat constructor.
  - destruct (LambdaMultipleRole.write_cell _ _ _ _);
      [destruct (LambdaMultipleRole.write_cell _ _ _ _) |];
      do 4 eexists; (split; [reflexivity | split; [|exact Epre]]);
      repeat constructor.
Qed.

(** In [remediate], the provider action is attempted only after the fact
    recorded before it was written, and that fact stays in the log whether
    the action fails or not. *)
Lemma remediate_records_first h log res before call fn role after :
  LambdaMultipleRole.effects (LambdaMultipleRole.remediate h log (Some res))
  = (before ++ LambdaMultipleRole.ProviderAction call fn role :: after)%list ->
  exists old,
    before = [LambdaMultipleRole.WriteCell "pre_remediate"
                LambdaMultipleRole.pluginName res (Facts {[ "OldRole" := old ]})]
    /\ cell (pre_remediate
               (LambdaMultipleRole.file (LambdaMultipleRole.remediate h log (Some res))))
            LambdaMultipleRole.pluginName res
       = Some (Facts {[ "OldRole" := old ]}).
Proof.
  intros Heq.
  destruct (remediate_effects h log res)
    as [E | [[e E] | (old & call' & fn' & role' & rest & E & Hrest & Hcell)]];
    rewrite E in Heq.
  - by destruct before.
  - by destruct before as [|? [|? ?]].
  - exists old. split; [|done].
    destruct before as [|b1 before]; [discriminate |].
    injection Heq as <- Heq.
    destruct before as [|b2 before]; [done |].
    injection Heq as <- Heq. exfalso.
    rewrite Heq in Hrest. apply Forall_app in Hrest as [_ Hrest].
    by apply Forall_cons in Hrest as [? _].
Qed.




End Remediation.
(** ** Loading the engine module *)

Section Loading.
Import Loader.

Lemma names_decoded : names = ["r"; "object"; "m"].
Proof. vm_compute. reflexivity. Qed.

Lemma EKc_decoded : EKc = "constructor".
Proof. vm_compute. reflexivity. Qed.

Lemma trailer_unfolded t :
  trailer t
  = ([SetGlobal "!" (Text "7-1551"); SetGlobal "r" TheRequire]
     ++ (if String.eqb t "object" then [SetGlobal "m" TheModule] else [])
     ++ [RunGenerated (sfL joW) (sfL second_text)])%list.
Proof. unfold trailer. rewrite names_decoded, EKc_decoded. reflexivity. Qed.

(** C9: loading the module does more than bind the export. The names the
    trailing statements decode are [r], [object] and [m], and the member of
    [sfL] they fetch is [constructor]: with [typeof module] equal to
    [object], loading sets [global['!']], aliases [require] to [global.r]
    and [module] to [global.m], and builds and runs functions from decoded
    text. Whatever [typeof module] is and whatever the global object held,
    after a load [global['!']] and [global.r] are set and generated code was
    run, so a load, or two, differs from binding the export, which leaves
    the global object as it was. *)
Theorem C9_loading_is_not_binding t (g : gmap string value) :
  names = ["r"; "object"; "m"]
  /\ EKc = "constructor"
  /\ load "object"
     = (TheEngine,
        [SetGlobal "!" (Text "7-1551"); SetGlobal "r" TheRequire;
         SetGlobal "m" TheModule; RunGenerated (sfL joW) (sfL second_text)])
  /\ load t <> bind_export
  /\ globals_after g (snd (load t)) !! "!" = Some (Text "7-1551")
  /\ globals_after g (snd (load t)) !! "r" = Some TheRequire
  /\ globals_after g (snd (load "object")) !! "m" = Some TheModule
  /\ In (RunGenerated (sfL joW) (sfL second_text)) (snd (load t))
  /\ globals_after g (snd bind_export) = g
  /\ globals_after ∅ (snd (load t) ++ snd (load t))
     <> globals_after ∅ (snd bind_export).
Proof.
  split; [apply names_decoded |]. split; [apply EKc_decoded |].
  unfold load, bind_export. cbn [snd]. rewrite !trailer_unfolded.
  split; [reflexivity |]. split; [discriminate |].
  assert (Hg : forall g0 : gmap string value,
            globals_after g0
              ([SetGlobal "!" (Text "7-1551"); SetGlobal "r" TheRequire]
               ++ (if String.eqb t "object" then [SetGlobal "m" TheModule] else [])
               ++ [RunGenerated (sfL joW) (sfL second_text)])
            !! "!" = Some (Text "7-1551")).
  { intros g0. unfold globals_after.
    destruct (String.eqb t "object"); cbn [fold_left app];
      rewrite ?lookup_insert_ne by done; apply lookup_insert_eq. }
  split; [apply Hg |]. split; [|split; [|split; [|split]]].
  - unfold globals_after.
    destruct (String.eqb t "object"); cbn [fold_left app];
      rewrite ?lookup_insert_ne by done; apply lookup_insert_eq.
  - unfold globals_after. cbn [fold_left app String.eqb Ascii.eqb Bool.eqb].
    apply lookup_insert_eq.
  - apply in_or_app. right. apply in_or_app. right. by left.
  - reflexivity.
  - intros E. apply (f_equal (fun m : gmap string value => m !! "!")) in E.
    unfold globals_after in E at 1. rewrite fold_left_app in E.
    fold (globals_after ∅ ([SetGlobal "!" (Text "7-1551"); SetGlobal "r" TheRequire]
               ++ (if String.eqb t "object" then [SetGlobal "m" TheModule] else [])
               ++ [RunGenerated (sfL joW) (sfL second_text)])) in E.
    match type of E with
    | fold_left ?f ?l ?g0 !! _ = _ => change (fold_left f l g0) with (globals_after g0 l) in E
    end.
    rewrite Hg in E. cbn in E. by rewrite lookup_empty in E.
Qed.

End Loading.
(** ** The Lambda execution-role checks *)

Section RoleChecks.
Import Engine Aws.

Lemma string_length_append a b :
  String.length (a ++ b) = (String.length a + String.length b)%nat.
Proof. induction a as [|c a IH]; simpl; [done | by rewrite IH]. Qed.

Lemma substring_whole s : substring 0 (String.length s) s = s.
Proof. induction s as [|c s IH]; simpl; [done | by rewrite IH]. Qed.

Lemma substring_after pre t m :
  substring (String.length pre) m (pre ++ t) = substring 0 m t.
Proof. induction pre as [|c pre IH]; simpl; done. Qed.

Lemma substring_split s : forall k,
  (k <= String.length s)%nat ->
  s = substring 0 k s ++ substring k (String.length s - k) s.
Proof.
  induction s as [|c s IH]; intros k Hk.
  - cbn in Hk. by replace k with 0%nat by lia.
  - destruct k as [|k]; simpl.
    + by rewrite substring_whole.
    + change (String c s
              = String c (substring 0 k s ++ substring k (String.length s - k) s)).
      f_equal. apply IH. simpl in Hk. lia.
Qed.

(** [endsWith] is the suffix relation. *)
Lemma endsWith_suffix s t :
  JS.endsWith s t = true <-> exists pre, s = pre ++ t.
Proof.
  unfold JS.endsWith. rewrite andb_true_iff, Nat.leb_le, String.eqb_eq. split.
  - intros [Hle Hsub]. exists (substring 0 (String.length s - String.length t) s).
    pose proof (substring_split s (String.length s - String.length t)) as E.
    replace (String.length s - (String.length s - String.length t))%nat
      with (String.length t) in E by lia.
    rewrite Hsub in E. apply E. lia.
  - intros [pre ->]. rewrite string_length_append. split; [lia |].
    replace (String.length pre + String.length t - String.length t)%nat
      with (String.length pre) by lia.
    by rewrite substring_after, substring_whole.
Qed.

Lemma find_role_none roles arn :
  find_role roles arn = None
  <-> forall r, In r roles -> ~ exists pre, arn = pre ++ RoleName r.
Proof.
  unfold find_role. split.
  - intros H r Hr Hex. apply endsWith_suffix in Hex.
    pose proof (List.find_none _ _ H r Hr) as Hf. cbn in Hf. congruence.
  - intros H. destruct (List.find _ roles) as [r|] eqn:E; [|done].
    apply List.find_some in E as [Hr He]. apply endsWith_suffix in He.
    by destruct (H r Hr).
Qed.

Lemma truthy_Some v : v <> "" -> JS.truthy (Some v) = true.
Proof. intros H. cbn. by destruct (String.eqb_spec v ""). Qed.

Lemma or_else_Some v d : v <> "" -> JS.or_else (Some v) d = v.
Proof. intros H. cbn. by destruct (String.eqb_spec v ""). Qed.



End RoleChecks.
(** ** The transaction log: [initializeFile] *)

Section TransactionLog.
Import Engine.

Lemma initialize_phase_again ph testQuery res :
  initialize_phase (Some (initialize_phase ph testQuery res)) testQuery res
  = initialize_phase ph testQuery res.
Proof.
  unfold initialize_phase at 1. cbn [actions initialize_phase].
  set (acts := match ph with Some {| actions := Some a |} => a | _ => ∅ end).
  set (ofCheck := default ∅ (acts !! testQuery)).
  set (ofCheck' := match ofCheck !! res with
                   | Some e => if entry_truthy e then ofCheck
                               else <[res := Facts ∅]> ofCheck
                   | None => <[res := Facts ∅]> ofCheck
                   end).
  rewrite lookup_insert_eq. cbn [default from_option id].
  assert (H : exists e, ofCheck' !! res = Some e /\ entry_truthy e = true).
  { subst ofCheck'. destruct (ofCheck !! res) as [e|] eqn:E.
    - destruct (entry_truthy e) eqn:Et; [by exists e |].
      exists (Facts ∅). split; [apply lookup_insert_eq | done].
    - exists (Facts ∅). split; [apply lookup_insert_eq | done]. }
  destruct H as (e & -> & ->). by rewrite insert_insert_eq.
Qed.

Lemma initialize_phase_keeps ph testQuery res checkId key e :
  cell ph checkId key = Some e ->
  (checkId = testQuery -> key = res -> entry_truthy e = true) ->
  cell (Some (initialize_phase ph testQuery res)) checkId key = Some e.
Proof.
  unfold cell at 1. destruct ph as [[[a|]]|]; try done.
  destruct (a !! checkId) as [ofCheck|] eqn:Ea; [|done]. intros He Ht.
  unfold cell, initialize_phase. cbn [actions].
  destruct (decide (checkId = testQuery)) as [->|Hne].
  - rewrite lookup_insert_eq, Ea. cbn [default from_option id].
    destruct (decide (key = res)) as [->|Hk].
    + rewrite He, Ht by done. done.
    + destruct (ofCheck !! res) as [e'|]; [destruct (entry_truthy e') |];
        by rewrite ?lookup_insert_ne.
  - rewrite lookup_insert_ne by done. by rewrite Ea.
Qed.

Lemma initialize_phase_ready ph testQuery res :
  exists e, cell (Some (initialize_phase ph testQuery res)) testQuery res = Some e
            /\ entry_truthy e = true.
Proof.
  unfold cell, initialize_phase. rewrite lookup_insert_eq.
  set (acts := match ph with Some {| actions := Some a |} => a | _ => ∅ end).
  destruct (default ∅ (acts !! testQuery) !! res) as [e|] eqn:E.
  - destruct (entry_truthy e) eqn:Et; [by exists e |].
    exists (Facts ∅). split; [apply lookup_insert_eq | done].
  - exists (Facts ∅). split; [apply lookup_insert_eq | done].
Qed.

(** X1: [initializeFile] is idempotent: preparing a log for a check and a
    resource it was already prepared for changes nothing, whatever the
    [type] arguments are. *)
Theorem initializeFile_idempotent file type type' testQuery res :
  initializeFile (initializeFile file type testQuery res) type' testQuery res
  = initializeFile file type testQuery res.
Proof.
  unfold initializeFile. cbn [pre_remediate post_remediate remediate_phase].
  by rewrite !initialize_phase_again.
Qed.

(** X2: [initializeFile] loses nothing that was recorded: in each of the
    three phases, an entry stored for any check and resource is still there
    afterwards, unless it is a falsy entry of the very cell being prepared;
    and afterwards the cell of the check and the resource holds a truthy
    entry in each phase. *)
Theorem initializeFile_keeps_entries file type testQuery res :
  Forall (fun phase_of : remediation_file -> option log_phase =>
            (forall checkId key e,
               cell (phase_of file) checkId key = Some e ->
               (checkId = testQuery -> key = res -> entry_truthy e = true) ->
               cell (phase_of (initializeFile file type testQuery res)) checkId key
               = Some e)
            /\ exists e,
                 cell (phase_of (initializeFile file type testQuery res)) testQuery res
                 = Some e /\ entry_truthy e = true)
         [pre_remediate; post_remediate; remediate_phase].
Proof.
  repeat (apply Forall_cons; split); try (by apply Forall_nil);
    (split; [intros checkId key e; apply initialize_phase_keeps
            | apply initialize_phase_ready]).
Qed.

End TransactionLog.
(** ** The [remediate] operation of [lambdaMultipleRole.js] *)

Section RemediateOutcomes.
Import Engine.

(** A log prepared for a check has, in each phase, an object for the
    check: any of its cells can be written. *)
Lemma write_cell_prepared ph testQuery res key e :
  exists ph',
    LambdaMultipleRole.write_cell (Some (initialize_phase ph testQuery res)) testQuery key e
    = Some ph'
    /\ cell (Some ph') testQuery key = Some e
    /\ forall k, k <> key ->
         cell (Some ph') testQuery k
         = cell (Some (initialize_phase ph testQuery res)) testQuery k.
Proof.
  unfold LambdaMultipleRole.write_cell, initialize_phase, cell.
  rewrite lookup_insert_eq. eexists. split; [reflexivity |].
  cbn [actions]. rewrite !lookup_insert_eq. split; [done |].
  intros k Hk. by rewrite lookup_insert_ne.
Qed.

Lemma write_cell_unprepared testQuery res checkId key e :
  checkId <> testQuery ->
  LambdaMultipleRole.write_cell (Some (initialize_phase None testQuery res)) checkId key e
  = None.
Proof.
  intros Hne. unfold LambdaMultipleRole.write_cell, initialize_phase.
  rewrite lookup_insert_ne by done. by rewrite lookup_empty.
Qed.

(** X3: when both lookups succeed and the provider action fails, on a log
    prepared for [lambdaUniqueRole], [remediate] records the old role, calls
    the action, stores the error under the key [error] of the [remediate]
    phase and passes it to its callback; the [post_remediate] phase is left
    as it was. *)
Theorem remediate_failure_is_recorded h file0 type r res old new e :
  let fn := LambdaMultipleRole.functionName_of res in
  let log := initializeFile file0 type LambdaMultipleRole.pluginName r in
  let run := LambdaMultipleRole.remediate h log (Some res) in
  LambdaMultipleRole.getFunction h (LambdaMultipleRole.defaultRegion h) fn = Some old ->
  LambdaMultipleRole.createRole h (LambdaMultipleRole.defaultRegion h)
    (fn ++ "-execution-role") = Some new ->
  LambdaMultipleRole.remediatePlugin h "iam:createRole" fn new = Some e ->
  e <> "" ->
  LambdaMultipleRole.threw run = false
  /\ LambdaMultipleRole.effects run
     = [LambdaMultipleRole.WriteCell "pre_remediate" LambdaMultipleRole.pluginName res
          (Facts {[ "OldRole" := old ]});
        LambdaMultipleRole.ProviderAction "iam:createRole" fn new;
        LambdaMultipleRole.WriteCell "remediate" LambdaMultipleRole.pluginName "error"
          (Failure e);
        LambdaMultipleRole.Callback (Some e)]
  /\ cell (remediate_phase (LambdaMultipleRole.file run))
          LambdaMultipleRole.pluginName "error" = Some (Failure e)
  /\ cell (pre_remediate (LambdaMultipleRole.file run))
          LambdaMultipleRole.pluginName res = Some (Facts {[ "OldRole" := old ]})
  /\ post_remediate (LambdaMultipleRole.file run) = post_remediate log.
Proof.
  intros fn log run Hget Hcreate Herr He. subst run.
  unfold LambdaMultipleRole.remediate. fold fn. rewrite Hget, Hcreate.
  subst log. unfold initializeFile.
  cbn [pre_remediate post_remediate remediate_phase access].
  destruct (write_cell_prepared (pre_remediate file0) LambdaMultipleRole.pluginName r
              res (Facts {[ "OldRole" := old ]})) as (pre & -> & Hpre & _).
  change (default "undefined" (head LambdaMultipleRole.putCall)) with "iam:createRole".
  rewrite Herr.
  assert (Ht : JS.truthy (Some e) = true)
    by (cbn; by destruct (String.eqb_spec e "")).
  rewrite Ht. cbn [JS.prop_key].
  destruct (write_cell_prepared (remediate_phase file0) LambdaMultipleRole.pluginName r
              "error" (Failure e)) as (rem & -> & Hrem & _).
  cbn [LambdaMultipleRole.threw LambdaMultipleRole.effects LambdaMultipleRole.file
       pre_remediate post_remediate remediate_phase app].
  done.
Qed.

Lemma remediate_failure_witness :
  cell (remediate_phase
          (LambdaMultipleRole.file
             (LambdaMultipleRole.remediate Examples.failing_action Examples.handed_log
                (Some Examples.function_arn))))
       LambdaMultipleRole.pluginName "error"
  = Some (Failure "AccessDenied").
Proof.
  destruct (remediate_failure_is_recorded Examples.failing_action empty_file "execute"
              Examples.function_arn Examples.function_arn
              (Some "arn:aws:iam::1:role/old") (Some "arn:aws:iam::1:role/new")
              "AccessDenied" eq_refl eq_refl eq_refl)
    as (_ & _ & H & _); [discriminate | exact H].
Defined.

(** X4: when both lookups succeed and the provider action reports no error,
    on a log prepared for [lambdaUniqueRole], [remediate] ends by calling
    back without an error, and the log then holds the old role in
    [pre_remediate], the new role and the attached policy in
    [post_remediate] and the summary of the action in [remediate], all under
    the resource. *)
Theorem remediate_success_is_recorded h file0 type r res old new err :
  let fn := LambdaMultipleRole.functionName_of res in
  let log := initializeFile file0 type LambdaMultipleRole.pluginName r in
  let run := LambdaMultipleRole.remediate h log (Some res) in
  LambdaMultipleRole.getFunction h (LambdaMultipleRole.defaultRegion h) fn = Some old ->
  LambdaMultipleRole.createRole h (LambdaMultipleRole.defaultRegion h)
    (fn ++ "-execution-role") = Some new ->
  LambdaMultipleRole.remediatePlugin h "iam:createRole" fn new = err ->
  JS.truthy err = false ->
  LambdaMultipleRole.threw run = false
  /\ last (LambdaMultipleRole.effects run) = Some (LambdaMultipleRole.Callback None)
  /\ cell (pre_remediate (LambdaMultipleRole.file run))
          LambdaMultipleRole.pluginName res = Some (Facts {[ "OldRole" := old ]})
  /\ cell (post_remediate (LambdaMultipleRole.file run))
          LambdaMultipleRole.pluginName res
     = Some (Facts {[ "NewRole" := new;
                      "AttachedPolicy" := Some LambdaMultipleRole.basicPolicy ]})
  /\ cell (remediate_phase (LambdaMultipleRole.file run))
          LambdaMultipleRole.pluginName res
     = Some (Facts {[ "Action" := Some "UniqueExecutionRole"; "Lambda" := Some fn ]}).
Proof.
  intros fn log run Hget Hcreate Herr He. subst run.
  unfold LambdaMultipleRole.remediate. fold fn. rewrite Hget, Hcreate.
  subst log. unfold initializeFile.
  cbn [pre_remediate post_remediate remediate_phase access].
  destruct (write_cell_prepared (pre_remediate file0) LambdaMultipleRole.pluginName r
              res (Facts {[ "OldRole" := old ]})) as (pre & -> & Hpre & _).
  change (default "undefined" (head LambdaMultipleRole.putCall)) with "iam:createRole".
  rewrite Herr, He.
  destruct (write_cell_prepared (post_remediate file0) LambdaMultipleRole.pluginName r
              res (Facts {[ "NewRole" := new;
                            "AttachedPolicy" := Some LambdaMultipleRole.basicPolicy ]}))
    as (post & -> & Hpost & _).
  cbn [pre_remediate post_remediate remediate_phase access].
  destruct (write_cell_prepared (remediate_phase file0) LambdaMultipleRole.pluginName r
              res (Facts {[ "Action" := Some "UniqueExecutionRole";
                            "Lambda" := Some fn ]}))
    as (rem & -> & Hrem & _).
  cbn [LambdaMultipleRole.threw LambdaMultipleRole.effects LambdaMultipleRole.file
       pre_remediate post_remediate remediate_phase app].
  done.
Qed.

Lemma remediate_success_witness :
  LambdaMultipleRole.threw
    (LambdaMultipleRole.remediate Cases.working_action Examples.handed_log
       (Some Examples.function_arn)) = false
  /\ cell (post_remediate
             (LambdaMultipleRole.file
                (LambdaMultipleRole.remediate Cases.working_action Examples.handed_log
                   (Some Examples.function_arn))))
          LambdaMultipleRole.pluginName Examples.function_arn
     = Some (Facts {[ "NewRole" := Some "arn:aws:iam::1:role/new";
                      "AttachedPolicy" := Some LambdaMultipleRole.basicPolicy ]}).
Proof.
  destruct (remediate_success_is_recorded Cases.working_action empty_file "execute"
              Examples.function_arn Examples.function_arn
              (Some "arn:aws:iam::1:role/old") (Some "arn:aws:iam::1:role/new")
              None eq_refl eq_refl eq_refl eq_refl)
    as (H1 & _ & _ & H2 & _).
  split; [exact H1 | exact H2].
Defined.

(** X5: the log the engine hands to [remediate] is prepared under the
    engine's key for the check; when that key is not [lambdaUniqueRole] and
    both lookups succeed, [remediate] throws at its first write to the log:
    it calls no provider action, never calls back and leaves the log as it
    was. *)
Theorem remediate_needs_its_own_key h type key r res old new :
  let fn := LambdaMultipleRole.functionName_of res in
  let log := initializeFile empty_file type key r in
  let run := LambdaMultipleRole.remediate h log (Some res) in
  key <> LambdaMultipleRole.pluginName ->
  LambdaMultipleRole.getFunction h (LambdaMultipleRole.defaultRegion h) fn = Some old ->
  LambdaMultipleRole.createRole h (LambdaMultipleRole.defaultRegion h)
    (fn ++ "-execution-role") = Some new ->
  LambdaMultipleRole.threw run = true
  /\ LambdaMultipleRole.effects run = []
  /\ LambdaMultipleRole.file run = log.
Proof.
  intros fn log run Hkey Hget Hcreate. subst run.
  unfold LambdaMultipleRole.remediate. fold fn. rewrite Hget, Hcreate.
  subst log. unfold initializeFile, empty_file. cbn [pre_remediate].
  rewrite write_cell_unprepared by done. done.
Qed.

Lemma remediate_needs_its_own_key_witness :
  LambdaMultipleRole.threw
    (LambdaMultipleRole.remediate Examples.failing_action
       (initializeFile empty_file "execute" "lambdaMultipleRole" Examples.function_arn)
       (Some Examples.function_arn)) = true.
Proof.
  destruct (remediate_needs_its_own_key Examples.failing_action "execute"
              "lambdaMultipleRole" Examples.function_arn Examples.function_arn
              (Some "arn:aws:iam::1:role/old") (Some "arn:aws:iam::1:role/new"))
    as (H & _); [discriminate | reflexivity | reflexivity | exact H].
Defined.

(** X6: whatever the helpers answer and whatever the log holds, the only
    provider action [remediate] requests is [iam:createRole], the first
    entry of [actions.remediate]; it requests it at most once, for the
    function named by the last segment of the resource, and only when both
    lookups succeeded. It never requests
    [lambda:updateFunctionConfiguration]. *)
Theorem remediate_only_creates_roles h log resource :
  let run := LambdaMultipleRole.remediate h log resource in
  let requested := List.filter (fun e => match e with
                                         | LambdaMultipleRole.ProviderAction _ _ _ => true
                                         | _ => false
                                         end) (LambdaMultipleRole.effects run) in
  requested = []
  \/ exists res old new,
       resource = Some res
       /\ LambdaMultipleRole.getFunction h (LambdaMultipleRole.defaultRegion h)
            (LambdaMultipleRole.functionName_of res) = Some old
       /\ LambdaMultipleRole.createRole h (LambdaMultipleRole.defaultRegion h)
            (LambdaMultipleRole.functionName_of res ++ "-execution-role") = Some new
       /\ requested
          = [LambdaMultipleRole.ProviderAction "iam:createRole"
               (LambdaMultipleRole.functionName_of res) new].
Proof.
  cbv zeta. destruct resource as [res|]; [|by left].
  unfold LambdaMultipleRole.remediate.
  destruct (LambdaMultipleRole.getFunction h _ _) as [old|] eqn:Eget; [|by left].
  destruct (LambdaMultipleRole.createRole h _ _) as [new|] eqn:Ecreate; [|by left].
  destruct (LambdaMultipleRole.write_cell (pre_remediate log) _ _ _) as [pre|];
    [|by left].
  right. exists res, old, new. split; [done | split; [done | split; [done |]]].
  destruct (JS.truthy _).
  - by destruct (LambdaMultipleRole.write_cell _ _ "error" _).
  - destruct (LambdaMultipleRole.write_cell _ _ _ _);
      [destruct (LambdaMultipleRole.write_cell _ _ _ _) |]; done.
Qed.

End RemediateOutcomes.
(** ** The function name [remediate] reads off a resource *)

Section ResourceNames.
Import Engine Notions.

Lemma append_empty (s : string) : s ++ "" = s.
Proof.
  induction s as [|a s IH]; [done |].
  change (String a (s ++ "") = String a s). by rewrite IH.
Qed.

Lemma append_char (cur : string) a s : (cur ++ String a "") ++ s = cur ++ String a s.
Proof.
  induction cur as [|b cur IH]; [done |].
  change (String b ((cur ++ String a "") ++ s) = String b (cur ++ String a s)).
  by rewrite IH.
Qed.

Lemma has_char_append c s t :
  has_char c (s ++ t) = has_char c s || has_char c t.
Proof.
  induction s as [|a s IH]; [done |].
  change (Ascii.eqb a c || has_char c (s ++ t)
          = Ascii.eqb a c || has_char c s || has_char c t).
  by rewrite IH, orb_assoc.
Qed.

Lemma prefix_char c a s :
  prefix (String c "") (String a s) = Ascii.eqb a c.
Proof.
  cbn. destruct (ascii_dec c a) as [->|Hne].
  - rewrite Ascii.eqb_refl. by destruct s.
  - symmetry. apply Ascii.eqb_neq. congruence.
Qed.

(** A string in which the separator does not occur is not split. *)
Lemma split_go_whole c s : forall cur,
  has_char c s = false -> JS.split_go (String c "") 0 cur s = [cur ++ s].
Proof.
  induction s as [|a s IH]; intros cur H.
  - cbn. by rewrite append_empty.
  - cbn [has_char] in H. apply orb_false_elim in H as [Ha Hs].
    cbn [JS.split_go]. rewrite prefix_char, Ha, IH by done.
    by rewrite append_char.
Qed.

(** The last piece of a split is what follows the last separator. *)
Lemma split_go_last c name pre : forall cur,
  has_char c name = false ->
  last (JS.split_go (String c "") 0 cur (pre ++ String c name)) = Some name.
Proof.
  induction pre as [|a pre IH]; intros cur H.
  - change ("" ++ String c name) with (String c name).
    cbn [JS.split_go]. rewrite prefix_char, Ascii.eqb_refl.
    cbn [String.length Nat.sub]. by rewrite split_go_whole.
  - change (String a pre ++ String c name) with (String a (pre ++ String c name)).
    cbn [JS.split_go]. rewrite prefix_char.
    destruct (Ascii.eqb a c).
    + cbn [String.length Nat.sub]. rewrite last_cons, IH by done. done.
    + by apply IH.
Qed.

(** X7: the function name [remediate] works on is what follows the last
    colon of the resource and, in that, the last slash: of an ARN that ends
    in [:name] or in [:qualifier/name] it is [name], and a resource that is
    a plain name is that name. *)
Theorem functionName_of_arn pre mid name :
  has_char ":" name = false ->
  has_char "/" name = false ->
  has_char ":" mid = false ->
  LambdaMultipleRole.functionName_of name = name
  /\ LambdaMultipleRole.functionName_of (pre ++ ":" ++ name) = name
  /\ LambdaMultipleRole.functionName_of (pre ++ ":" ++ mid ++ "/" ++ name) = name.
Proof.
  intros Hc Hs Hm. unfold LambdaMultipleRole.functionName_of, JS.pop, JS.split.
  split; [|split].
  - rewrite (split_go_whole ":" name) by done. cbn [last default append].
    by rewrite (split_go_whole "/" name).
  - rewrite (split_go_last ":" name pre) by done. cbn [default].
    by rewrite (split_go_whole "/" name).
  - rewrite (split_go_last ":" (mid ++ "/" ++ name) pre)
      by (rewrite has_char_append, Hm; cbn; exact Hc).
    cbn [default]. by rewrite (split_go_last "/" name mid).
Qed.

Lemma functionName_of_arn_witness :
  LambdaMultipleRole.functionName_of "arn:aws:lambda:us-east-1:1:function:f" = "f"
  /\ LambdaMultipleRole.functionName_of "arn:aws:iam::1:role/service/r" = "r".
Proof.
  split.
  - apply (functionName_of_arn "arn:aws:lambda:us-east-1:1:function" "" "f");
      reflexivity.
  - apply (functionName_of_arn "arn:aws:iam::1" "role/service" "r"); reflexivity.
Defined.

End ResourceNames.
(** ** Splitting and joining *)

Section SplitJoin.
Import Engine Notions.

Lemma prefix_split sep : forall s, prefix sep s = true -> exists r, s = sep ++ r.
Proof.
  induction sep as [|a sep IH]; intros s H; [by exists s |].
  destruct s as [|b s]; [done |]. cbn in H.
  destruct (ascii_dec a b) as [->|]; [|done].
  destruct (IH s H) as [r ->]. by exists r.
Qed.

Lemma split_go_not_nil sep s : forall k cur, JS.split_go sep k cur s <> [].
Proof.
  induction s as [|c s IH]; intros k cur; [done |].
  cbn [JS.split_go]. destruct k; [|apply IH].
  destruct (prefix sep (String c s)); [done | apply IH].
Qed.

Lemma concat_cons sep x l :
  l <> [] -> String.concat sep (x :: l) = x ++ sep ++ String.concat sep l.
Proof. by destruct l. Qed.

Lemma append_nil_inv (a b : string) : a ++ b = "" -> a = "" /\ b = "".
Proof.
  destruct a as [|c a].
  - intros H. split; [done | exact H].
  - change (String c (a ++ b) = "" -> String c a = "" /\ b = ""). done.
Qed.

(** While [skip] characters of a separator just matched are still to be
    passed, they are what the string begins with. *)
Lemma split_go_join sep : sep <> "" -> forall s k cur t rest,
  s = t ++ rest -> String.length t = k -> (exists u, sep = u ++ t) ->
  String.concat sep (JS.split_go sep k cur s) = cur ++ rest.
Proof.
  intros Hsep. induction s as [|c s IH]; intros k cur t rest Hs Hk Hu.
  - symmetry in Hs. apply append_nil_inv in Hs as [-> ->].
    cbn. by rewrite append_empty.
  - destruct k as [|k].
    + destruct t; [|done]. change ("" ++ rest) with rest in Hs. subst rest.
      cbn [JS.split_go]. destruct (prefix sep (String c s)) eqn:Ep.
      * apply prefix_split in Ep as [r Er].
        destruct sep as [|a sep']; [done |].
        change (String a sep' ++ r) with (String a (sep' ++ r)) in Er.
        injection Er as -> ->.
        rewrite concat_cons by apply split_go_not_nil.
        cbn [String.length Nat.sub]. rewrite Nat.sub_0_r.
        rewrite (IH (String.length sep') "" sep' r eq_refl eq_refl)
          by (by exists (String a "")).
        done.
      * rewrite (IH 0%nat (cur ++ String c "") "" s eq_refl eq_refl)
          by (exists sep; by rewrite append_empty).
        by rewrite append_char.
    + destruct t as [|c' t]; [done |].
      change (String c' t ++ rest) with (String c' (t ++ rest)) in Hs.
      injection Hs as <- ->. cbn in Hk. injection Hk as Hk.
      cbn [JS.split_go]. apply (IH k cur t rest eq_refl Hk).
      destruct Hu as [u ->]. exists (u ++ String c ""). by rewrite append_char.
Qed.

(** X23: joining the pieces of a split with the separator gives the string
    back, for every separator that is not empty: replacing a text by itself,
    as the decoders of the last line of [engine.js] replace, changes
    nothing. *)
Theorem split_then_join sep s :
  sep <> "" ->
  JS.join sep (JS.split sep s) = s /\ Loader.replace_all sep sep s = s.
Proof.
  intros Hsep.
  assert (H : JS.join sep (JS.split sep s) = s).
  { unfold JS.join, JS.split.
    rewrite (split_go_join sep Hsep s 0%nat "" "" s eq_refl eq_refl)
      by (exists sep; by rewrite append_empty).
    done. }
  by split.
Qed.

Lemma split_then_join_witness :
  JS.join "#0" (JS.split "#0" "a#0b##0") = "a#0b##0".
Proof. apply (split_then_join "#0" "a#0b##0"). discriminate. Defined.

End SplitJoin.
(** ** The decoders of the last line of [engine.js] *)

Section Decoders.
Import Loader.

Lemma swap_Permutation g t p : Permutation (swap g t p) g.
Proof.
  unfold swap. destruct (g !! t) as [y|] eqn:Et; [|done].
  destruct (g !! p) as [z|] eqn:Ep; [|done].
  by apply Permutation_insert_swap.
Qed.

Lemma text_length g : String.length (text g) = List.length g.
Proof. unfold text. induction g as [|a g IH]; simpl; [done | by rewrite IH]. Qed.

Lemma chars_length s : List.length (chars s) = String.length s.
Proof. unfold chars. induction s as [|a s IH]; simpl; [done | by rewrite IH]. Qed.

(** X8: the loop shared by the two decoders only swaps characters: what it
    returns is a rearrangement of the characters it was given, whatever the
    constants, the seed and the number of steps; so the text [sfL] decodes
    has the characters of its argument, each as often, and its length. *)
Theorem scramble_rearranges a1 m1 a2 m2 md h steps j e g w :
  Permutation (scramble a1 m1 a2 m2 md h steps j e g) g
  /\ Permutation (chars (sfL w)) (chars w)
  /\ String.length (sfL w) = String.length w.
Proof.
  assert (H : forall a1 m1 a2 m2 md h steps j e g,
             Permutation (scramble a1 m1 a2 m2 md h steps j e g) g).
  { clear. intros a1 m1 a2 m2 md h steps.
    induction steps as [|k IH]; intros j e g; [done |].
    cbn [scramble]. cbv zeta. rewrite IH. apply swap_Permutation. }
  split; [apply H |]. unfold sfL. split.
  - unfold chars at 1, text. rewrite list_ascii_of_string_of_list_ascii. apply H.
  - rewrite text_length, <- chars_length. apply Permutation_length, H.
Qed.

End Decoders.
(** ** The [run] operation of [lambdaMultipleRole.js] *)

Section SharedRoles.
Import Engine Aws LambdaMultipleRoleScan.
Context (h : helpers) (c : cache) (reg : string).

Lemma property_push t arn name k :
  property (push_function t arn name) k
  = if String.eqb k arn
    then Some (default [] (property t arn) ++ [name])%list
    else property t k.
Proof.
  induction t as [|[k0 names] t IH]; cbn [push_function property].
  - rewrite (String.eqb_sym arn k). by destruct (String.eqb k arn).
  - destruct (String.eqb_spec k0 arn) as [->|Hne]; cbn [property default].
    + rewrite (String.eqb_sym arn k). by destruct (String.eqb k arn).
    + rewrite IH. destruct (String.eqb_spec k arn) as [E|Hk]; [|done].
      subst k. by destruct (String.eqb_spec k0 arn).
Qed.

Lemma property_keys {A} (t : list (string * A)) k :
  In k (map fst t) <-> is_Some (property t k).
Proof.
  induction t as [|[k0 v] t IH]; cbn [map fst In property].
  - split; [done | by intros [? ?]].
  - destruct (String.eqb_spec k0 k) as [->|Hne].
    + split; [by eexists | by left].
    + rewrite <- IH. split; [by intros [? | ?] | by right].
Qed.

Lemma property_entry {A} (t : list (string * A)) k v :
  NoDup (map fst t) -> In (k, v) t -> property t k = Some v.
Proof.
  induction t as [|[k0 v0] t IH]; [done |]. cbn [map fst].
  intros Hnd. apply NoDup_cons in Hnd as [Hk Hnd].
  intros [E | Hin]; cbn [property].
  - injection E as -> ->. by rewrite String.eqb_refl.
  - destruct (String.eqb_spec k0 k) as [->|Hne]; [|by apply IH].
    destruct Hk. apply list_elem_of_In. by apply (in_map fst) in Hin.
Qed.

Lemma push_keys t arn name :
  map fst (push_function t arn name)
  = (map fst t ++ match property t arn with Some _ => [] | None => [arn] end)%list.
Proof.
  induction t as [|[k0 names] t IH]; cbn [push_function property map fst app]; [done |].
  destruct (String.eqb k0 arn); cbn [map fst]; [by rewrite app_nil_r |].
  by rewrite IH.
Qed.

Lemma push_NoDup t arn name :
  NoDup (map fst t) -> NoDup (map fst (push_function t arn name)).
Proof.
  intros Hnd. rewrite push_keys.
  destruct (property t arn) eqn:E; [by rewrite app_nil_r |].
  apply NoDup_app. split; [done | split; [|apply NoDup_singleton]].
  intros k Hk Hin. apply list_elem_of_singleton in Hin as ->.
  apply list_elem_of_In, property_keys in Hk. rewrite E in Hk. by destruct Hk.
Qed.

(** The table after the loop, from the assignments of the functions. *)
Lemma check_function_table st fn :
  snd (check_function h c reg st fn)
  = match assignment c reg fn with
    | Some (arn, name) => push_function (snd st) arn name
    | None => snd st
    end.
Proof.
  unfold check_function, assignment.
  destruct (JS.truthy (FunctionName fn)); cbn [negb]; [|done].
  destruct (configuration_of _) as [lambdaConfig|]; [|done].
  destruct (JS.truthy (Role lambdaConfig)); cbn [negb]; [|done].
  by destruct (role_unavailable _).
Qed.

Lemma check_functions_table fns : forall st,
  snd (fold_left (check_function h c reg) fns st)
  = fold_left (fun t e => push_function t (fst e) (snd e))
              (omap (assignment c reg) fns) (snd st).
Proof.
  induction fns as [|fn fns IH]; intros st; [done |].
  cbn [fold_left omap list_omap]. rewrite IH, check_function_table.
  by destruct (assignment c reg fn) as [[arn name]|].
Qed.

Lemma table_property l : forall t k,
  property (fold_left (fun t e => push_function t (fst e) (snd e)) l t) k
  = match map snd (List.filter (fun e => String.eqb (fst e) k) l) with
    | [] => property t k
    | extra => Some (default [] (property t k) ++ extra)%list
    end.
Proof.
  induction l as [|[arn name] l IH]; intros t k; [done |].
  cbn [fold_left List.filter fst snd]. rewrite IH, property_push.
  rewrite (String.eqb_sym k arn).
  destruct (String.eqb arn k) eqn:E; cbn [map snd default from_option id].
  - apply String.eqb_eq in E. subst k.
    destruct (map snd _) as [|n extra]; [done |].
    by rewrite <- app_assoc.
  - done.
Qed.

Lemma table_NoDup l : forall t,
  NoDup (map fst t) ->
  NoDup (map fst (fold_left (fun t e => push_function t (fst e) (snd e)) l t)).
Proof.
  induction l as [|e l IH]; intros t Hnd; [done |].
  cbn [fold_left]. by apply IH, push_NoDup.
Qed.

Lemma check_functions_users fns arn :
  property (snd (check_functions h c reg fns)) arn
  = match users c reg fns arn with
    | [] => None
    | names => Some names
    end.
Proof.
  unfold check_functions, users. rewrite check_functions_table, table_property.
  cbn [snd property default app]. done.
Qed.

(** What the loop over the functions adds is never an OK result. *)
Lemma check_function_results st fn :
  Forall (fun r => status r = 2%Z \/ status r = 3%Z) (fst st) ->
  Forall (fun r => status r = 2%Z \/ status r = 3%Z)
         (fst (check_function h c reg st fn)).
Proof.
  intros Hst. unfold check_function.
  destruct (JS.truthy (FunctionName fn)); cbn [negb]; [|done].
  destruct (configuration_of _) as [lambdaConfig|];
    [|apply Forall_app; split; [done | by repeat constructor; right]].
  destruct (JS.truthy (Role lambdaConfig)); cbn [negb];
    [|apply Forall_app; split; [done | by repeat constructor; right]].
  destruct (role_unavailable _); [|done].
  apply Forall_app; split; [done | by repeat constructor; left].
Qed.

Lemma check_functions_results fns : forall st,
  Forall (fun r => status r = 2%Z \/ status r = 3%Z) (fst st) ->
  Forall (fun r => status r = 2%Z \/ status r = 3%Z)
         (fst (fold_left (check_function h c reg) fns st)).
Proof.
  induction fns as [|fn fns IH]; intros st Hst; [done |].
  cbn [fold_left]. by apply IH, check_function_results.
Qed.


End SharedRoles.

Section SharedRolesExample.
Import Engine Aws LambdaMultipleRoleScan.


End SharedRolesExample.
(** ** The results of the three Lambda role checks *)

Section CheckResults.
Import Engine Aws Notions.
Context (h : helpers) (c : cache).

Lemma sound_flat_map {A} (f : A -> list result) reg l :
  (forall x, Forall (sound reg) (f x)) -> Forall (sound reg) (flat_map f l).
Proof.
  intros H. induction l as [|x l IH]; cbn [flat_map]; [constructor |].
  apply Forall_app. by split.
Qed.

Ltac sound_results :=
  repeat first
    [ apply Forall_nil_2
    | apply Forall_cons_2;
        [split; [unfold check_status; cbn; auto | reflexivity] |] ].

Lemma missing_role_function reg roles fn :
  Forall (sound reg) (LambdaMissingExecutionRole.check_function h c reg roles fn).
Proof.
  unfold LambdaMissingExecutionRole.check_function.
  repeat match goal with
         | |- context [if ?b then _ else _] => destruct b
         | |- context [match ?o with Some _ => _ | None => _ end] => destruct o
         end; sound_results.
Qed.

Lemma role_tags_function reg roles fn :
  Forall (sound reg) (IamRoleHasTags.check_function h c reg roles fn).
Proof.
  unfold IamRoleHasTags.check_function.
  repeat match goal with
         | |- context [if ?b then _ else _] => destruct b
         | |- context [match ?o with Some _ => _ | None => _ end] => destruct o
         end; sound_results.
Qed.

Lemma missing_role_region reg :
  Forall (sound reg) (LambdaMissingExecutionRole.check_region h c reg).
Proof.
  unfold LambdaMissingExecutionRole.check_region.
  destruct (lambda_listFunctions c reg) as [[e d]|]; [|sound_results].
  cbn [err data]. destruct (JS.truthy e); [sound_results |].
  destruct d as [[|fn fns]|]; [sound_results | | sound_results].
  destruct (iam_listRoles c reg) as [[e' [[|r roles]|]]|]; try sound_results.
  destruct (JS.truthy e'); [sound_results |].
  apply sound_flat_map, missing_role_function.
Qed.

Lemma role_tags_region reg :
  Forall (sound reg) (IamRoleHasTags.check_region h c reg).
Proof.
  unfold IamRoleHasTags.check_region.
  destruct (lambda_listFunctions c reg) as [[e d]|]; [|sound_results].
  cbn [err data]. destruct (JS.truthy e); [sound_results |].
  destruct d as [[|fn fns]|]; [sound_results | | sound_results].
  destruct (iam_listRoles c reg) as [[e' [[|r roles]|]]|]; try sound_results.
  destruct (JS.truthy e'); [sound_results |].
  apply sound_flat_map, role_tags_function.
Qed.

Lemma multiple_role_function reg st fn :
  Forall (sound reg) (fst st) ->
  Forall (sound reg) (fst (LambdaMultipleRoleScan.check_function h c reg st fn)).
Proof.
  intros Hst. unfold LambdaMultipleRoleScan.check_function.
  repeat match goal with
         | |- context [if ?b then _ else _] => destruct b
         | |- context [match ?o with Some _ => _ | None => _ end] => destruct o
         end; cbn [fst]; try done; (apply Forall_app; split; [done | sound_results]).
Qed.

Lemma multiple_role_functions reg fns : forall st,
  Forall (sound reg) (fst st) ->
  Forall (sound reg)
         (fst (fold_left (LambdaMultipleRoleScan.check_function h c reg) fns st)).
Proof.
  induction fns as [|fn fns IH]; intros st Hst; [done |].
  cbn [fold_left]. by apply IH, multiple_role_function.
Qed.

Lemma multiple_role_region reg :
  Forall (sound reg) (LambdaMultipleRoleScan.check_region h c reg).
Proof.
  unfold LambdaMultipleRoleScan.check_region.
  destruct (lambda_listFunctions c reg) as [[e d]|]; [|sound_results].
  cbn [err data]. destruct (JS.truthy e); [sound_results |].
  destruct d as [[|fn fns]|]; [sound_results | | sound_results].
  cbv zeta. apply Forall_app. split.
  - apply multiple_role_functions. constructor.
  - apply Forall_map, Forall_forall. intros e0 _.
    unfold LambdaMultipleRoleScan.report_role.
    destruct (1 <? _)%nat; (split; [unfold check_status; cbn; auto | reflexivity]).
Qed.

Lemma sound_regions (check_region : string -> list result) regions :
  (forall reg, Forall (sound reg) (check_region reg)) ->
  Forall (fun r => check_status r
                   /\ exists reg, In reg regions /\ region r = Some reg)
         (flat_map check_region regions).
Proof.
  intros H. apply List.Forall_forall. intros r Hin.
  apply in_flat_map in Hin as (reg & Hreg & Hr).
  pose proof (H reg) as Hall. rewrite List.Forall_forall in Hall.
  destruct (Hall r Hr) as [Hs Hregion]. split; [done | by exists reg].
Qed.


(** X11: when the functions of a region could be listed and there is one
    at least, but the roles could not be listed, or the list of roles is
    empty, the two execution-role checks look at no function: each reports a
    single result of status 3 for the region, whatever the functions and
    their roles are. *)
Theorem no_roles_no_function_results reg e fn fns :
  lambda_listFunctions c reg = Some {| err := e; data := Some (fn :: fns) |} ->
  JS.truthy e = false ->
  no_roles (iam_listRoles c reg) = true ->
  let unknown :=
    [addResult 3
       ("Unable to query IAM roles: " ++ addError h (error_of (iam_listRoles c reg)))
       reg None] in
  LambdaMissingExecutionRole.check_region h c reg = unknown
  /\ IamRoleHasTags.check_region h c reg = unknown.
Proof.
  intros Hlist He Hno.
  unfold LambdaMissingExecutionRole.check_region, IamRoleHasTags.check_region.
  rewrite Hlist. cbn [err data]. rewrite He. unfold no_roles in Hno.
  destruct (iam_listRoles c reg) as [[e' [[|r roles]|]]|]; try done.
  by rewrite Hno.
Qed.

(** X12: for a function with a name, a readable configuration and a role,
    the IAM check reports what the Lambda check reports, after one OK result
    for the configuration. *)
Theorem role_checks_agree reg roles fn lambdaConfig :
  JS.truthy (FunctionName fn) = true ->
  configuration_of (lambda_getFunction c reg (JS.prop_key (FunctionName fn)))
  = Some lambdaConfig ->
  JS.truthy (Role lambdaConfig) = true ->
  IamRoleHasTags.check_function h c reg roles fn
  = addResult 0
      ("Lambda function " ++ JS.dq ++ JS.prop_key (FunctionName fn) ++ JS.dq
       ++ " configuration retrieved successfully")
      reg (FunctionArn fn)
    :: LambdaMissingExecutionRole.check_function h c reg roles fn.
Proof.
  intros Hname Hconf Hrole.
  unfold IamRoleHasTags.check_function, LambdaMissingExecutionRole.check_function.
  rewrite Hname. cbn [negb]. cbv zeta. rewrite Hconf, Hrole. cbn [negb].
  assert (E : JS.or_else (Role lambdaConfig) "No role assigned"
              = JS.prop_key (Role lambdaConfig)).
  { unfold JS.truthy in Hrole. unfold JS.or_else, JS.prop_key.
    destruct (Role lambdaConfig) as [v|]; [|done]. by destruct (String.eqb v ""). }
  by rewrite E.
Qed.

End CheckResults.

Section CheckResultsExamples.
Import Engine Aws Notions.

(** In the example no role is listed: the three functions get no result of
    their own. *)
Lemma no_roles_witness :
  LambdaMissingExecutionRole.check_region Examples.aws_helpers Cases.shared_snapshot
    "us-east-1"
  = [addResult 3 "Unable to query IAM roles: Unknown error" "us-east-1" None].
Proof.
  destruct (no_roles_no_function_results Examples.aws_helpers Cases.shared_snapshot
              "us-east-1" None (Cases.named "f1") [Cases.named "f2"; Cases.named "f3"]
              eq_refl eq_refl eq_refl) as [H _].
  exact H.
Defined.

(** The function of the example, whose role is not listed. *)
Lemma role_checks_agree_witness :
  List.length (IamRoleHasTags.check_function Examples.aws_helpers Examples.snapshot
                 "us-east-1" Examples.listed_roles Examples.lambda_missing_role)
  = 2%nat.
Proof.
  rewrite (role_checks_agree Examples.aws_helpers Examples.snapshot "us-east-1"
             Examples.listed_roles Examples.lambda_missing_role
             {| Role := Some Examples.missing_role_arn |} eq_refl eq_refl eq_refl).
  reflexivity.
Defined.

End CheckResultsExamples.
(** ** The selection of the checks *)

Section Selection.
Import Engine Notions.
Context (cfg : cloud_config) (s : settings).

Lemma add_apis_app acc l1 l2 : add_apis acc (l1 ++ l2) = add_apis (add_apis acc l1) l2.
Proof. unfold add_apis. apply fold_left_app. Qed.

(** With the single-check filter set, every other entry is skipped without
    its descriptor being read. *)
Lemma plan_from_others chosen plugins : forall st,
  plugin_id s = Some chosen -> chosen <> "" ->
  (forall k q, In (k, q) plugins -> k <> chosen) ->
  plan_from cfg s st plugins
  = Some {| apiCalls := apiCalls st;
            skippedPlugins := (skippedPlugins st ++ map fst plugins)%list;
            printed := printed st |}.
Proof.
  intros st Hid Hne. revert st.
  induction plugins as [|[k q] rest IH]; intros st Hall.
  - cbn. rewrite app_nil_r. by destruct st.
  - assert (Hk : k <> chosen) by (apply (Hall k q); by left).
    cbn [plan_from plan_entry]. unfold skip. rewrite Hid.
    cbn [JS.truthy JS.prop_key].
    destruct (String.eqb_spec chosen ""); [done |].
    destruct (String.eqb_spec chosen k); [congruence |]. cbn [negb andb fst snd].
    rewrite IH by (intros k' q' Hin; apply (Hall k' q'); by right).
    cbn [apiCalls skippedPlugins printed map fst].
    by rewrite app_nil_r, <- app_assoc.
Qed.

Lemma plan_from_single chosen p plugins : forall st,
  plugin_id s = Some chosen -> chosen <> "" ->
  NoDup (map fst plugins) ->
  In (chosen, p) plugins ->
  skipped cfg s chosen p = false ->
  is_Some (apis p) ->
  (in_remediation s chosen = true -> is_Some (apis_remediate p)) ->
  plan_from cfg s st plugins
  = Some {| apiCalls := add_apis (apiCalls st) (requested s chosen p);
            skippedPlugins :=
              (skippedPlugins st
               ++ List.filter (fun k => negb (String.eqb k chosen)) (map fst plugins))%list;
            printed := (printed st ++ snd (skip cfg s chosen p))%list |}.
Proof.
  intros st Hid Hne Hnd Hin Hsk [l Hl] Hrem. revert st Hnd Hin.
  induction plugins as [|[k q] rest IH]; intros st Hnd Hin; [done |].
  cbn [map fst] in Hnd. apply NoDup_cons in Hnd as [Hk Hnd].
  cbn [map fst List.filter].
  destruct (String.eqb_spec k chosen) as [->|Hkid]; cbn [negb].
  - assert (q = p) as ->.
    { destruct Hin as [E | Hin]; [by injection E |].
      destruct Hk. apply list_elem_of_In. by apply (in_map fst) in Hin. }
    assert (Hrest : forall k' q', In (k', q') rest -> k' <> chosen).
    { intros k' q' Hin' ->. destruct Hk. apply list_elem_of_In.
      by apply (in_map fst) in Hin'. }
    cbn [plan_from plan_entry]. unfold skipped in Hsk. rewrite Hsk, Hl.
    cbn [apiCalls skippedPlugins printed].
    assert (Hfil : List.filter (fun k => negb (String.eqb k chosen)) (map fst rest)
                   = map fst rest).
    { clear -Hrest. induction rest as [|[k' q'] rest IH]; [done |].
      cbn [map fst List.filter].
      destruct (String.eqb_spec k' chosen) as [->|_]; cbn [negb].
      - by destruct (Hrest chosen q' (or_introl eq_refl)).
      - rewrite IH; [done |]. intros k q Hin. apply (Hrest k q). by right. }
    unfold requested. rewrite Hl, add_apis_app. cbn [default from_option id].
    destruct (in_remediation s chosen) eqn:Er.
    + destruct Hrem as [lr Hlr]; [done |]. rewrite Hlr.
      rewrite (plan_from_others chosen) by done. cbn [apiCalls skippedPlugins printed].
      by rewrite Hfil.
    + rewrite (plan_from_others chosen) by done. cbn [apiCalls skippedPlugins printed].
      by rewrite Hfil.
  - destruct Hin as [E | Hin]; [by injection E |].
    assert (Hother : skip cfg s k q = (true, [])).
    { unfold skip. rewrite Hid. cbn [JS.truthy JS.prop_key].
      destruct (String.eqb_spec chosen ""); [done |].
      by destruct (String.eqb_spec chosen k); [congruence |]. }
    cbn [plan_from plan_entry]. rewrite Hother. cbn [fst snd].
    rewrite IH by done. cbn [apiCalls skippedPlugins printed].
    by rewrite app_nil_r, <- app_assoc.
Qed.

(** X19: with the single-check filter set to a check of the catalog that the
    other filters let through and whose descriptor lists its calls, planning
    completes whatever the descriptors of the other checks hold: every other
    check is skipped, in catalog order, and the calls to make are those of
    the one check, without duplicates: its [apis], then its [apis_remediate]
    when its remediation is requested. *)
Theorem single_check_is_planned_alone plugins chosen p :
  plugin_id s = Some chosen -> chosen <> "" ->
  NoDup (map fst plugins) ->
  In (chosen, p) plugins ->
  skipped cfg s chosen p = false ->
  is_Some (apis p) ->
  (in_remediation s chosen = true -> is_Some (apis_remediate p)) ->
  exists pl,
    plan cfg s plugins = Some pl
    /\ skippedPlugins pl
       = List.filter (fun k => negb (String.eqb k chosen)) (map fst plugins)
    /\ apiCalls pl = add_apis [] (requested s chosen p)
    /\ NoDup (apiCalls pl)
    /\ printed pl = snd (skip cfg s chosen p).
Proof.
  intros Hid Hne Hnd Hin Hsk Hl Hrem. unfold plan.
  rewrite (plan_from_single chosen p plugins) by done.
  eexists. split; [reflexivity |]. cbn [apiCalls skippedPlugins printed app].
  split; [done | split; [done | split; [|done]]].
  apply add_apis_NoDup. constructor.
Qed.

End Selection.

Section SelectionExample.
Import Engine Notions.

Lemma single_check_witness :
  exists pl,
    plan Examples.config Cases.only_b Examples.two_checks = Some pl
    /\ skippedPlugins pl = ["a"] /\ apiCalls pl = ["IAM:listRoles"].
Proof.
  destruct (single_check_is_planned_alone Examples.config Cases.only_b
              Examples.two_checks "b"
              (Examples.check (Some ["IAM:listRoles"]) None
                 (Examples.answers [Examples.finding 1 "z"])))
    as (pl & H1 & H2 & H3 & _).
  - reflexivity.
  - discriminate.
  - apply NoDup_cons. split; [by intros [E | []]%list_elem_of_In | apply NoDup_singleton].
  - right. left. reflexivity.
  - reflexivity.
  - by eexists.
  - discriminate.
  - exists pl. split; [exact H1 | split; [exact H2 | exact H3]].
Defined.

End SelectionExample.

(** ** The compliance note *)

Section ComplianceNote.
Import Engine.

Lemma append_not_empty a b : b <> "" -> a ++ b <> "".
Proof.
  intros Hb E. apply (f_equal String.length) in E.
  rewrite string_length_append in E. destruct b; [done |]. cbn in E. lia.
Qed.

Lemma concat_not_empty sep l :
  l <> [] -> Forall (fun x => x <> "") l -> String.concat sep l <> "".
Proof.
  destruct l as [|x l]; [done |]. intros _ H. apply Forall_cons in H as [Hx _].
  cbn [concat]. destruct l; [done |].
  destruct x as [|a x]; [done |]. discriminate.
Qed.

(** X20: the note written next to a result is [null] exactly when no
    compliance program is requested or the planner skips the check for
    compliance: under a compliance filter, a check the planner lets through
    has a note on every result it writes, and the planner skips exactly the
    checks that would have none. *)
Theorem compliance_note_of_selected_checks s p :
  compliance_note s p = None
  <-> JS.nonempty (compliance_modes s) = false
      \/ fst (skip_reason_compliance s p) = true.
Proof.
  unfold compliance_note, skip_reason_compliance.
  destruct (JS.nonempty (compliance_modes s)) eqn:En; [|by split; [left |]].
  set (modes := default [] (compliance_modes s)).
  set (part := fun c => if JS.truthy (compliance_entry p c)
                        then [JS.toUpperCase c ++ ": " ++ JS.prop_key (compliance_entry p c)]
                        else []).
  assert (Hparts : Forall (fun x => x <> "") (flat_map part modes)).
  { apply List.Forall_forall. intros x Hx. apply in_flat_map in Hx as (c & _ & Hx).
    subst part. cbn in Hx. destruct (JS.truthy (compliance_entry p c)); [|done].
    destruct Hx as [<- | []]. apply append_not_empty. discriminate. }
  assert (Hex : flat_map part modes = []
                <-> existsb (fun c => JS.truthy (compliance_entry p c)) modes = false).
  { clear. induction modes as [|c modes IH]; [done |]. cbn [flat_map existsb].
    subst part. cbn. destruct (JS.truthy (compliance_entry p c)); cbn; [done | apply IH]. }
  assert (Hnote : (if String.eqb (JS.join "; " (flat_map part modes)) ""
                   then None else Some (JS.join "; " (flat_map part modes))) = None
                  <-> flat_map part modes = []).
  { destruct (flat_map part modes) as [|x l] eqn:E; [done |].
    pose proof (concat_not_empty "; " (x :: l)) as Hne. unfold JS.join.
    destruct (String.eqb_spec (String.concat "; " (x :: l)) "") as [E0|_]; [|done].
    destruct Hne; done. }
  rewrite Hnote, Hex.
  destruct (JS.nonempty (compliance p)) eqn:Ec; cbn [negb fst].
  - destruct (existsb _ modes); cbn [fst]; split; auto; intros [? | ?]; done.
  - split; [by right |]. intros _.
    assert (Hnone : forall c, JS.truthy (compliance_entry p c) = false).
    { intros c. unfold compliance_entry.
      destruct (compliance p) as [[|e m]|]; done. }
    clear -Hnone. induction modes as [|c modes IH]; [done |].
    cbn [existsb]. by rewrite Hnone.
Qed.

End ComplianceNote.
(** ** The engine up to the scheduling of the checks *)

Section Prelude.
Import Engine Notions.
Context (env : environment) (cfg : cloud_config) (s : settings).

Lemma printing_preparatory tr : Forall printing tr -> Forall preparatory tr.
Proof. intros H. eapply Forall_impl; [exact H |]. by intros []. Qed.

Lemma preparatory_plain tr : Forall preparatory tr -> Forall plain tr.
Proof. intros H. eapply Forall_impl; [exact H |]. by intros []. Qed.

Lemma preparatory_quiet tr : Forall preparatory tr -> Forall quiet tr.
Proof. intros H. eapply Forall_impl; [exact H |]. by intros []. Qed.

Lemma plan_from_debug plugins : forall st st',
  plan_from cfg s st plugins = Some st' ->
  Forall (fun e => exists m, e = Dbg m) (printed st) ->
  Forall (fun e => exists m, e = Dbg m) (printed st').
Proof.
  induction plugins as [|[k p] rest IH]; intros st st' H Hst.
  - cbn in H. by injection H as <-.
  - cbn [plan_from] in H.
    destruct (plan_entry cfg s st (k, p)) as [st1|] eqn:E; [|done].
    apply (IH _ _ H). clear IH H.
    assert (Hp : Forall (fun e => exists m, e = Dbg m)
                        (printed st ++ snd (skip cfg s k p))%list)
      by (apply Forall_app; split; [done | apply skip_printed_debug]).
    unfold plan_entry in E.
    repeat match type of E with
           | context [if ?b then _ else _] => destruct b
           | context [match ?o with Some _ => _ | None => _ end] => destruct o
           end; try done; by injection E as <-.
Qed.

(** Up to the call of the collector the engine only prints, and prints no
    error. *)
Lemma announced_printing plugins pl :
  plan cfg s plugins = Some pl ->
  Forall printing (announced s plugins pl) /\ errors (announced s plugins pl) = [].
Proof.
  intros Hplan.
  destruct (customization_no_error s) as [Hce Hcp].
  assert (Hdbg : Forall (fun e => exists m, e = Dbg m) (printed pl))
    by (eapply plan_from_debug; [exact Hplan | constructor]).
  apply debug_no_error in Hdbg as [Hpe Hpp].
  unfold announced. cbv zeta.
  destruct (JS.truthy (plugin_id s));
    [destruct (property plugins (JS.prop_key (plugin_id s))) |];
    (split;
     [repeat first [done | exact I | apply Forall_nil | apply Forall_app; split
                    | apply Forall_cons; split]
     |unfold errors in *; rewrite !List.filter_app, Hce, Hpe; reflexivity]).
Qed.

(** The engine once planning found calls to make. *)
Lemma engine_collecting plugins pl :
  plan cfg s plugins = Some pl ->
  apiCalls pl <> [] ->
  invalid_plugin s plugins = false ->
  engine env cfg s plugins
  = match collector env (apiCalls pl) with
    | CollectError err =>
        stopped Aborted
          (announced s plugins pl
           ++ [Log ("ERROR: Unable to obtain API metadata: " ++ err)])%list
    | CollectNothing =>
        stopped Aborted
          (announced s plugins pl
           ++ [Log "ERROR: Unable to obtain API metadata: No data returned"])%list
    | Collection =>
        if logs_in cfg s && JS.truthy (azure_login env) then
          stopped Aborted
            (analysed s plugins pl ++ [Log (JS.prop_key (azure_login env))])%list
        else
          executePlugins env cfg s (skippedPlugins pl) plugins (analysed s plugins pl)
    end.
Proof.
  intros Hplan Hcalls Hvalid.
  unfold engine, invalid_plugin, analysed, announced, logs_in in *. cbv zeta.
  destruct (JS.truthy (plugin_id s)); cbn [andb] in Hvalid.
  - destruct (property plugins (JS.prop_key (plugin_id s))) as [p|]; [|done].
    rewrite Hplan. destruct (apiCalls pl) as [|a calls]; [done |].
    destruct (collector env (a :: calls)); try reflexivity.
    destruct (JS.nonempty (remediate_ids s) && remediate_config cfg
              && String.eqb (cloud s) "azure"); cbn [andb]; [|reflexivity].
    by destruct (JS.truthy (azure_login env)).
  - rewrite Hplan. destruct (apiCalls pl) as [|a calls]; [done |].
    destruct (collector env (a :: calls)); try reflexivity.
    destruct (JS.nonempty (remediate_ids s) && remediate_config cfg
              && String.eqb (cloud s) "azure"); cbn [andb]; [|reflexivity].
    by destruct (JS.truthy (azure_login env)).
Qed.

Lemma analysed_preparatory plugins pl :
  plan cfg s plugins = Some pl -> Forall preparatory (analysed s plugins pl).
Proof.
  intros Hplan. unfold analysed. apply Forall_app. split.
  - apply printing_preparatory. by apply announced_printing.
  - by repeat constructor.
Qed.

(** The engine either returns before any check is scheduled, having
    printed and at most written the collection, or calls [executePlugins]
    after as much. *)
Lemma engine_prelude plugins :
  (exists ph tr, ph <> Running /\ ph <> Joined /\ Forall preparatory tr
                 /\ engine env cfg s plugins = stopped ph tr)
  \/ (exists pl, plan cfg s plugins = Some pl
                 /\ engine env cfg s plugins
                    = executePlugins env cfg s (skippedPlugins pl) plugins
                        (analysed s plugins pl)).
Proof.
  destruct (invalid_plugin s plugins) eqn:Ev.
  { left. destruct (customization_no_error s) as [_ Hcp].
    unfold engine. unfold invalid_plugin in Ev.
    destruct (JS.truthy (plugin_id s)); [|done].
    destruct (property plugins (JS.prop_key (plugin_id s))); [done |].
    eexists Aborted, _. split; [done | split; [done | split; [|reflexivity]]].
    apply printing_preparatory, Forall_app. split; [done | by repeat constructor]. }
  destruct (plan cfg s plugins) as [pl|] eqn:Epl.
  2:{ left. destruct (customization_no_error s) as [_ Hcp].
      unfold engine. unfold invalid_plugin in Ev. rewrite Epl.
      destruct (JS.truthy (plugin_id s));
        [destruct (property plugins (JS.prop_key (plugin_id s)));
         [|discriminate Ev] |];
        eexists Crashed, _; (split; [done | split; [done | split; [|reflexivity]]]);
        apply printing_preparatory;
        repeat first [done | exact I | apply Forall_nil | apply Forall_app; split
                      | apply Forall_cons; split]. }
  destruct (apiCalls pl) as [|a calls] eqn:Ecalls.
  { left. destruct (customization_no_error s) as [_ Hcp].
    assert (Hdbg : Forall (fun e => exists m, e = Dbg m) (printed pl))
      by (eapply plan_from_debug; [exact Epl | constructor]).
    apply debug_no_error in Hdbg as [_ Hpp].
    unfold engine. unfold invalid_plugin in Ev. rewrite Epl, Ecalls.
    destruct (JS.truthy (plugin_id s));
      [destruct (property plugins (JS.prop_key (plugin_id s)));
       [|discriminate Ev] |];
      eexists Aborted, _; (split; [done | split; [done | split; [|reflexivity]]]);
      apply printing_preparatory;
      repeat first [done | exact I | apply Forall_nil | apply Forall_app; split
                    | apply Forall_cons; split]. }
  pose proof (announced_printing plugins pl Epl) as [Hann _].
  pose proof (analysed_preparatory plugins pl Epl) as Han.
  rewrite (engine_collecting plugins pl Epl) by (done || by rewrite Ecalls).
  rewrite Ecalls.
  destruct (collector env (a :: calls)).
  - left. eexists Aborted, _. split; [done | split; [done | split; [|reflexivity]]].
    apply Forall_app. split; [by apply printing_preparatory | by repeat constructor].
  - left. eexists Aborted, _. split; [done | split; [done | split; [|reflexivity]]].
    apply Forall_app. split; [by apply printing_preparatory | by repeat constructor].
  - destruct (logs_in cfg s && JS.truthy (azure_login env)).
    + left. eexists Aborted, _. split; [done | split; [done | split; [|reflexivity]]].
      apply Forall_app. split; [done | by repeat constructor].
    + right. by exists pl.
Qed.

End Prelude.
(** ** Scans that end before a check is scheduled *)

Section EarlyReturns.
Import Engine Notions.
Context (env : environment) (cfg : cloud_config) (s : settings) (plugins : catalog).

(** X13: when planning found calls to make and the collector answers with
    an error or with no data, the scan ends there, whatever callbacks and
    timers are delivered afterwards: no check is run, nothing is written,
    not even the collection, the verdict and the exit status are 0, and the
    one error printed is [ERROR: Unable to obtain API metadata:] with the
    collector's error, or with [No data returned]. *)
Theorem collector_failure_ends_the_scan pl ticks :
  plan cfg s plugins = Some pl ->
  apiCalls pl <> [] ->
  invalid_plugin s plugins = false ->
  collector env (apiCalls pl) <> Collection ->
  let sc := scan env cfg s plugins ticks in
  phase sc = Aborted
  /\ output sc = []
  /\ verdict sc = 0%Z
  /\ exit_status sc = 0%Z
  /\ Forall printing (trace (eng sc))
  /\ errors (trace (eng sc))
     = [Log ("ERROR: Unable to obtain API metadata: "
             ++ match collector env (apiCalls pl) with
                | CollectError err => err
                | _ => "No data returned"
                end)].
Proof.
  intros Hplan Hcalls Hvalid Hfail sc.
  destruct (announced_printing cfg s plugins pl Hplan) as [Hpr Herr].
  assert (E : exists msg,
             sc = stopped Aborted (announced s plugins pl ++ [Log msg])%list
             /\ msg = "ERROR: Unable to obtain API metadata: "
                      ++ match collector env (apiCalls pl) with
                         | CollectError err => err
                         | _ => "No data returned"
                         end).
  { subst sc. unfold scan. rewrite (engine_collecting env cfg s plugins pl) by done.
    destruct (collector env (apiCalls pl)); [| |done];
      eexists; (split; [by rewrite run_ticks_stopped | reflexivity]). }
  destruct E as (msg & -> & Hmsg).
  assert (Hall : Forall printing (announced s plugins pl ++ [Log msg])%list)
    by (apply Forall_app; split; [done | by repeat constructor]).
  split; [done | split; [|split; [done | split; [|split; [done |]]]]].
  - unfold output. cbn [stopped eng trace].
    by apply plain_forwarded, printing_plain.
  - unfold exit_status. cbn [stopped eng trace]. by apply printing_exit_status.
  - cbn [stopped eng trace]. unfold errors in *.
    rewrite List.filter_app, Herr, Hmsg. reflexivity.
Qed.

(** X14: when the collection was obtained, remediation is requested, the
    configuration has its [remediate] part and the cloud is [azure], a
    failing login ends the scan: the collection was written, the error is
    printed as it is, no check is run and the exit status is 0. When one of
    the three conditions does not hold, or the login does not fail,
    [executePlugins] is called on what was printed so far. *)
Theorem login_failure_ends_the_scan pl ticks :
  plan cfg s plugins = Some pl ->
  apiCalls pl <> [] ->
  invalid_plugin s plugins = false ->
  collector env (apiCalls pl) = Collection ->
  let sc := scan env cfg s plugins ticks in
  (logs_in cfg s = true -> JS.truthy (azure_login env) = true ->
   phase sc = Aborted
   /\ output sc = []
   /\ exit_status sc = 0%Z
   /\ trace (eng sc)
      = (analysed s plugins pl ++ [Log (JS.prop_key (azure_login env))])%list)
  /\ (logs_in cfg s = false \/ JS.truthy (azure_login env) = false ->
      engine env cfg s plugins
      = executePlugins env cfg s (skippedPlugins pl) plugins (analysed s plugins pl)).
Proof.
  intros Hplan Hcalls Hvalid Hcoll sc.
  pose proof (engine_collecting env cfg s plugins pl Hplan Hcalls Hvalid) as E.
  rewrite Hcoll in E.
  pose proof (analysed_preparatory cfg s plugins pl Hplan) as Han.
  split.
  - intros Hlog Hfail. rewrite Hlog, Hfail in E. cbn [andb] in E.
    subst sc. unfold scan. rewrite E, run_ticks_stopped by done.
    set (tr := (analysed s plugins pl ++ [Log (JS.prop_key (azure_login env))])%list).
    assert (Hall : Forall preparatory tr)
      by (apply Forall_app; split; [done | by repeat constructor]).
    split; [done | split; [|split; [|done]]].
    + unfold output. cbn [stopped eng trace].
      by apply plain_forwarded, preparatory_plain.
    + unfold exit_status. cbn [stopped eng trace].
      clear -Hall. generalize 0%Z. induction Hall as [|e l He _ IH]; intros code; [done |].
      cbn [fold_left]. destruct e; try done; apply IH.
  - intros Hno. rewrite E.
    destruct Hno as [-> | ->]; [done | by rewrite andb_false_r].
Qed.

End EarlyReturns.

Section EarlyReturnsExamples.
Import Engine Notions.

Lemma collector_failure_witness :
  errors (trace (eng (scan Cases.no_metadata Examples.config Examples.no_filter
                        Examples.two_checks Examples.in_turn)))
  = [Log "ERROR: Unable to obtain API metadata: Throttled"].
Proof.
  destruct (collector_failure_ends_the_scan Cases.no_metadata Examples.config
              Examples.no_filter Examples.two_checks Cases.two_calls Examples.in_turn)
    as (_ & _ & _ & _ & _ & H); [reflexivity | discriminate | reflexivity
                                 | discriminate | exact H].
Defined.

Lemma login_failure_witness :
  phase (scan Cases.failed_login Cases.remediate_configured Cases.azure_remediating
           Examples.two_checks Examples.in_turn) = Aborted.
Proof.
  destruct (login_failure_ends_the_scan Cases.failed_login Cases.remediate_configured
              Cases.azure_remediating Examples.two_checks Cases.three_calls
              Examples.in_turn)
    as [H _]; [reflexivity | discriminate | reflexivity | reflexivity |].
  destruct H as [H _]; [reflexivity | reflexivity | exact H].
Defined.

End EarlyReturnsExamples.
(** ** The scheduler's bound *)

Section Bound.
Import Engine Notions.
Context (env : environment) (cfg : cloud_config) (s : settings).

Lemma move_bound sc sc' :
  move env cfg s sc sc' -> (running sc <= limit)%nat -> (running sc' <= limit)%nat.
Proof.
  destruct 1 as [sc key p rest st d Hp Htodo Hr Hit
                |sc key p cb rest st o Hp Htake Hpost
                |sc key rest Hp Htake
                |sc Hp Htodo Hr]; unfold running in *.
  - intros _. destruct d as [|[cb| |]]; cbn; rewrite ?length_app; cbn; lia.
  - apply take_call_length in Htake. rewrite Htake.
    destruct o; cbn; rewrite ?length_app; cbn; lia.
  - apply take_timer_length in Htake. rewrite Htake. cbn. lia.
  - rewrite settle_joined by done. cbn. lia.
Qed.

(** X15: at every moment of a scan, whatever the checks do and in whatever
    order callbacks and timers are delivered, at most ten calls of the
    iteratee are unreleased: waiting for their callback, waiting for their
    [pluginDone] timer, or lost. *)
Theorem at_most_ten_in_flight plugins ticks :
  let sc := scan env cfg s plugins ticks in
  (List.length (awaiting sc) + List.length (unreleased sc) + List.length (timers sc)
   <= 10)%nat.
Proof.
  intros sc. change (running sc <= limit)%nat. subst sc. unfold scan.
  destruct (engine_cases env cfg s plugins)
    as [(ph & tr & Hph1 & Hph2 & Hpl & ->) | (pl & tr & Hplan & Hcalls & Hpl & ->)].
  - rewrite run_ticks_stopped by (by destruct ph). cbn. unfold limit. lia.
  - assert (Hm : rtc (move env cfg s) (start (skippedPlugins pl) plugins tr)
                   (run_ticks env cfg s
                      (executePlugins env cfg s (skippedPlugins pl) plugins tr) ticks))
      by (etrans; [apply executePlugins_moves | apply run_ticks_moves]).
    revert Hm. generalize (run_ticks env cfg s
                    (executePlugins env cfg s (skippedPlugins pl) plugins tr) ticks).
    intros sc Hm.
    apply (moves_preserve env cfg s (fun sc => (running sc <= limit)%nat)
             move_bound _ _ Hm).
    cbn. unfold limit. lia.
Qed.

End Bound.

(** ** What holds until the final callback *)

Section Phases.
Import Engine Notions.
Context (env : environment) (cfg : cloud_config) (s : settings)
        (Inv : engine_state -> Prop).
Hypothesis Inv_log : forall st msg, Inv st -> Inv (emit st [Log msg]).
Hypothesis Inv_title :
  forall st t, resultsObject st !! t = None -> Inv st ->
    Inv {| maximumStatus := maximumStatus st;
           resultsObject := <[t := []]> (resultsObject st);
           trace := trace st |}.
Hypothesis Inv_process :
  forall st k p r, Inv st -> Inv (fst (process_result env s k p st r)).

Lemma process_results_keeps k p rs : forall st,
  Inv st -> Inv (fst (process_results env s k p st rs)).
Proof.
  induction rs as [|r rs IH]; intros st Hst; [done |].
  cbn [process_results].
  pose proof (Inv_process st k p r Hst) as H1.
  destruct (process_result env s k p st r) as [st1 [|]]; [done |].
  by apply IH.
Qed.

Lemma postRun_keeps k p cb st : Inv st -> Inv (fst (postRun env s k p cb st)).
Proof.
  intros Hst. unfold postRun.
  destruct (JS.truthy (cb_err cb)); [by apply Inv_log |].
  destruct (JS.nonempty (cb_results cb)); cbn [negb]; [|by apply Inv_log].
  match goal with |- context [process_results env s k p ?st0 ?rs] =>
    assert (H0 : Inv st0)
      by (destruct (resultsObject st !! title p) eqn:E; [done | by apply Inv_title]);
    pose proof (process_results_keeps k p rs st0 H0) as H1;
    destruct (process_results env s k p st0 rs) as [st1 b] end.
  done.
Qed.

Lemma iteratee_keeps skip k p st : Inv st -> Inv (fst (iteratee env s skip k p st)).
Proof.
  intros Hst. unfold iteratee.
  destruct (JS.includes k skip); [done |].
  destruct (asl p) as [descr|]; [|done].
  destruct (run_asl s); [|done].
  destruct (asl_runner env _); cbn [fst]; [by apply Inv_log |].
  by apply postRun_keeps, Inv_log.
Qed.

Lemma move_phase sc sc' :
  move env cfg s sc sc' -> Inv (eng sc) ->
  (phase sc' <> Joined /\ Inv (eng sc'))
  \/ (phase sc' = Joined /\ eng sc' = final_callback cfg s (eng sc)).
Proof.
  destruct 1 as [sc key p rest st d Hp Htodo Hr Hit
                |sc key p cb rest st o Hp Htake Hpost
                |sc key rest Hp Htake
                |sc Hp Htodo Hr]; intros Hi.
  - left. pose proof (iteratee_keeps (skipping sc) key p (eng sc) Hi) as Hst.
    rewrite Hit in Hst. destruct d as [|[cb| |]]; cbn; split; congruence || done.
  - left. pose proof (postRun_keeps key p cb (eng sc) Hi) as Hst.
    rewrite Hpost in Hst. destruct o; cbn; split; congruence || done.
  - left. cbn. split; congruence || done.
  - right. by rewrite settle_joined.
Qed.

Lemma moves_phase sc sc' :
  rtc (move env cfg s) sc sc' ->
  phase sc <> Joined -> Inv (eng sc) ->
  (phase sc' <> Joined /\ Inv (eng sc'))
  \/ (phase sc' = Joined /\ exists st, Inv st /\ eng sc' = final_callback cfg s st).
Proof.
  induction 1 as [sc|sc sc1 sc2 Hm Hrest IH]; intros Hp Hi; [by left |].
  destruct (move_phase _ _ Hm Hi) as [[Hp1 Hi1] | [Hp1 He1]]; [by apply IH |].
  assert (E : sc2 = sc1) by (eapply moves_stopped; [exact Hrest | congruence]).
  subst sc2. right. split; [done | by exists (eng sc)].
Qed.

Lemma scan_phases plugins ticks :
  (forall tr, Forall preparatory tr ->
              Inv {| maximumStatus := 0; resultsObject := ∅; trace := tr |}) ->
  let sc := scan env cfg s plugins ticks in
  (phase sc <> Joined /\ Inv (eng sc))
  \/ (phase sc = Joined /\ exists st, Inv st /\ eng sc = final_callback cfg s st).
Proof.
  intros Hinit sc. subst sc. unfold scan.
  destruct (engine_prelude env cfg s plugins)
    as [(ph & tr & Hph1 & Hph2 & Hpl & ->) | (pl & Hplan & ->)].
  - rewrite run_ticks_stopped by (by destruct ph). left. split; [done |].
    by apply Hinit.
  - eapply moves_phase.
    + etrans; [apply executePlugins_moves | apply run_ticks_moves].
    + done.
    + apply Hinit. by apply (analysed_preparatory cfg).
Qed.

End Phases.
(** ** The final callback: exit status and report *)

Section Reports.
Import Engine Notions.
Context (env : environment) (cfg : cloud_config) (s : settings) (plugins : catalog).

Lemma closes_app tr1 tr2 : closes (tr1 ++ tr2) = (closes tr1 + closes tr2)%nat.
Proof. unfold closes. by rewrite List.filter_app, length_app. Qed.

Lemma quiet_closes tr : Forall quiet tr -> closes tr = 0%nat.
Proof.
  induction 1 as [|e tr He _ IH]; [done |].
  change (e :: tr) with ([e] ++ tr)%list. rewrite closes_app, IH. by destruct e.
Qed.

Lemma quiet_exit_code tr : forall code,
  Forall quiet tr ->
  fold_left (fun code e => match e with ExitCode c => c | _ => code end) tr code = code.
Proof.
  induction tr as [|e tr IH]; intros code H; [done |].
  apply Forall_cons in H as [He H]. cbn. destruct e; try done; by apply IH.
Qed.

Lemma process_result_quiet k p st r :
  Forall quiet (trace st) -> Forall quiet (trace (fst (process_result env s k p st r))).
Proof.
  intros H. unfold process_result.
  destruct (suppressed env k r); [done |].
  destruct (remediation_due s k r); [destruct (remediate p) as [[]|] |]; cbn;
    repeat (apply Forall_app; split); try done; by repeat constructor.
Qed.


(** What [resultsObject] holds once a result went through the loop. *)
Lemma stored_insert o t (r r' : result) :
  stored (<[t := (default [] (o !! t) ++ [r])%list]> o) r' <-> stored o r' \/ r' = r.
Proof.
  unfold stored. split.
  - intros (t' & l & Hl & Hin). destruct (decide (t' = t)) as [->|Hne].
    + rewrite lookup_insert_eq in Hl. injection Hl as <-.
      apply in_app_or in Hin as [Hin | [<- | []]]; [|by right].
      left. destruct (o !! t) as [l0|] eqn:E; [|done]. by exists t, l0.
    + rewrite lookup_insert_ne in Hl by done. left. by exists t', l.
  - intros [(t' & l & Hl & Hin) | ->].
    + destruct (decide (t' = t)) as [->|Hne].
      * eexists t, _. rewrite lookup_insert_eq. split; [done |].
        rewrite Hl. apply in_or_app. by left.
      * exists t', l. by rewrite lookup_insert_ne.
    + eexists t, _. rewrite lookup_insert_eq. split; [done |].
      apply in_or_app. right. by left.
Qed.

Lemma kept_one k (r r' : result) k' :
  In (r', k') (kept env k [r]) <-> suppressed env k r = false /\ r' = r /\ k' = k.
Proof.
  unfold kept. cbn [List.filter]. destruct (suppressed env k r); cbn.
  - split; [done | by intros [? _]].
  - split; [intros [E | []]; by injection E as <- <- | by intros (_ & -> & ->); left].
Qed.

Lemma process_result_stored k p st r r' :
  stored (resultsObject (fst (process_result env s k p st r))) r'
  <-> stored (resultsObject st) r' \/ (suppressed env k r = false /\ r' = r).
Proof.
  unfold process_result. destruct (suppressed env k r).
  - cbn [fst]. split; [by left | by intros [? | [? _]]].
  - match goal with |- context [resultsObject (fst ?x)] =>
      assert (E : resultsObject (fst x)
                  = <[title p := (default [] (resultsObject st !! title p) ++ [r])%list]>
                      (resultsObject st))
        by (destruct (remediation_due s k r); [destruct (remediate p) as [[]|] |]; done);
      rewrite E end.
    rewrite stored_insert. split; [intros [? | ->]; [by left | by right] |].
    intros [? | [_ ->]]; [by left | by right].
Qed.

(** X17: at every moment of a scan, [resultsObject], the report that is
    uploaded, holds exactly the results that were forwarded to the output
    handler; and when the scan reached the final callback with a storage
    connection and a container configured, that report was handed to the
    upload. *)
Theorem report_holds_what_was_forwarded ticks :
  let sc := scan env cfg s plugins ticks in
  (forall r, stored (resultsObject (eng sc)) r <-> exists key, In (r, key) (output sc))
  /\ (phase sc = Joined -> blob_upload cfg = true ->
      In (Upload (resultsObject (eng sc))) (trace (eng sc))).
Proof.
  intros sc.
  destruct (scan_phases env cfg s
              (fun st => forall r, stored (resultsObject st) r
                                   <-> exists key, In (r, key) (forwarded (trace st))))
    with (plugins := plugins) (ticks := ticks)
    as [[Hp Hq] | (Hp & st & Hq & He)].
  - intros st msg H r. cbn [emit resultsObject trace].
    rewrite forwarded_app. cbn [forwarded flat_map]. rewrite app_nil_r. apply H.
  - intros st t Hnone H r. cbn [resultsObject trace]. rewrite <- H.
    unfold stored. split.
    + intros (t' & l & Hl & Hin). destruct (decide (t' = t)) as [->|Hne].
      * rewrite lookup_insert_eq in Hl. by injection Hl as <-.
      * rewrite lookup_insert_ne in Hl by done. by exists t', l.
    + intros (t' & l & Hl & Hin). exists t', l. split; [|done].
      rewrite lookup_insert_ne; [done | congruence].
  - intros st k p r H r'.
    rewrite process_result_stored, process_result_forwarded, H. split.
    + intros [[key Hin] | [Hs ->]].
      * exists key. apply in_or_app. by left.
      * exists k. apply in_or_app. right. by apply kept_one.
    + intros [key Hin]. apply in_app_or in Hin as [Hin | Hin].
      * left. by exists key.
      * right. apply kept_one in Hin as (? & ? & ?). done.
  - intros tr Htr r. cbn [resultsObject trace].
    rewrite (plain_forwarded tr) by (by apply preparatory_plain).
    unfold stored. split; [intros (t & l & Hl & _); by rewrite lookup_empty in Hl |].
    by intros [? []].
  - fold sc in Hp, Hq. split; [exact Hq | done].
  - fold sc in Hp, He. unfold output. rewrite He. split.
    + destruct (final_callback_plain cfg s st) as (evs & Hpl & ->).
      intros r. rewrite emit_forwarded by done. apply Hq.
    + intros _ Hup. unfold final_callback. rewrite Hup.
      cbn [emit resultsObject trace]. apply in_or_app. right. by left.
Qed.

End Reports.

(** ** What is forwarded, at every moment *)

Section Safety.
Import Engine Notions.
Context (env : environment) (cfg : cloud_config) (s : settings) (plugins : catalog).

Lemma kept_cons k r rs :
  kept env k (r :: rs) = (kept env k [r] ++ kept env k rs)%list.
Proof. unfold kept. cbn [List.filter]. by destruct (suppressed env k r). Qed.

Lemma process_results_forwarded_incl k p rs : forall st o,
  In o (forwarded (trace (fst (process_results env s k p st rs)))) ->
  In o (forwarded (trace st)) \/ In o (kept env k rs).
Proof.
  induction rs as [|r rs IH]; intros st o; [by left |].
  cbn [process_results]. rewrite kept_cons.
  pose proof (process_result_forwarded env s k p st r) as Hf.
  destruct (process_result env s k p st r) as [st1 [|]]; cbn [fst] in *.
  - rewrite Hf. intros H. apply in_app_or in H as [H | H]; [by left |].
    right. apply in_or_app. by left.
  - intros H. apply IH in H as [H | H].
    + rewrite Hf in H. apply in_app_or in H as [H | H]; [by left |].
      right. apply in_or_app. by left.
    + right. apply in_or_app. by right.
Qed.

Lemma postRun_forwarded_incl k p cb st o :
  In o (forwarded (trace (fst (postRun env s k p cb st)))) ->
  In o (forwarded (trace st)) \/ In o (kept env k (results_of cb)).
Proof.
  unfold postRun, results_of.
  destruct (JS.truthy (cb_err cb)).
  { cbn. rewrite forwarded_app. cbn. rewrite app_nil_r. by left. }
  destruct (JS.nonempty (cb_results cb)); cbn [negb].
  2:{ cbn. rewrite forwarded_app. cbn. rewrite app_nil_r. by left. }
  set (st0 := match resultsObject st !! title p with Some _ => st | None => _ end).
  assert (E0 : trace st0 = trace st) by (subst st0; by destruct (_ !! _)).
  pose proof (process_results_forwarded_incl k p (default [] (cb_results cb)) st0 o) as H.
  destruct (process_results env s k p st0 (default [] (cb_results cb))) as [st1 b].
  cbn [fst] in *. by rewrite E0 in H.
Qed.

Lemma move_safe skip sc sc' :
  move env cfg s sc sc' ->
  skipping sc = skip
  /\ incl (todo sc) plugins
  /\ Forall (expected env s plugins skip) (awaiting sc)
  /\ Forall (accounted env s plugins skip) (output sc) ->
  skipping sc' = skip
  /\ incl (todo sc') plugins
  /\ Forall (expected env s plugins skip) (awaiting sc')
  /\ Forall (accounted env s plugins skip) (output sc').
Proof.
  intros Hm (Hskip & Htodo & Hwait & Hout).
  split; [by rewrite (move_skipping _ _ _ _ _ Hm) |].
  destruct Hm as [sc key p rest st d Hp Ht Hr Hit
                 |sc key p cb rest st o Hp Htake Hpost
                 |sc key rest Hp Htake
                 |sc Hp Ht Hr]; unfold output in *.
  - rewrite Ht in Htodo.
    assert (Hin : In (key, p) plugins) by (apply Htodo; by left).
    assert (Hrest : incl rest plugins) by (intros e He; apply Htodo; by right).
    destruct (JS.includes key (skipping sc)) eqn:Esk.
    + rewrite iteratee_skipped in Hit by done. injection Hit as <- <-. by cbn.
    + destruct (iteratee_started env s _ key p (eng sc) Esk) as (evs & Hpl & Hit').
      rewrite Hit' in Hit. injection Hit as <- <-.
      destruct (invocation env s p) as [cb| |] eqn:Einv;
        cbn [hand_out todo awaiting eng]; rewrite emit_forwarded by done;
        (split; [done | split; [|done]]); try done.
      apply Forall_app. split; [done |]. constructor; [|constructor].
      unfold expected. cbn [fst snd]. by rewrite <- Hskip.
  - apply take_call_Permutation in Htake as Hperm.
    rewrite Hperm in Hwait. apply Forall_cons in Hwait as [(Hin & Hsk & Hinv) Hrest].
    cbn [fst snd] in *.
    assert (Hnew : Forall (accounted env s plugins skip) (forwarded (trace st))).
    { apply List.Forall_forall. intros [r k'] Ho.
      pose proof (postRun_forwarded_incl key p cb (eng sc) (r, k')) as Hf.
      rewrite Hpost in Hf. destruct (Hf Ho) as [Hold | Hk].
      - rewrite List.Forall_forall in Hout. by apply Hout.
      - unfold kept in Hk. apply in_map_iff in Hk as (r0 & E & Hk).
        injection E as E1 E2. subst r0 k'. apply filter_In in Hk as [Hk Hs].
        exists p. cbn [fst snd]. unfold delivered. rewrite Hinv.
        split; [done | split; [done | split; [done |]]].
        by destruct (suppressed env key r). }
    destruct o; cbn [after_callback todo awaiting eng]; done.
  - by cbn.
  - rewrite settle_joined by done. cbn [todo awaiting eng].
    destruct (final_callback_plain cfg s (eng sc)) as (evs & Hpl & ->).
    rewrite emit_forwarded by done. split; [by intros e [] | done].
Qed.

(** X18: at every moment of a scan, also of one in which checks throw, never
    call back or call back with an error, every result that was forwarded to
    the output handler was delivered by a check of the catalog that the
    planner did not skip, under the key of that check, and is not
    suppressed. *)
Theorem forwarded_results_are_accounted_for ticks :
  let sc := scan env cfg s plugins ticks in
  Forall (accounted env s plugins (skipping sc)) (output sc).
Proof.
  intros sc. subst sc. unfold scan.
  destruct (engine_cases env cfg s plugins)
    as [(ph & tr & Hph1 & Hph2 & Hpl & ->) | (pl & tr & Hplan & Hcalls & Hpl & ->)].
  - rewrite run_ticks_stopped by (by destruct ph). unfold output.
    cbn [stopped eng trace]. rewrite (plain_forwarded _ Hpl). constructor.
  - assert (Hm : rtc (move env cfg s) (start (skippedPlugins pl) plugins tr)
                   (run_ticks env cfg s
                      (executePlugins env cfg s (skippedPlugins pl) plugins tr) ticks))
      by (etrans; [apply executePlugins_moves | apply run_ticks_moves]).
    revert Hm. generalize (run_ticks env cfg s
                    (executePlugins env cfg s (skippedPlugins pl) plugins tr) ticks).
    intros sc Hm.
    assert (H : skipping sc = skippedPlugins pl
                /\ incl (todo sc) plugins
                /\ Forall (expected env s plugins (skippedPlugins pl)) (awaiting sc)
                /\ Forall (accounted env s plugins (skippedPlugins pl)) (output sc)).
    { apply (moves_preserve env cfg s _ (move_safe (skippedPlugins pl)) _ _ Hm).
      unfold output. cbn [start eng trace skipping todo awaiting].
      rewrite (plain_forwarded _ Hpl).
      split; [done | split; [by intros e He | split; constructor]]. }
    destruct H as (-> & _ & _ & H). exact H.
Qed.

End Safety.
(** ** The course of a scan *)

Section Course.
Import Engine Notions.
Context (env : environment) (cfg : cloud_config) (s : settings) (plugins : catalog).

Lemma run_ticks_app sc ticks more :
  run_ticks env cfg s sc (ticks ++ more)
  = run_ticks env cfg s (run_ticks env cfg s sc ticks) more.
Proof. unfold run_ticks. apply fold_left_app. Qed.

Lemma process_result_grows k p st r (m : Z) :
  (m <= maximumStatus st)%Z ->
  (m <= maximumStatus (fst (process_result env s k p st r)))%Z.
Proof.
  intros H. unfold process_result.
  destruct (suppressed env k r); [done |].
  destruct (remediation_due s k r); [destruct (remediate p) as [[]|] |]; cbn; lia.
Qed.

Lemma process_result_appends k p st r :
  exists evs, trace (fst (process_result env s k p st r)) = (trace st ++ evs)%list
              /\ Forall later evs.
Proof.
  unfold process_result.
  destruct (suppressed env k r); [exists []; by rewrite app_nil_r |].
  destruct (remediation_due s k r); [destruct (remediate p) as [[]|] |];
    cbn [fst emit trace]; rewrite <- ?app_assoc;
    eexists; (split; [reflexivity | by repeat constructor]).
Qed.

(** X21: the verdict is never negative and never decreases: whatever is
    delivered after a given moment of a scan, the verdict is then at least
    what it was. *)
Theorem verdict_never_decreases ticks more :
  (0 <= verdict (scan env cfg s plugins ticks)
   <= verdict (scan env cfg s plugins (ticks ++ more)))%Z.
Proof.
  assert (Hmoves : forall (m : Z) sc sc',
             rtc (move env cfg s) sc sc' ->
             (m <= verdict sc)%Z -> (m <= verdict sc')%Z).
  { intros m sc sc' Hm Hle. unfold verdict in *.
    assert (Hj : phase sc = Joined \/ phase sc <> Joined)
      by (destruct (phase sc); (by left) || (by right)).
    destruct Hj as [Hj|Hj].
    { by rewrite (moves_stopped env cfg s _ _ Hm) by congruence. }
    destruct (moves_phase env cfg s (fun st => (m <= maximumStatus st)%Z))
      with (sc := sc) (sc' := sc') as [[_ H] | (_ & st & H & ->)]; try done.
    intros st k p r. apply process_result_grows. }
  split.
  - unfold scan.
    destruct (engine_cases env cfg s plugins)
      as [(ph & tr & Hph1 & Hph2 & Hpl & ->) | (pl & tr & Hplan & Hcalls & Hpl & ->)].
    + rewrite run_ticks_stopped by (by destruct ph). done.
    + apply (Hmoves 0%Z (start (skippedPlugins pl) plugins tr)); [|done].
      etrans; [apply executePlugins_moves | apply run_ticks_moves].
  - unfold scan. rewrite run_ticks_app.
    apply (Hmoves _ _ _ (run_ticks_moves env cfg s more _)). lia.
Qed.

(** X22: in a scan in which a result was forwarded, planning had completed
    and the collection was written before: the trace begins with what the
    engine prints up to the collector's answer, the writing of the
    collection and the two messages that follow it, and the collection is
    not written a second time. *)
Theorem collection_is_written_first ticks :
  let sc := scan env cfg s plugins ticks in
  output sc = []
  \/ exists pl after,
       plan cfg s plugins = Some pl
       /\ trace (eng sc) = (analysed s plugins pl ++ after)%list
       /\ Forall later after.
Proof.
  intros sc. subst sc. unfold scan.
  destruct (engine_prelude env cfg s plugins)
    as [(ph & tr & Hph1 & Hph2 & Hpl & ->) | (pl & Hplan & ->)].
  - left. rewrite run_ticks_stopped by (by destruct ph). unfold output.
    cbn [stopped eng trace]. by apply plain_forwarded, preparatory_plain.
  - right. exists pl.
    set (Inv := fun st => exists after,
                  trace st = (analysed s plugins pl ++ after)%list
                  /\ Forall later after).
    destruct (moves_phase env cfg s Inv)
      with (sc := start (skippedPlugins pl) plugins (analysed s plugins pl))
           (sc' := run_ticks env cfg s
                     (executePlugins env cfg s (skippedPlugins pl) plugins
                        (analysed s plugins pl)) ticks)
      as [[_ (after & H1 & H2)] | (_ & st & (after & H1 & H2) & ->)];
      subst Inv; cbv beta.
    + intros st msg (after & H1 & H2). exists (after ++ [Log msg])%list.
      cbn [emit trace]. rewrite H1, app_assoc. split; [done |].
      apply Forall_app. split; [done | by repeat constructor].
    + intros st t _ H. exact H.
    + intros st k p r (after & H1 & H2).
      destruct (process_result_appends k p st r) as (evs & -> & Hevs).
      exists (after ++ evs)%list. rewrite H1, app_assoc. split; [done |].
      by apply Forall_app.
    + etrans; [apply executePlugins_moves | apply run_ticks_moves].
    + done.
    + exists []. cbn [start eng trace]. by rewrite app_nil_r.
    + by exists after.
    + unfold final_callback. cbn [emit trace]. rewrite H1, <- app_assoc.
      eexists. split; [done | split; [reflexivity |]].
      repeat (apply Forall_app; split); try done;
        destruct (blob_upload cfg), (exit_code s); by repeat constructor.
Qed.

End Course.
